(** * Food-analyzer backend: the response-repair core of [Backend/app.js]

    The server receives the text a generative model produced for an uploaded
    image, isolates a JSON object in it ([extractJSON]), parses it leniently
    ([safeJSONParse]), recomputes the calorie total and answers the client.

    The development follows the source bottom-up: JavaScript strings as
    sequences of UTF-16 code units, the fragment of regular expressions the
    source uses, IEEE-754 binary64 numbers (the standard library's
    [SpecFloat]), [JSON.parse], the coercions [ToBoolean] and [ToNumber],
    the request handler as a state-and-exception computation over the
    upload directory, and finally the client component that posts the image
    and shows the answer. *)

From Stdlib Require Import Ascii String.
From Stdlib Require Import List Bool NArith ZArith Lia.
From Stdlib Require Import SpecFloat QArith Qround DecimalString.
Import ListNotations.
Close Scope Q_scope.

Set Warnings "-register-all".

(** ** Exceptions *)

Inductive error : Type :=
| Error (msg : string)      (* [new Error(msg)] *)
| SyntaxError               (* thrown by [JSON.parse] *)
| TypeError                 (* property access on [null], calling [undefined], ... *)
| ENOENT                    (* file-system failure *)
| UpstreamError.            (* the model call rejected *)

Inductive result (A : Type) : Type :=
| Ok (a : A)
| Throw (e : error).
Arguments Ok {A} a.
Arguments Throw {A} e.

Definition bind_result {A B} (r : result A) (k : A -> result B) : result B :=
  match r with
  | Ok a => k a
  | Throw e => Throw e
  end.

(** ** Strings *)

Definition code_unit := N.
Definition jsstring := list code_unit.

(** An ASCII literal as a string of code units. *)
Fixpoint lit (s : string) : jsstring :=
  match s with
  | EmptyString => []
  | String a t => N_of_ascii a :: lit t
  end.

(** Sample texts are written with an apostrophe standing for the double
    quote. *)
Definition dq (s : string) : jsstring :=
  map (fun c => if N.eqb c 39%N then 34%N else c) (lit s).

Module Chr.
Local Open Scope N_scope.
Definition TAB : code_unit := 9.
Definition LF : code_unit := 10.
Definition VT : code_unit := 11.
Definition FF : code_unit := 12.
Definition CR : code_unit := 13.
Definition SP : code_unit := 32.
Definition QUOTE : code_unit := 34.
Definition COMMA : code_unit := 44.
Definition LBRACKET : code_unit := 91.
Definition BACKSLASH : code_unit := 92.
Definition RBRACKET : code_unit := 93.
Definition BACKTICK : code_unit := 96.
Definition LBRACE : code_unit := 123.
Definition RBRACE : code_unit := 125.
End Chr.

(** [WhiteSpace] and [LineTerminator] of ECMAScript: what [\s] matches and
    what [String.prototype.trim] strips. *)
Definition is_white_space (c : code_unit) : bool :=
  N.eqb c Chr.TAB || N.eqb c Chr.LF || N.eqb c Chr.VT || N.eqb c Chr.FF
  || N.eqb c Chr.CR || N.eqb c Chr.SP
  || N.eqb c 160                          (* U+00A0 *)
  || N.eqb c 5760                         (* U+1680 *)
  || (N.leb 8192 c && N.leb c 8202)       (* U+2000 to U+200A *)
  || N.eqb c 8232 || N.eqb c 8233         (* U+2028, U+2029 *)
  || N.eqb c 8239 || N.eqb c 8287         (* U+202F, U+205F *)
  || N.eqb c 12288 || N.eqb c 65279.      (* U+3000, U+FEFF *)

Fixpoint trimStart (s : jsstring) : jsstring :=
  match s with
  | [] => []
  | c :: t => if is_white_space c then trimStart t else s
  end.

Definition trimEnd (s : jsstring) : jsstring := rev (trimStart (rev s)).

Definition trim (s : jsstring) : jsstring := trimEnd (trimStart s).

(** [s] minus the literal [w] at its head. *)
Fixpoint after (w s : jsstring) : option jsstring :=
  match w with
  | [] => Some s
  | c :: w' =>
      match s with
      | x :: t => if N.eqb x c then after w' t else None
      | [] => None
      end
  end.

(** Whether [w] occurs somewhere in [s]. *)
Fixpoint occursb (w s : jsstring) : bool :=
  match after w s with
  | Some _ => true
  | None =>
      match s with
      | [] => false
      | _ :: t => occursb w t
      end
  end.

(** ** Regular expressions

    The fragment the source needs: literal characters, character classes,
    a greedy star over a class, and capture groups that are not nested.
    Matching is the backtracking search of the language: the star first
    takes as many characters as it can and gives them back one at a time
    when the rest of the pattern fails. *)

Module RegExp.

Inductive node : Type :=
| Char (c : code_unit)
| Class (p : code_unit -> bool)
| Star (p : code_unit -> bool)
| Open
| Close.

Definition regex := list node.

(** What a match attempt has consumed so far, where the open group
    started, and the groups already closed (group 1 first). *)
Record state : Type := mkState {
  taken : jsstring;
  group_start : nat;
  groups : list jsstring
}.

Definition init : state := mkState [] 0 [].

Definition take (x : code_unit) (st : state) : state :=
  mkState (taken st ++ [x]) (group_start st) (groups st).

(** [take] for each character of [w] in turn. *)
Definition takes (w : jsstring) (st : state) : state :=
  mkState (taken st ++ w) (group_start st) (groups st).

Definition open (st : state) : state :=
  mkState (taken st) (length (taken st)) (groups st).

Definition close (st : state) : state :=
  mkState (taken st) (group_start st)
          (groups st ++ [skipn (group_start st) (taken st)]).

Fixpoint star (p : code_unit -> bool)
         (k : state -> jsstring -> option state)
         (st : state) (s : jsstring) : option state :=
  match s with
  | [] => k st []
  | x :: t =>
      if p x then
        match star p k (take x st) t with
        | Some r => Some r
        | None => k st s
        end
      else k st s
  end.

(** One match attempt anchored at the head of [s]. *)
Fixpoint exec (re : regex) (st : state) (s : jsstring) : option state :=
  match re with
  | [] => Some st
  | Char c :: re' =>
      match s with
      | x :: t => if N.eqb x c then exec re' (take x st) t else None
      | [] => None
      end
  | Class p :: re' =>
      match s with
      | x :: t => if p x then exec re' (take x st) t else None
      | [] => None
      end
  | Star p :: re' => star p (exec re') st s
  | Open :: re' => exec re' (open st) s
  | Close :: re' => exec re' (close st) s
  end.

(** [s.match(re)] without the [g] flag: the leftmost match. *)
Fixpoint search (re : regex) (s : jsstring) : option state :=
  match exec re init s with
  | Some st => Some st
  | None =>
      match s with
      | [] => None
      | _ :: t => search re t
      end
  end.

(** Replacement templates: text and group references such as [$1]. *)
Inductive piece : Type :=
| Text (s : jsstring)
| Ref (n : nat).

Definition expand_piece (st : state) (p : piece) : jsstring :=
  match p with
  | Text s => s
  | Ref n => nth (pred n) (groups st) []
  end.

Definition expand (tmpl : list piece) (st : state) : jsstring :=
  flat_map (expand_piece st) tmpl.

(** [s.replace(re, tmpl)] with the [g] flag.  [skip] counts the characters
    of the last match that are still to be passed over; after an empty
    match the scan moves on by one character, which is kept. *)
Fixpoint replace_from (re : regex) (tmpl : list piece)
         (skip : nat) (s : jsstring) : jsstring :=
  match skip with
  | S k =>
      match s with
      | [] => []
      | _ :: t => replace_from re tmpl k t
      end
  | O =>
      match exec re init s with
      | Some st =>
          expand tmpl st ++
          match s with
          | [] => []
          | x :: t =>
              match length (taken st) with
              | O => x :: replace_from re tmpl 0 t
              | S k => replace_from re tmpl k t
              end
          end
      | None =>
          match s with
          | [] => []
          | x :: t => x :: replace_from re tmpl 0 t
          end
      end
  end.

Definition replace (re : regex) (tmpl : list piece) (s : jsstring) : jsstring :=
  replace_from re tmpl 0 s.

(** A literal pattern. *)
Definition literally (s : jsstring) : regex := map Char s.

End RegExp.

(** ** The extractor and the lenient parser's repair (app.js, lines 59-78) *)

Import RegExp.

(** The character class [[\s\S]]: every character. *)
Definition any_char (c : code_unit) : bool :=
  is_white_space c || negb (is_white_space c).

(** The character class [[}\]]]. *)
Definition is_closer (c : code_unit) : bool :=
  N.eqb c Chr.RBRACE || N.eqb c Chr.RBRACKET.

(** [/```json/g] and [/```/g] *)
Definition FENCE_JSON : regex := literally (lit "```json").
Definition FENCE : regex := literally (lit "```").

(** [/\{[\s\S]*\}/] *)
Definition BRACES : regex :=
  [ Char Chr.LBRACE;
    Star any_char;
    Char Chr.RBRACE ].

(** [/,\s*([}\]])/g] *)
Definition TRAILING_COMMA : regex :=
  [ Char Chr.COMMA;
    Star is_white_space;
    Open;
    Class is_closer;
    Close ].

Definition unfenced (text : jsstring) : jsstring :=
  replace FENCE [] (replace FENCE_JSON [] text).

Definition cleaned (text : jsstring) : jsstring := trim (unfenced text).

Definition extractJSON (text : jsstring) : result jsstring :=
  match search BRACES (cleaned text) with
  | None => Throw (Error "No JSON found")
  | Some m => Ok (taken m)
  end.

(** ** Digits and exponents, shared by [JSON.parse] and [Number(string)] *)

Module Digits.

Definition is_digit (c : code_unit) : bool := N.leb 48 c && N.leb c 57.

(** The longest prefix of decimal digits, and what follows it. *)
Fixpoint digits (s : jsstring) : jsstring * jsstring :=
  match s with
  | [] => ([], [])
  | c :: t =>
      if is_digit c then let '(ds, r) := digits t in (c :: ds, r)
      else ([], s)
  end.

Definition digit_value (c : code_unit) : Z := Z.of_N c - 48.

Definition decimal (ds : jsstring) : Z :=
  fold_left (fun acc c => 10 * acc + digit_value c)%Z ds 0%Z.

Definition hex_value (c : code_unit) : option N :=
  if N.leb 48 c && N.leb c 57 then Some (c - 48)%N
  else if N.leb 65 c && N.leb c 70 then Some (c - 55)%N
  else if N.leb 97 c && N.leb c 102 then Some (c - 87)%N
  else None.

Definition exp_part (s : jsstring) : option (Z * jsstring) :=
  match s with
  | c :: t =>
      if N.eqb c 101 || N.eqb c 69 then             (* e E *)
        let '(neg, t') :=
          match t with
          | sg :: u =>
              if N.eqb sg 45 then (true, u)
              else if N.eqb sg 43 then (false, u)
              else (false, t)
          | [] => (false, t)
          end in
        match digits t' with
        | ([], _) => None
        | (ds, r) => Some (cond_Zopp neg (decimal ds), r)
        end
      else Some (0%Z, s)
  | [] => Some (0%Z, [])
  end.

End Digits.

(** ** Numbers

    A JavaScript Number is an IEEE-754 binary64 value: [spec_float] at
    precision 53 and maximal exponent 1024, with the standard library's
    round-to-nearest-even operations. *)

Module Number.
Local Open Scope Z_scope.

Definition prec : Z := 53.
Definition emax : Z := 1024.

Definition number := spec_float.

Definition NaN : number := S754_nan.
Definition zero : number := S754_zero false.
Definition Infinity (neg : bool) : number := S754_infinity neg.

(** [x + y] on two Numbers *)
Definition add (x y : number) : number := SFadd prec emax x y.

(** The Number nearest to the integer [n]. *)
Definition of_Z (n : Z) : number := binary_normalize prec emax n 0 false.

(** The Number nearest to [m * 10 ^ e10] for [0 <= m], negated when [neg]:
    how a decimal literal is read. *)
Definition of_decimal (neg : bool) (m e10 : Z) : number :=
  if m =? 0 then S754_zero neg
  else if 0 <=? e10 then
    binary_normalize prec emax (cond_Zopp neg (m * 10 ^ e10)) 0 neg
  else
    let '(q, e, l) := SFdiv_core_binary prec emax m 0 (10 ^ (- e10)) 0 in
    binary_round_aux prec emax neg q e l.

(** [Math.round]: the nearest integer, a tie going to the larger one;
    the sign of a zero result is the sign of the argument. *)
Definition round (x : number) : number :=
  match x with
  | S754_finite s m e =>
      if 0 <=? e then x
      else
        let n := (2 * cond_Zopp s (Zpos m) + 2 ^ (- e)) / 2 ^ (1 - e) in
        if n =? 0 then S754_zero s else of_Z n
  | _ => x
  end.

Definition is_nan (x : number) : bool :=
  match x with S754_nan => true | _ => false end.

Definition is_zero (x : number) : bool :=
  match x with S754_zero _ => true | _ => false end.

End Number.

(** ** Values *)

Inductive value : Type :=
| Undefined
| Null
| Boolean (b : bool)
| Num (x : Number.number)
| Str (s : jsstring)
| Arr (elems : list value)
| Obj (props : list (jsstring * value)).

Fixpoint str_eqb (a b : jsstring) : bool :=
  match a, b with
  | [], [] => true
  | x :: a', y :: b' => N.eqb x y && str_eqb a' b'
  | _, _ => false
  end.

(** Own properties of an object, in creation order. *)
Definition properties := list (jsstring * value).

Fixpoint lookup (k : jsstring) (ps : properties) : option value :=
  match ps with
  | [] => None
  | (k', v) :: ps' => if str_eqb k k' then Some v else lookup k ps'
  end.

(** [o[k] = v]: an existing property keeps its place, a new one goes last. *)
Fixpoint define (k : jsstring) (v : value) (ps : properties) : properties :=
  match ps with
  | [] => [(k, v)]
  | (k', v') :: ps' =>
      if str_eqb k k' then (k', v) :: ps' else (k', v') :: define k v ps'
  end.

(** ** [JSON.parse]

    The strict grammar of ECMA-404 as ECMAScript reads it: only tab, line
    feed, carriage return and space are white space; a later duplicate key
    overwrites the earlier value.  The nesting of arrays and objects is
    followed with fuel; [fuel_suffices] below shows that the fuel given by
    [parse] never runs out. *)

Module JSON.
Import Digits.

Inductive outcome (A : Type) : Type :=
| Parsed (a : A) (rest : jsstring)
| Invalid
| Exhausted.
Arguments Parsed {A} a rest.
Arguments Invalid {A}.
Arguments Exhausted {A}.

Definition is_ws (c : code_unit) : bool :=
  N.eqb c Chr.TAB || N.eqb c Chr.LF || N.eqb c Chr.CR || N.eqb c Chr.SP.

Fixpoint skip_ws (s : jsstring) : jsstring :=
  match s with
  | [] => []
  | c :: t => if is_ws c then skip_ws t else s
  end.

Definition hex4 (a b c d : code_unit) : option code_unit :=
  match hex_value a, hex_value b, hex_value c, hex_value d with
  | Some x, Some y, Some z, Some w => Some (((x * 16 + y) * 16 + z) * 16 + w)%N
  | _, _, _, _ => None
  end.

(** The character a one-letter escape stands for. *)
Definition escape (c : code_unit) : option code_unit :=
  if N.eqb c 34 then Some 34%N            (* quote *)
  else if N.eqb c 92 then Some 92%N       (* backslash *)
  else if N.eqb c 47 then Some 47%N       (* slash *)
  else if N.eqb c 98 then Some 8%N        (* b *)
  else if N.eqb c 102 then Some 12%N      (* f *)
  else if N.eqb c 110 then Some 10%N      (* n *)
  else if N.eqb c 114 then Some 13%N      (* r *)
  else if N.eqb c 116 then Some 9%N       (* t *)
  else None.

Definition prepend (c : code_unit) (r : option (jsstring * jsstring))
  : option (jsstring * jsstring) :=
  match r with
  | Some (body, rest) => Some (c :: body, rest)
  | None => None
  end.

(** A string literal after its opening quote: its characters and the text
    after the closing quote. *)
Fixpoint string_body (s : jsstring) : option (jsstring * jsstring) :=
  match s with
  | [] => None
  | c :: t =>
      if N.eqb c Chr.QUOTE then Some ([], t)
      else if N.eqb c Chr.BACKSLASH then
        match t with
        | [] => None
        | e :: t' =>
            if N.eqb e 117 then                     (* \uXXXX *)
              match t' with
              | h1 :: h2 :: h3 :: h4 :: t'' =>
                  match hex4 h1 h2 h3 h4 with
                  | Some u => prepend u (string_body t'')
                  | None => None
                  end
              | _ => None
              end
            else
              match escape e with
              | Some x => prepend x (string_body t')
              | None => None
              end
        end
      else if N.ltb c 32 then None
      else prepend c (string_body t)
  end.

(** The integer part of a number: a lone [0], or a digit from 1 to 9
    followed by digits. *)
Definition int_part (s : jsstring) : option (jsstring * jsstring) :=
  match s with
  | c :: t =>
      if N.eqb c 48 then Some ([c], t)
      else if is_digit c then let '(ds, r) := digits t in Some (c :: ds, r)
      else None
  | [] => None
  end.

Definition frac_part (s : jsstring) : option (jsstring * jsstring) :=
  match s with
  | c :: t =>
      if N.eqb c 46 then                            (* . *)
        match digits t with
        | ([], _) => None
        | (ds, r) => Some (ds, r)
        end
      else Some ([], s)
  | [] => Some ([], [])
  end.

Definition number_token (s : jsstring) : option (Number.number * jsstring) :=
  let '(neg, s1) :=
    match s with
    | c :: t => if N.eqb c 45 then (true, t) else (false, s)
    | [] => (false, s)
    end in
  match int_part s1 with
  | None => None
  | Some (ip, s2) =>
      match frac_part s2 with
      | None => None
      | Some (fp, s3) =>
          match exp_part s3 with
          | None => None
          | Some (e, s4) =>
              Some (Number.of_decimal neg (decimal (ip ++ fp))
                                      (e - Z.of_nat (length fp)), s4)
          end
      end
  end.

Definition keyword (w : string) (v : value) (s : jsstring) : outcome value :=
  match after (lit w) s with
  | Some r => Parsed v r
  | None => Invalid
  end.

Fixpoint parse_value (fuel : nat) (s : jsstring) : outcome value :=
  match fuel with
  | O => Exhausted
  | S fuel' =>
      match skip_ws s with
      | [] => Invalid
      | c :: t =>
          if N.eqb c Chr.LBRACE then
            match skip_ws t with
            | d :: r => if N.eqb d Chr.RBRACE then Parsed (Obj []) r
                        else parse_members fuel' [] t
            | [] => Invalid
            end
          else if N.eqb c Chr.LBRACKET then
            match skip_ws t with
            | d :: r => if N.eqb d Chr.RBRACKET then Parsed (Arr []) r
                        else parse_elements fuel' [] t
            | [] => Invalid
            end
          else if N.eqb c Chr.QUOTE then
            match string_body t with
            | Some (body, r) => Parsed (Str body) r
            | None => Invalid
            end
          else if N.eqb c 116 then keyword "true" (Boolean true) (c :: t)
          else if N.eqb c 102 then keyword "false" (Boolean false) (c :: t)
          else if N.eqb c 110 then keyword "null" Null (c :: t)
          else
            match number_token (c :: t) with
            | Some (x, r) => Parsed (Num x) r
            | None => Invalid
            end
      end
  end

(** The elements of an array after the opening bracket or after a
    comma; [acc] holds the elements read so far, last first. *)
with parse_elements (fuel : nat) (acc : list value) (s : jsstring)
  : outcome value :=
  match fuel with
  | O => Exhausted
  | S fuel' =>
      match parse_value fuel' s with
      | Parsed v r =>
          match skip_ws r with
          | d :: r' =>
              if N.eqb d Chr.COMMA then parse_elements fuel' (v :: acc) r'
              else if N.eqb d Chr.RBRACKET then Parsed (Arr (rev (v :: acc))) r'
              else Invalid
          | [] => Invalid
          end
      | Invalid => Invalid
      | Exhausted => Exhausted
      end
  end

(** The members of an object after the opening brace or after a comma. *)
with parse_members (fuel : nat) (acc : properties) (s : jsstring)
  : outcome value :=
  match fuel with
  | O => Exhausted
  | S fuel' =>
      match skip_ws s with
      | q :: t =>
          if N.eqb q Chr.QUOTE then
            match string_body t with
            | Some (k, r) =>
                match skip_ws r with
                | c :: r' =>
                    if N.eqb c 58 then              (* : *)
                      match parse_value fuel' r' with
                      | Parsed v r'' =>
                          match skip_ws r'' with
                          | d :: r3 =>
                              if N.eqb d Chr.COMMA
                              then parse_members fuel' (define k v acc) r3
                              else if N.eqb d Chr.RBRACE
                              then Parsed (Obj (define k v acc)) r3
                              else Invalid
                          | [] => Invalid
                          end
                      | Invalid => Invalid
                      | Exhausted => Exhausted
                      end
                    else Invalid
                | [] => Invalid
                end
            | None => Invalid
            end
          else Invalid
      | [] => Invalid
      end
  end.

Definition fuel_for (s : jsstring) : nat := 2 * length s + 1.

(** [JSON.parse(text)] *)
Definition parse (text : jsstring) : result value :=
  match parse_value (fuel_for text) text with
  | Parsed v r =>
      match skip_ws r with
      | [] => Ok v
      | _ :: _ => Throw SyntaxError
      end
  | Invalid => Throw SyntaxError
  | Exhausted => Throw SyntaxError
  end.

End JSON.

(** [safeJSONParse] (app.js, lines 71-78) *)
Definition safeJSONParse (text : jsstring) : result value :=
  match JSON.parse text with
  | Ok v => Ok v
  | Throw _ =>
      let fixed := replace TRAILING_COMMA [Ref 1] text in
      JSON.parse fixed
  end.

(** ** Coercions *)

(** [StringToNumber]: white space is trimmed, the empty string is 0, then a
    hexadecimal, octal or binary integer, a signed [Infinity] or a signed
    decimal literal; anything else is [NaN]. *)

Module Coerce.
Import Digits.

Definition radix_digit (radix : N) (c : code_unit) : option N :=
  match hex_value c with
  | Some d => if N.ltb d radix then Some d else None
  | None => None
  end.

(** The value of a non-empty run of digits in the given radix. *)
Fixpoint radix_value (radix : N) (acc : N) (s : jsstring) : option N :=
  match s with
  | [] => Some acc
  | c :: t =>
      match radix_digit radix c with
      | Some d => radix_value radix (acc * radix + d) t
      | None => None
      end
  end.

Definition radix_of_prefix (c : code_unit) : option N :=
  if N.eqb c 120 || N.eqb c 88 then Some 16%N         (* x X *)
  else if N.eqb c 111 || N.eqb c 79 then Some 8%N     (* o O *)
  else if N.eqb c 98 || N.eqb c 66 then Some 2%N      (* b B *)
  else None.

Definition non_decimal (s : jsstring) : option Number.number :=
  match s with
  | z :: p :: d :: t =>
      if N.eqb z 48 then
        match radix_of_prefix p with
        | Some radix =>
            match radix_value radix 0 (d :: t) with
            | Some n => Some (Number.of_Z (Z.of_N n))
            | None => Some Number.NaN
            end
        | None => None
        end
      else None
  | [z; p] =>
      if N.eqb z 48 then
        match radix_of_prefix p with
        | Some _ => Some Number.NaN
        | None => None
        end
      else None
  | _ => None
  end.

Definition unsigned_decimal (neg : bool) (s : jsstring) : Number.number :=
  if str_eqb s (lit "Infinity") then Number.Infinity neg
  else
    let '(ip, s1) := digits s in
    let '(dot, (fp, s2)) :=
      match s1 with
      | c :: t => if N.eqb c 46 then (true, digits t) else (false, ([], s1))
      | [] => (false, ([], s1))
      end in
    match ip ++ fp with
    | [] => Number.NaN
    | ds =>
        match exp_part s2 with
        | Some (e, []) =>
            Number.of_decimal neg (decimal ds) (e - Z.of_nat (length fp))
        | _ => Number.NaN
        end
    end.

Definition StringToNumber (s : jsstring) : Number.number :=
  match trim s with
  | [] => Number.zero
  | c :: t =>
      match non_decimal (c :: t) with
      | Some x => x
      | None =>
          if N.eqb c 45 then unsigned_decimal true t
          else if N.eqb c 43 then unsigned_decimal false t
          else unsigned_decimal false (c :: t)
      end
  end.

(** [ToBoolean] *)
Definition ToBoolean (v : value) : bool :=
  match v with
  | Undefined | Null => false
  | Boolean b => b
  | Num x => negb (Number.is_zero x || Number.is_nan x)
  | Str s => match s with [] => false | _ => true end
  | Arr _ | Obj _ => true
  end.

(** [a || b] *)
Definition or (a b : value) : value := if ToBoolean a then a else b.

Definition has_own (k : jsstring) (ps : properties) : bool :=
  match lookup k ps with Some _ => true | None => false end.

(** Converting a parsed object to a primitive calls the inherited
    [valueOf] and [toString]; nothing a JSON text produces is callable, so
    an own [toString] property leaves no method to call and the conversion
    throws.  For an array the same holds for every element that
    [Array.prototype.join] has to render. *)
Fixpoint unprintable (v : value) : bool :=
  match v with
  | Obj ps => has_own (lit "toString") ps
  | Arr l => existsb unprintable l
  | _ => false
  end.

(** [ToNumber].  An object renders as [[object Object]], which is not
    numeric.  An array is joined with commas and the text read back: the
    empty array gives 0, a text with a comma is not numeric, and a
    one-element array reads as its element's text ([Number::toString] reads
    back as the number it printed, except that the zero loses its sign).
    The call stack is taken to suffice: on arrays nested deeper than it
    allows, the engine's [join] throws a [RangeError] instead. *)
Fixpoint ToNumber (v : value) : result Number.number :=
  match v with
  | Undefined => Ok Number.NaN
  | Null => Ok Number.zero
  | Boolean b => Ok (if b then Number.of_Z 1 else Number.zero)
  | Num x => Ok x
  | Str s => Ok (StringToNumber s)
  | Obj ps => if has_own (lit "toString") ps then Throw TypeError else Ok Number.NaN
  | Arr [] => Ok Number.zero
  | Arr [x] =>
      match x with
      | Undefined | Null => Ok Number.zero
      | Boolean _ => Ok Number.NaN
      | Num n => Ok (if Number.is_zero n then Number.zero else n)
      | _ => ToNumber x
      end
  | Arr l => if existsb unprintable l then Throw TypeError else Ok Number.NaN
  end.

(** [v.k] for a key that no prototype defines, as [foods] and [calories]:
    the own property of an object, [undefined] on any other value, and a
    [TypeError] on [null] and [undefined]. *)
Definition get (v : value) (k : jsstring) : result value :=
  match v with
  | Undefined | Null => Throw TypeError
  | Obj ps => Ok (match lookup k ps with Some x => x | None => Undefined end)
  | _ => Ok Undefined
  end.

End Coerce.

Import Coerce.

(** ** The request handler (app.js, lines 81-139)

    The handler runs against the upload directory, where [multer] has put
    the uploaded image, and against the model service.  It is a computation
    that may change the directory and may throw. *)

(** [req.file], as [multer] fills it in *)
Record upload : Type := mkUpload {
  path : string;
  mimetype : jsstring
}.

Record request : Type := mkRequest {
  file : option upload
}.

(** The files under [uploads/], each with its content in base64. *)
Definition disk := list (string * jsstring).

(** What [model.generateContent] is called with. *)
Record generate_request : Type := mkGenerate {
  prompt : jsstring;
  data : jsstring;
  mimeType : jsstring
}.

(** The call either rejects or resolves to a result whose
    [response.text()] gives the model's text or throws. *)
Inductive upstream : Type :=
| Rejects
| Resolves (text : result jsstring).

Record response : Type := mkResponse {
  status : nat;
  body : value
}.

Definition M (A : Type) : Type := disk -> result A * disk.

Definition ret {A} (a : A) : M A := fun d => (Ok a, d).

Definition throw {A} (e : error) : M A := fun d => (Throw e, d).

Definition bind {A B} (m : M A) (k : A -> M B) : M B :=
  fun d =>
    match m d with
    | (Ok a, d') => k a d'
    | (Throw e, d') => (Throw e, d')
    end.

Definition lift {A} (r : result A) : M A := fun d => (r, d).

(** [try { m } catch (e) { h e }] *)
Definition try_catch {A} (m : M A) (h : error -> M A) : M A :=
  fun d =>
    match m d with
    | (Ok a, d') => (Ok a, d')
    | (Throw e, d') => h e d'
    end.

Declare Scope js_scope.
Delimit Scope js_scope with js.
Notation "x <- m ;; k" := (bind m (fun x => k))
  (at level 61, m at next level, right associativity) : js_scope.
Notation "m ;;; k" := (bind m (fun _ => k))
  (at level 61, right associativity) : js_scope.

Fixpoint find_file (p : string) (d : disk) : option jsstring :=
  match d with
  | [] => None
  | (q, content) :: d' => if String.eqb p q then Some content else find_file p d'
  end.

Fixpoint remove_file (p : string) (d : disk) : disk :=
  match d with
  | [] => []
  | (q, content) :: d' =>
      if String.eqb p q then d' else (q, content) :: remove_file p d'
  end.

(** [fs.readFileSync(p, "base64")] *)
Definition readFileSync (p : string) : M jsstring :=
  fun d =>
    match find_file p d with
    | Some content => (Ok content, d)
    | None => (Throw ENOENT, d)
    end.

(** [fs.unlinkSync(p)] *)
Definition unlinkSync (p : string) : M unit :=
  fun d =>
    match find_file p d with
    | Some _ => (Ok tt, remove_file p d)
    | None => (Throw ENOENT, d)
    end.

(** [await model.generateContent(...)] *)
Definition generateContent (model : generate_request -> upstream)
           (r : generate_request) : M (result jsstring) :=
  match model r with
  | Rejects => throw UpstreamError
  | Resolves text => ret text
  end.

Definition PROMPT : jsstring := dq "
You are a nutrition analysis API.

CRITICAL RULES:
- Respond ONLY with valid JSON
- No markdown
- No explanations
- No comments
- No trailing commas

Return EXACTLY this schema:

{
  'foods': [
    {
      'name': 'string',
      'estimated_weight_grams': number,
      'calories': number
    }
  ],
  'total_calories': number
}

If unsure, return empty foods array and total_calories = 0.
".

Definition key_foods : jsstring := lit "foods".
Definition key_calories : jsstring := lit "calories".
Definition key_total_calories : jsstring := lit "total_calories".
Definition key_warning : jsstring := lit "warning".
Definition key_error : jsstring := lit "error".

(** [res.json(body)] and [res.status(code).json(body)].  The call stack
    is taken to suffice for printing the body: on a body nested deeper than
    it allows, [JSON.stringify] throws a [RangeError] instead. *)
Definition json (body : properties) : response := mkResponse 200 (Obj body).
Definition status_json (code : nat) (body : properties) : response :=
  mkResponse code (Obj body).

(** [if (!Array.isArray(parsed.foods)) parsed.foods = [];] followed by the
    read of [parsed.foods].  The assignment creates the property on an
    object and on an array, and does nothing on a primitive, whose [foods]
    stays [undefined]. *)
Definition normalized_foods (parsed : value) : result value :=
  bind_result (get parsed key_foods) (fun foods =>
    match foods with
    | Arr _ => Ok foods
    | _ =>
        match parsed with
        | Obj _ | Arr _ => Ok (Arr [])
        | _ => Ok Undefined
        end
    end).

(** [(sum, f) => sum + Number(f.calories || 0)] *)
Definition add_calories (sum : Number.number) (f : value) : result Number.number :=
  bind_result (get f key_calories) (fun c =>
  bind_result (ToNumber (or c (Num Number.zero))) (fun n =>
  Ok (Number.add sum n))).

(** [foods.reduce(f, 0)]: the callback's exception ends the reduction. *)
Fixpoint reduce (f : Number.number -> value -> result Number.number)
         (foods : list value) (sum : Number.number) : result Number.number :=
  match foods with
  | [] => Ok sum
  | x :: rest => bind_result (f sum x) (reduce f rest)
  end.

(** Lines 124-134: the aggregation and the success response. *)
Definition aggregate (parsed : value) : result response :=
  bind_result (normalized_foods parsed) (fun foods =>
    match foods with
    | Arr items =>
        bind_result (reduce add_calories items Number.zero) (fun totalCalories =>
        Ok (json [ (key_foods, foods);
                   (key_total_calories, Num (Number.round totalCalories)) ]))
    | _ => Throw TypeError          (* [undefined.reduce] *)
    end).

Definition degraded : response :=
  json [ (key_foods, Arr []);
         (key_total_calories, Num Number.zero);
         (key_warning, Str (lit "Invalid model response")) ].

(** The mime type the handler sends: [req.file.mimetype || "image/jpeg"] *)
Definition sent_mimetype (f : upload) : jsstring :=
  match mimetype f with
  | [] => lit "image/jpeg"
  | m => m
  end.

Definition analyze_food (model : generate_request -> upstream)
           (req : request) : M response :=
  try_catch
    (match file req with
     | None => ret (status_json 400 [ (key_error, Str (lit "Image is required")) ])
     | Some f =>
         (imageBase64 <- readFileSync (path f) ;;
          result <- generateContent model
                      (mkGenerate PROMPT imageBase64 (sent_mimetype f)) ;;
          unlinkSync (path f) ;;;
          rawText <- lift result ;;
          match bind_result (extractJSON rawText) safeJSONParse with
          | Throw _ => ret degraded
          | Ok parsed => lift (aggregate parsed)
          end)%js
     end)
    (fun error =>
       ret (status_json 500 [ (key_error, Str (lit "Failed to analyze image")) ])).

(** ** The client (lines 146-245)

    The component that posts an image to the service and shows its answer.
    A payload is a [value]: what [res.json()] makes of the response body. *)

(** [typeof v] *)
Inductive type_name : Type :=
| type_undefined | type_object | type_boolean | type_number | type_string.

Definition typeof (v : value) : type_name :=
  match v with
  | Undefined => type_undefined
  | Null | Arr _ | Obj _ => type_object
  | Boolean _ => type_boolean
  | Num _ => type_number
  | Str _ => type_string
  end.

Definition type_eqb (a b : type_name) : bool :=
  match a, b with
  | type_undefined, type_undefined | type_object, type_object
  | type_boolean, type_boolean | type_number, type_number
  | type_string, type_string => true
  | _, _ => false
  end.

(** [Array.isArray(v)] *)
Definition isArray (v : value) : bool :=
  match v with Arr _ => true | _ => false end.

(** [obj.k] where the guard [!payload || typeof payload !== "object"] has
    been passed: [obj] is an object or an array, so that the read does not
    throw. *)
Definition field (obj : value) (k : jsstring) : value :=
  match get obj k with
  | Ok v => v
  | Throw _ => Undefined
  end.

Definition isAnalyzeResponse (payload : value) : bool :=
  if negb (ToBoolean payload) || negb (type_eqb (typeof payload) type_object)
  then false
  else
    let obj := payload in
    type_eqb (typeof (field obj key_total_calories)) type_number
    && isArray (field obj key_foods).

Definition key_message : jsstring := lit "message".
Definition key_detail : jsstring := lit "detail".

(** [null] is [None]. *)
Definition getApiErrorMessage (payload : value) : option jsstring :=
  if negb (ToBoolean payload) || negb (type_eqb (typeof payload) type_object)
  then None
  else
    let obj := payload in
    match field obj key_message with
    | Str s => Some s
    | _ =>
        match field obj key_error with
        | Str s => Some s
        | _ =>
            match field obj key_detail with
            | Str s => Some s
            | _ => None
            end
        end
    end.

(** The state of the component: [image], [result], [loading], [error]. *)
Record component : Type := mkComponent {
  st_image : option string;
  st_result : option value;
  st_loading : bool;
  st_error : jsstring
}.

(** What [fetch] gives: a rejection with the message of its error, or a
    response with its status and the text of its body. *)
Inductive fetched : Type :=
| Rejected (message : jsstring)
| Responded (code : nat) (text : jsstring).

(** [res.ok] *)
Definition ok (code : nat) : bool := Nat.leb 200 code && Nat.leb code 299.

(** [a ?? b] on a string or [null] *)
Definition nullish (a : option jsstring) (b : jsstring) : jsstring :=
  match a with Some s => s | None => b end.

(** [`Request failed with status ${res.status}.`] *)
Definition request_failed (code : nat) : jsstring :=
  lit "Request failed with status " ++
  lit (NilEmpty.string_of_uint (Nat.to_uint code)) ++ lit ".".

(** The body of the [try] of [handleUpload] once the response is there:
    the message of the error it throws, or the payload it passes to
    [setResult]. *)
Definition settle (code : nat) (payload : value) : jsstring + value :=
  if negb (ok code) then
    let apiMessage := getApiErrorMessage payload in
    if Nat.eqb code 402
    then inl (nullish apiMessage
                (lit "Payment required (402): backend billing or credits issue."))
    else inl (nullish apiMessage (request_failed code))
  else if negb (isAnalyzeResponse payload)
  then inl (lit "API returned unexpected response format.")
  else inr payload.

(** [try { payload = await res.json() } catch { payload = null }] *)
Definition payload_of (text : jsstring) : value :=
  match JSON.parse text with
  | Ok v => v
  | Throw _ => Null
  end.

(** Every value thrown in the [try] is an [Error], whose message the
    [catch] shows; [finally] clears [loading]. *)
Definition finish (outcome : jsstring + value) (s : component) : component :=
  match outcome with
  | inr payload => mkComponent (st_image s) (Some payload) false []
  | inl message => mkComponent (st_image s) (st_result s) false message
  end.

Definition handleUpload (net : fetched) (s : component) : component :=
  match st_image s with
  | None => s
  | Some _ =>
      finish
        match net with
        | Rejected message => inl message
        | Responded code text => settle code (payload_of text)
        end
        s
  end.

(** ** From the service to the client

    [res.json(body)] sends [JSON.stringify(body)] and [res.json()] parses it
    back.  Printing and reading a value changes it in three ways: a Number
    that is not finite is printed as [null], the zero loses its sign, and a
    property whose value is [undefined] is left out ([undefined] in an
    array is printed as [null]); strings and finite Numbers read back as
    they were. *)
Fixpoint through_json (v : value) : value :=
  match v with
  | Undefined => Null
  | Num x =>
      match x with
      | S754_zero _ => Num Number.zero
      | S754_finite _ _ _ => v
      | _ => Null
      end
  | Arr l => Arr (map through_json l)
  | Obj ps =>
      Obj ((fix members (l : properties) : properties :=
              match l with
              | [] => []
              | (k, Undefined) :: t => members t
              | (k, x) :: t => (k, through_json x) :: members t
              end) ps)
  | _ => v
  end.

(** The client's state after a round trip that the service answers with
    [r]. *)
Definition deliver (r : response) (s : component) : component :=
  match st_image s with
  | None => s
  | Some _ => finish (settle (status r) (through_json (body r))) s
  end.

(** * Specification-side notions *)

(** [erased w s s']: [s'] is [s] with some occurrences of [w] taken out and
    every other character left in place. *)
Inductive erased (w : jsstring) : jsstring -> jsstring -> Prop :=
| erased_nil : erased w [] []
| erased_keep (c : code_unit) (s s' : jsstring) :
    erased w s s' -> erased w (c :: s) (c :: s')
| erased_drop (s s' : jsstring) :
    erased w s s' -> erased w (w ++ s) s'.

Definition occurs (w s : jsstring) : Prop :=
  exists pre post, s = pre ++ w ++ post.

(** All characters of [s] are white space. *)
Definition blank (s : jsstring) : Prop :=
  Forall (fun c => is_white_space c = true) s.

(** [s] neither starts nor ends with white space. *)
Definition tight (s : jsstring) : Prop :=
  (forall c t, s = c :: t -> is_white_space c = false) /\
  (forall c t, s = t ++ [c] -> is_white_space c = false).

(** [r] is the part of [s] from its first opening brace through its last
    closing brace. *)
Definition brace_span (s r : jsstring) : Prop :=
  exists pre mid post,
    s = pre ++ r ++ post /\
    r = Chr.LBRACE :: mid ++ [Chr.RBRACE] /\
    ~ In Chr.LBRACE pre /\ ~ In Chr.RBRACE post.

(** [s] has an opening brace with a closing brace somewhere after it. *)
Definition has_braces (s : jsstring) : Prop :=
  exists pre mid post, s = pre ++ Chr.LBRACE :: mid ++ Chr.RBRACE :: post.

Fixpoint has_bracesb (s : jsstring) : bool :=
  match s with
  | [] => false
  | c :: t =>
      (N.eqb c Chr.LBRACE && existsb (N.eqb Chr.RBRACE) t) || has_bracesb t
  end.

(** The rational a finite Number stands for. *)
Definition to_Q (x : Number.number) : Q :=
  match x with
  | S754_finite s m e =>
      if (0 <=? e)%Z then inject_Z (cond_Zopp s (Zpos m) * 2 ^ e)
      else Qmake (cond_Zopp s (Zpos m)) (2 ^ Z.to_pos (- e))
  | _ => 0%Q
  end.

(** Rounding to the nearest integer, a tie going to the larger integer. *)
Definition round_half_up (q : Q) : Z := Qfloor (q + (1 # 2)).

(** Rounding to the nearest integer, a tie going away from zero: the
    rounding the specification names. *)
Definition round_half_away (q : Q) : Z :=
  if Qle_bool 0 q then Qfloor (q + (1 # 2)) else Qceiling (q - (1 # 2)).

(** The Number for the integer [n]; a zero takes the sign [s]. *)
Definition integer_number (s : bool) (n : Z) : Number.number :=
  if (n =? 0)%Z then S754_zero s else Number.of_Z n.

(** A Number whose mantissa fits the 53 bits of the format. *)
Definition binary64 (x : Number.number) : bool :=
  match x with
  | S754_finite _ m _ => (Zpos (digits2_pos m) <=? 53)%Z
  | _ => true
  end.

(** A value all of whose Numbers are such. *)
Fixpoint numbers_binary64 (v : value) : bool :=
  match v with
  | Num x => binary64 x
  | Arr l => forallb numbers_binary64 l
  | Obj ps => forallb (fun kv => numbers_binary64 (snd kv)) ps
  | _ => true
  end.

(** The calorie contribution of an item as the specification words it: a
    number counts as itself, a numeric string as the number it denotes, and
    anything else (a missing field, [null], a value that is not numeric)
    as 0. *)
Definition contribution (f : value) : Number.number :=
  match f with
  | Obj ps =>
      match lookup key_calories ps with
      | Some (Num x) => if Number.is_nan x then Number.zero else x
      | Some (Str s) =>
          let n := StringToNumber s in
          if Number.is_nan n then Number.zero else n
      | _ => Number.zero
      end
  | _ => Number.zero
  end.

(** The total the specification asks for: the rounded sum of the
    contributions. *)
Definition expected_total (foods : list value) : Number.number :=
  Number.round (fold_left Number.add (map contribution foods) Number.zero).

(** Items whose [calories] field is missing, [null], a number or a numeric
    string. *)
Definition well_formed_item (f : value) : Prop :=
  exists ps, f = Obj ps /\
    match lookup key_calories ps with
    | None | Some Null => True
    | Some (Num x) => Number.is_nan x = false
    | Some (Str s) => Number.is_nan (StringToNumber s) = false
    | Some _ => False
    end.

(** Whether a closing brace or bracket follows, white space apart. *)
Definition before_closer (t : jsstring) : bool :=
  match trimStart t with
  | c :: _ => is_closer c
  | [] => false
  end.

(** The repair as the specification words it: every comma that stands
    before a closing brace or bracket, white space apart, is removed, and
    nothing else. *)
Fixpoint without_trailing_commas (s : jsstring) : jsstring :=
  match s with
  | [] => []
  | c :: t =>
      if N.eqb c Chr.COMMA && before_closer t
      then without_trailing_commas t
      else c :: without_trailing_commas t
  end.

(** The same, the white space between such a comma and the closing
    character going with the comma. *)
Fixpoint without_trailing_commas_ws (s : jsstring) : jsstring :=
  match s with
  | [] => []
  | c :: t =>
      if N.eqb c Chr.COMMA && before_closer t
      then trimStart (without_trailing_commas_ws t)
      else c :: without_trailing_commas_ws t
  end.

(** Whether some comma of [s] stands before a closing brace or bracket,
    white space apart. *)
Fixpoint has_trailing_comma (s : jsstring) : bool :=
  match s with
  | [] => false
  | c :: t => (N.eqb c Chr.COMMA && before_closer t) || has_trailing_comma t
  end.

(** The characters of [s] that are neither commas nor white space. *)
Definition solid (s : jsstring) : jsstring :=
  filter (fun c => negb (N.eqb c Chr.COMMA || is_white_space c)) s.

(** A Number other than [NaN] and the infinities. *)
Definition is_finite (x : Number.number) : bool :=
  match x with
  | S754_zero _ | S754_finite _ _ _ => true
  | _ => false
  end.

(** The calories of an item are a value that cannot be converted to a
    primitive. *)
Definition unprintable_calories (f : value) : Prop :=
  exists c, get f key_calories = Ok c /\ unprintable c = true.

(** An item on which the callback of the reduction throws. *)
Definition breaks (f : value) : Prop :=
  f = Null \/ f = Undefined \/ unprintable_calories f.

(** A payload of the shape [AnalyzeResponse] asks for, the items apart. *)
Definition analysis_shaped (payload : value) : Prop :=
  exists ps x items,
    payload = Obj ps /\
    lookup key_total_calories ps = Some (Num x) /\
    lookup key_foods ps = Some (Arr items).







(** A value that is neither an array nor an object. *)
Definition scalar (v : value) : bool :=
  match v with
  | Arr _ | Obj _ => false
  | _ => true
  end.

(** An item as the prompt's schema has it: an object whose fields are
    scalars. *)
Definition flat_item (f : value) : Prop :=
  exists ps, f = Obj ps /\ forallb (fun kv => scalar (snd kv)) ps = true.

Import Digits JSON.

(** * Properties *)

(** ** Strings *)

Lemma jsstring_length_ind (P : jsstring -> Prop) :
  (forall s, (forall t, length t < length s -> P t) -> P s) ->
  forall s, P s.
Proof.
  intros step s.
  remember (length s) as n eqn:Hn.
  revert s Hn.
  induction n as [n IH] using lt_wf_ind.
  intros s Hn. apply step. intros t Ht.
  apply (IH (length t)); [lia | reflexivity].
Qed.

Lemma after_app (w s r : jsstring) : after w s = Some r <-> s = w ++ r.
Proof.
  revert s. induction w as [|c w IH]; intros s; simpl.
  - split; intros H; [now inversion H | now subst].
  - destruct s as [|x t].
    + split; intros H; discriminate.
    + destruct (N.eqb_spec x c) as [->|Hne].
      * rewrite IH. split; intros H; [now subst | now inversion H].
      * split; intros H; [discriminate | inversion H; congruence].
Qed.

Lemma after_self (w r : jsstring) : after w (w ++ r) = Some r.
Proof. now apply after_app. Qed.

Lemma after_length (w s r : jsstring) :
  after w s = Some r -> length s = length w + length r.
Proof.
  intros H. apply after_app in H. subst. now rewrite length_app.
Qed.

Lemma occursb_spec (w s : jsstring) : occursb w s = true <-> occurs w s.
Proof.
  induction s as [|x t IH]; simpl.
  - destruct (after w []) as [r|] eqn:E.
    + split; [|reflexivity]. intros _.
      apply after_app in E. exists [], r. exact E.
    + split; [discriminate|].
      intros (pre & post & H).
      destruct pre; simpl in H.
      * apply after_app in H. congruence.
      * discriminate.
  - destruct (after w (x :: t)) as [r|] eqn:E.
    + split; [|reflexivity]. intros _.
      apply after_app in E. exists [], r. exact E.
    + rewrite IH. split.
      * intros (pre & post & H). exists (x :: pre), post. now subst.
      * intros (pre & post & H).
        destruct pre as [|y pre]; simpl in H.
        -- apply after_app in H. congruence.
        -- inversion H; subst. now exists pre, post.
Qed.

Lemma occursb_prefix (w w' s : jsstring) :
  occursb w s = false -> occursb (w ++ w') s = false.
Proof.
  intros H.
  destruct (occursb (w ++ w') s) eqn:E; [|reflexivity].
  apply occursb_spec in E. destruct E as (pre & post & E).
  assert (occursb w s = true) as H'.
  { apply occursb_spec. exists pre, (w' ++ post). rewrite E.
    now rewrite <- app_assoc. }
  congruence.
Qed.

Lemma occurs_inside (w l s r : jsstring) :
  occurs w s -> occurs w (l ++ s ++ r).
Proof.
  intros (pre & post & ->).
  exists (l ++ pre), (post ++ r).
  now rewrite <- !app_assoc.
Qed.

Lemma trimStart_split (s : jsstring) :
  exists l, s = l ++ trimStart s /\ blank l.
Proof.
  induction s as [|c t (l & Hl & Hb)]; simpl.
  - exists []. split; [reflexivity | constructor].
  - destruct (is_white_space c) eqn:E.
    + exists (c :: l). split; [simpl; now f_equal | now constructor].
    + exists []. split; [reflexivity | constructor].
Qed.

Lemma trimStart_head (s : jsstring) (c : code_unit) (t : jsstring) :
  trimStart s = c :: t -> is_white_space c = false.
Proof.
  induction s as [|x u IH]; simpl; [discriminate|].
  destruct (is_white_space x) eqn:E; [exact IH|].
  intros H. now inversion H; subst.
Qed.

Lemma trimStart_id (c : code_unit) (t : jsstring) :
  is_white_space c = false -> trimStart (c :: t) = c :: t.
Proof. intros H. simpl. now rewrite H. Qed.

Lemma trimStart_blank (l s : jsstring) :
  blank l -> trimStart (l ++ s) = trimStart s.
Proof.
  induction 1 as [|c l Hc _ IH]; simpl; [reflexivity|].
  now rewrite Hc.
Qed.

Lemma blank_rev (l : jsstring) : blank l -> blank (rev l).
Proof. unfold blank. intros H. now apply Forall_rev. Qed.

Lemma trim_split (s : jsstring) :
  exists l r, s = l ++ trim s ++ r /\ blank l /\ blank r.
Proof.
  destruct (trimStart_split s) as (l & Hl & Hbl).
  destruct (trimStart_split (rev (trimStart s))) as (r & Hr & Hbr).
  exists l, (rev r). split; [|split; [assumption | now apply blank_rev]].
  unfold trim, trimEnd.
  rewrite <- rev_app_distr, <- Hr, rev_involutive. exact Hl.
Qed.

Lemma trim_tight (s : jsstring) : tight (trim s).
Proof.
  unfold trim, trimEnd. split.
  - intros c t H.
    destruct (trimStart_split (rev (trimStart s))) as (l & Hl & _).
    apply (f_equal (@rev _)) in Hl. rewrite rev_involutive, rev_app_distr, H in Hl.
    simpl in Hl. now apply trimStart_head in Hl.
  - intros c t H.
    apply (f_equal (@rev _)) in H.
    rewrite rev_involutive, rev_app_distr in H. simpl in H.
    now apply trimStart_head in H.
Qed.

Lemma trim_id (s : jsstring) : tight s -> trim s = s.
Proof.
  intros [Hh Hl]. unfold trim, trimEnd.
  assert (trimStart s = s) as ->.
  { destruct s as [|c t]; [reflexivity|]. apply trimStart_id. now apply (Hh c t). }
  destruct (rev s) as [|c t] eqn:E.
  - apply (f_equal (@rev _)) in E. rewrite rev_involutive in E. now subst.
  - rewrite trimStart_id.
    + rewrite <- E. apply rev_involutive.
    + apply (Hl c (rev t)).
      apply (f_equal (@rev _)) in E. now rewrite rev_involutive in E.
Qed.

(** ** Regular expressions *)

Lemma take_takes (x : code_unit) (w : jsstring) (st : state) :
  takes w (take x st) = takes (x :: w) st.
Proof. unfold takes, take. simpl. now rewrite <- app_assoc. Qed.

Lemma takes_nil (st : state) : takes [] st = st.
Proof. destruct st. unfold takes. simpl. now rewrite app_nil_r. Qed.

Lemma exec_literally (w : jsstring) (re : regex) (st : state) (s : jsstring) :
  exec (literally w ++ re) st s =
  match after w s with
  | Some r => exec re (takes w st) r
  | None => None
  end.
Proof.
  revert st s. induction w as [|c w IH]; intros st s; simpl.
  - now rewrite takes_nil.
  - destruct s as [|x t]; [reflexivity|].
    destruct (N.eqb_spec x c) as [->|_]; [|reflexivity].
    rewrite IH. destruct (after w t); [|reflexivity].
    now rewrite take_takes.
Qed.

Lemma replace_from_skip (re : regex) (tmpl : list piece) (k : nat) (s : jsstring) :
  k <= length s ->
  replace_from re tmpl k s = replace re tmpl (skipn k s).
Proof.
  revert s. induction k as [|k IH]; intros s Hk.
  - reflexivity.
  - destruct s as [|x t]; simpl in *; [lia|]. apply IH. lia.
Qed.

(** One step of deleting a literal: at an occurrence the scan jumps over
    it, elsewhere it keeps the character. *)
Lemma replace_literal_step (c : code_unit) (w s : jsstring) :
  replace (literally (c :: w)) [] s =
  match after (c :: w) s with
  | Some r => replace (literally (c :: w)) [] r
  | None =>
      match s with
      | [] => []
      | x :: t => x :: replace (literally (c :: w)) [] t
      end
  end.
Proof.
  unfold replace at 1.
  destruct s as [|x t].
  - reflexivity.
  - cbn [replace_from].
    rewrite <- (app_nil_r (literally (c :: w))) at 1.
    rewrite exec_literally.
    destruct (after (c :: w) (x :: t)) as [r|] eqn:E; [|reflexivity].
    cbn [exec expand flat_map app takes taken init length].
    apply after_app in E. inversion E; subst.
    rewrite replace_from_skip by (rewrite length_app; lia).
    now rewrite skipn_app, skipn_all, Nat.sub_diag.
Qed.

Lemma erased_replace (c : code_unit) (w s : jsstring) :
  erased (c :: w) s (replace (literally (c :: w)) [] s).
Proof.
  induction s as [s IH] using jsstring_length_ind.
  rewrite replace_literal_step.
  destruct (after (c :: w) s) as [r|] eqn:E.
  - pose proof (after_length _ _ _ E) as Hlen.
    apply after_app in E. subst s.
    apply erased_drop. apply IH. simpl in *. lia.
  - destruct s as [|x t]; [constructor|].
    constructor. apply IH. simpl. lia.
Qed.

Lemma replace_absent (c : code_unit) (w s : jsstring) :
  occursb (c :: w) s = false -> replace (literally (c :: w)) [] s = s.
Proof.
  induction s as [|x t IH]; intros H; rewrite replace_literal_step;
    cbn [occursb] in H; destruct (after (c :: w) _); try discriminate.
  - reflexivity.
  - now rewrite IH.
Qed.

(** After the bare fence has been deleted no fence is left: what remains of
    a run of backticks is shorter than a fence. *)
Lemma triple_not_rebuilt (b x : code_unit) (t : jsstring) :
  after [b; b; b] (x :: t) = None ->
  after [b; b; b] (x :: replace (literally [b; b; b]) [] t) = None.
Proof.
  intros H.
  destruct (N.eqb_spec x b) as [->|Hx]; [|simpl; now destruct (N.eqb_spec x b)].
  rewrite replace_literal_step.
  destruct t as [|y t]; [simpl; now rewrite N.eqb_refl|].
  destruct (N.eqb_spec y b) as [->|Hy].
  2:{ simpl. rewrite N.eqb_refl. destruct (N.eqb_spec y b); [contradiction|].
      now destruct (N.eqb_spec y b). }
  destruct t as [|z t].
  { simpl. now rewrite !N.eqb_refl. }
  destruct (N.eqb_spec z b) as [->|Hz].
  { simpl in H. now rewrite !N.eqb_refl in H. }
  assert (after [b; b; b] (b :: z :: t) = None) as ->.
  { simpl. rewrite N.eqb_refl. now destruct (N.eqb_spec z b). }
  rewrite replace_literal_step.
  assert (after [b; b; b] (z :: t) = None) as ->.
  { simpl. now destruct (N.eqb_spec z b). }
  simpl. rewrite !N.eqb_refl. now destruct (N.eqb_spec z b).
Qed.

Lemma triple_gone (b : code_unit) (s : jsstring) :
  occursb [b; b; b] (replace (literally [b; b; b]) [] s) = false.
Proof.
  induction s as [s IH] using jsstring_length_ind.
  rewrite replace_literal_step.
  destruct (after _ s) as [r|] eqn:E.
  - apply IH. apply after_length in E. simpl in E. lia.
  - destruct s as [|x t]; [reflexivity|].
    cbn [occursb].
    rewrite (triple_not_rebuilt b x t E).
    apply IH. simpl. lia.
Qed.

Lemma fence_gone (s : jsstring) :
  occursb (lit "```") (replace FENCE [] s) = false.
Proof. exact (triple_gone (N_of_ascii "`") s). Qed.

(** ** The brace pattern *)

Lemma any_char_true (c : code_unit) : any_char c = true.
Proof. unfold any_char. now destruct (is_white_space c). Qed.

Lemma star_any_none (c : code_unit) (s : jsstring) (st : state) :
  star any_char (exec [Char c]) st s = None -> ~ In c s.
Proof.
  revert st. induction s as [|x t IH]; intros st H; simpl in *.
  - tauto.
  - rewrite any_char_true in H.
    destruct (star any_char _ (take x st) t) eqn:E; [discriminate|].
    destruct (N.eqb_spec x c) as [->|Hx]; [discriminate|].
    intros [Hc|Hc]; [congruence|]. now apply (IH _ E).
Qed.

Lemma star_any_some (c : code_unit) (s : jsstring) (st m : state) :
  star any_char (exec [Char c]) st s = Some m ->
  exists mid post,
    s = mid ++ c :: post /\ ~ In c post /\ taken m = taken st ++ mid ++ [c].
Proof.
  revert st. induction s as [|x t IH]; intros st H; simpl in *.
  - discriminate.
  - rewrite any_char_true in H.
    destruct (star any_char _ (take x st) t) as [m'|] eqn:E.
    + inversion H; subst m'.
      destruct (IH _ E) as (mid & post & Ht & Hpost & Htaken).
      exists (x :: mid), post. repeat split; [now subst | assumption |].
      rewrite Htaken. simpl. now rewrite <- app_assoc.
    + apply star_any_none in E.
      destruct (N.eqb_spec x c) as [->|Hx]; [|discriminate].
      inversion H; subst m.
      exists [], t. repeat split; assumption.
Qed.

Lemma exec_braces_some (s : jsstring) (m : state) :
  exec BRACES init s = Some m ->
  exists mid post,
    s = Chr.LBRACE :: mid ++ Chr.RBRACE :: post /\ ~ In Chr.RBRACE post /\
    taken m = Chr.LBRACE :: mid ++ [Chr.RBRACE].
Proof.
  unfold BRACES. cbn [exec].
  destruct s as [|x t]; [discriminate|].
  destruct (N.eqb_spec x Chr.LBRACE) as [->|]; [|discriminate].
  intros H. apply star_any_some in H.
  destruct H as (mid & post & -> & Hpost & Htaken).
  exists mid, post. repeat split; assumption.
Qed.

Lemma exec_braces_none (s : jsstring) :
  exec BRACES init s = None ->
  forall mid post, s <> Chr.LBRACE :: mid ++ Chr.RBRACE :: post.
Proof.
  unfold BRACES. cbn [exec].
  intros H mid post ->.
  rewrite N.eqb_refl in H. apply star_any_none in H.
  apply H. apply in_or_app. right. now left.
Qed.

Lemma search_braces_some (s : jsstring) (m : state) :
  search BRACES s = Some m -> brace_span s (taken m).
Proof.
  induction s as [|x t IH]; cbn [search].
  - destruct (exec BRACES init []) eqn:E; [|discriminate].
    apply exec_braces_some in E. destruct E as (? & ? & ? & _). discriminate.
  - destruct (exec BRACES init (x :: t)) as [m'|] eqn:E.
    + intros H. inversion H; subst m'.
      apply exec_braces_some in E.
      destruct E as (mid & post & Hs & Hpost & Htaken).
      exists [], mid, post. rewrite Htaken, Hs. simpl.
      repeat split; try assumption; [|tauto].
      now rewrite <- app_assoc.
    + intros H. destruct (IH H) as (pre & mid & post & Ht & Hr & Hpre & Hpost).
      exists (x :: pre), mid, post. simpl.
      repeat split; try assumption; [now rewrite Ht|].
      intros [Hx|Hin]; [|contradiction].
      subst x. rewrite Hr in Ht.
      pose proof (exec_braces_none _ E) as Hnone.
      (* the brace at the head is followed by the closing brace of [t] *)
      apply (Hnone (pre ++ Chr.LBRACE :: mid) post).
      rewrite Ht. simpl. rewrite <- !app_assoc. simpl. reflexivity.
Qed.

Lemma search_braces_none (s : jsstring) :
  search BRACES s = None -> ~ has_braces s.
Proof.
  induction s as [|x t IH]; cbn [search].
  - intros _ (pre & mid & post & H). destruct pre; discriminate.
  - destruct (exec BRACES init (x :: t)) eqn:E; [discriminate|].
    intros H (pre & mid & post & Hs).
    destruct pre as [|y pre]; simpl in Hs.
    + now apply (exec_braces_none _ E mid post).
    + inversion Hs; subst. apply (IH H). now exists pre, mid, post.
Qed.

Lemma has_bracesb_spec (s : jsstring) :
  has_bracesb s = false -> ~ has_braces s.
Proof.
  induction s as [|x t IH]; simpl; intros H (pre & mid & post & Hs).
  - destruct pre; discriminate.
  - apply orb_false_iff in H. destruct H as [Hx Ht].
    destruct pre as [|y pre]; simpl in Hs.
    + inversion Hs; subst. rewrite N.eqb_refl in Hx. simpl in Hx.
      assert (existsb (N.eqb Chr.RBRACE) (mid ++ Chr.RBRACE :: post) = true).
      { apply existsb_exists. exists Chr.RBRACE. split.
        - apply in_or_app. right. now left.
        - apply N.eqb_refl. }
      congruence.
    + inversion Hs; subst. apply (IH Ht). now exists pre, mid, post.
Qed.

(** ** The extractor *)

Lemma last_char_unique (a b : jsstring) (c : code_unit) (post : jsstring) :
  a ++ [c] = b ++ c :: post -> ~ In c post -> post = [].
Proof.
  intros H Hpost.
  destruct post as [|x post] using rev_ind; [reflexivity|].
  exfalso. apply Hpost.
  change (b ++ c :: post ++ [x]) with (b ++ (c :: post) ++ [x]) in H.
  rewrite app_assoc in H. apply app_inj_tail in H. destruct H as [_ ->].
  apply in_or_app. right. now left.
Qed.

Lemma extractJSON_cases (text : jsstring) :
  (extractJSON text = Throw (Error "No JSON found") /\ ~ has_braces (cleaned text)) \/
  (exists r, extractJSON text = Ok r /\ brace_span (cleaned text) r).
Proof.
  unfold extractJSON.
  destruct (search BRACES (cleaned text)) as [m|] eqn:E.
  - right. exists (taken m). split; [reflexivity|]. now apply search_braces_some.
  - left. split; [reflexivity|]. now apply search_braces_none.
Qed.

Lemma braced_tight (mid : jsstring) : tight (Chr.LBRACE :: mid ++ [Chr.RBRACE]).
Proof.
  split.
  - intros c t H. now inversion H.
  - intros c t H.
    change (Chr.LBRACE :: mid ++ [Chr.RBRACE])
      with ((Chr.LBRACE :: mid) ++ [Chr.RBRACE]) in H.
    apply app_inj_tail in H. now destruct H as [_ <-].
Qed.

Lemma unfenced_id (text : jsstring) :
  occursb (lit "```") text = false -> unfenced text = text.
Proof.
  intros H. unfold unfenced, FENCE, FENCE_JSON.
  change (lit "```json") with (lit "```" ++ lit "json").
  cbn [lit app] in *.
  rewrite (replace_absent _ _ text).
  - now apply replace_absent.
  - exact (occursb_prefix _ (lit "json") _ H).
Qed.

Lemma search_braces_whole (mid : jsstring) :
  search BRACES (Chr.LBRACE :: mid ++ [Chr.RBRACE]) =
  Some (mkState (Chr.LBRACE :: mid ++ [Chr.RBRACE]) 0 []).
Proof.
  cbn [search].
  destruct (exec BRACES init (Chr.LBRACE :: mid ++ [Chr.RBRACE])) as [m|] eqn:E.
  - pose proof E as E'.
    apply exec_braces_some in E'.
    destruct E' as (mid' & post & Hs & Hpost & Htaken).
    assert (post = []) as ->.
    { apply (last_char_unique (Chr.LBRACE :: mid) (Chr.LBRACE :: mid')
               Chr.RBRACE post); assumption. }
    rewrite <- Hs in Htaken.
    unfold BRACES in E. cbn [exec] in E. rewrite N.eqb_refl in E.
    f_equal. destruct m as [tk gs gr]. simpl in Htaken. subst tk.
    assert (forall s st m, star any_char (exec [Char Chr.RBRACE]) st s = Some m ->
              group_start m = group_start st /\ groups m = groups st) as Hinv.
    { clear. induction s as [|x t IH]; intros st m H; simpl in H.
      - discriminate.
      - rewrite any_char_true in H.
        destruct (star any_char _ (take x st) t) as [m'|] eqn:E.
        + inversion H; subst m'. now apply IH in E.
        + destruct (N.eqb x Chr.RBRACE); [|discriminate].
          inversion H; subst m. now split. }
    apply Hinv in E. simpl in E. destruct E as [-> ->]. reflexivity.
  - exfalso. exact (exec_braces_none _ E mid [] eq_refl).
Qed.

(** ** The repair pattern *)

Lemma closer_not_white (c : code_unit) :
  is_closer c = true -> is_white_space c = false.
Proof.
  unfold is_closer. intros H. apply orb_true_iff in H.
  destruct H as [H|H]; apply N.eqb_eq in H; subst; reflexivity.
Qed.

Lemma closer_not_comma (c : code_unit) :
  is_closer c = true -> N.eqb c Chr.COMMA = false.
Proof.
  unfold is_closer. intros H. apply orb_true_iff in H.
  destruct H as [H|H]; apply N.eqb_eq in H; subst; reflexivity.
Qed.

Lemma white_not_comma (c : code_unit) :
  is_white_space c = true -> N.eqb c Chr.COMMA = false.
Proof.
  intros H. destruct (N.eqb_spec c Chr.COMMA) as [->|]; [|reflexivity].
  discriminate.
Qed.

Lemma star_white_closer (t : jsstring) (st : state) :
  match star is_white_space (exec [Open; Class is_closer; Close]) st t with
  | Some m =>
      exists ws c r,
        t = ws ++ c :: r /\ blank ws /\ is_closer c = true /\
        taken m = taken st ++ ws ++ [c] /\ groups m = groups st ++ [[c]]
  | None => before_closer t = false
  end.
Proof.
  revert st. induction t as [|x t IH]; intros st.
  - reflexivity.
  - cbn [star]. destruct (is_white_space x) eqn:Hx.
    + specialize (IH (take x st)).
      destruct (star is_white_space _ (take x st) t) as [m|].
      * destruct IH as (ws & c & r & -> & Hws & Hc & Htaken & Hgroups).
        exists (x :: ws), c, r. repeat split; try assumption.
        -- now constructor.
        -- rewrite Htaken. simpl. now rewrite <- app_assoc.
      * cbn [exec].
        destruct (is_closer x) eqn:Hc.
        { apply closer_not_white in Hc. congruence. }
        unfold before_closer in *. simpl. now rewrite Hx.
    + cbn [exec]. destruct (is_closer x) eqn:Hc.
      * exists [], x, t. repeat split; try assumption; [constructor|].
        simpl. f_equal. f_equal.
        now rewrite skipn_app, skipn_all, Nat.sub_diag.
      * unfold before_closer. simpl. now rewrite Hx.
Qed.

Lemma before_closer_split (ws : jsstring) (c : code_unit) (r : jsstring) :
  blank ws -> is_closer c = true ->
  trimStart (ws ++ c :: r) = c :: r /\ before_closer (ws ++ c :: r) = true.
Proof.
  intros Hws Hc. unfold before_closer.
  rewrite (trimStart_blank _ _ Hws), trimStart_id by now apply closer_not_white.
  now split.
Qed.

(** One step of the repair: at a comma that stands before a closing
    character the scan resumes after that character, which it keeps. *)
Lemma repair_step (s : jsstring) :
  replace TRAILING_COMMA [Ref 1] s =
  match s with
  | [] => []
  | x :: t =>
      if N.eqb x Chr.COMMA && before_closer t then
        match trimStart t with
        | c :: r => c :: replace TRAILING_COMMA [Ref 1] r
        | [] => []
        end
      else x :: replace TRAILING_COMMA [Ref 1] t
  end.
Proof.
  unfold replace at 1. destruct s as [|x t]; [reflexivity|].
  cbn [replace_from]. unfold TRAILING_COMMA at 1. cbn [exec].
  destruct (N.eqb_spec x Chr.COMMA) as [->|Hx]; [|reflexivity].
  pose proof (star_white_closer t (take Chr.COMMA init)) as H.
  destruct (star is_white_space _ (take Chr.COMMA init) t) as [m|].
  - destruct H as (ws & c & r & -> & Hws & Hc & Htaken & Hgroups).
    destruct (before_closer_split _ _ r Hws Hc) as [-> ->].
    cbn [andb]. unfold expand, expand_piece. cbn [flat_map].
    rewrite Hgroups, Htaken. cbn [init groups taken take app nth pred].
    cbn [length]. f_equal.
    rewrite replace_from_skip by (rewrite !length_app; simpl; lia).
    f_equal.
    change (c :: r) with ([c] ++ r).
    rewrite app_assoc.
    rewrite skipn_app, skipn_all, Nat.sub_diag.
    reflexivity.
  - now rewrite H.
Qed.

Lemma without_ws_blank (ws u : jsstring) :
  blank ws ->
  without_trailing_commas_ws (ws ++ u) = ws ++ without_trailing_commas_ws u.
Proof.
  induction 1 as [|x ws Hx _ IH]; [reflexivity|].
  simpl. now rewrite (white_not_comma _ Hx), IH.
Qed.

Lemma trimStart_closer (t : jsstring) (c : code_unit) (r : jsstring) :
  trimStart t = c :: r -> exists ws, t = ws ++ c :: r /\ blank ws.
Proof.
  intros H. destruct (trimStart_split t) as (ws & Ht & Hws).
  exists ws. now rewrite <- H.
Qed.

(** The source's replacement computes [without_trailing_commas_ws]. *)
Lemma repair_spec (s : jsstring) :
  replace TRAILING_COMMA [Ref 1] s = without_trailing_commas_ws s.
Proof.
  induction s as [s IH] using jsstring_length_ind.
  rewrite repair_step. destruct s as [|x t]; [reflexivity|].
  cbn [without_trailing_commas_ws].
  destruct (N.eqb x Chr.COMMA && before_closer t) eqn:E.
  - apply andb_true_iff in E. destruct E as [_ E].
    unfold before_closer in E.
    destruct (trimStart t) as [|c r] eqn:Ht; [discriminate|].
    destruct (trimStart_closer _ _ _ Ht) as (ws & -> & Hws).
    rewrite (without_ws_blank _ _ Hws). cbn [without_trailing_commas_ws].
    rewrite (closer_not_comma _ E). cbn [andb].
    rewrite (trimStart_blank _ _ Hws), trimStart_id by now apply closer_not_white.
    f_equal. apply IH. simpl. rewrite length_app. simpl. lia.
  - f_equal. apply IH. simpl. lia.
Qed.

(** A comma that stands right before a closing character is removed
    whatever precedes it; the characters before it, quotes included, have
    no say. *)
Lemma repair_keeps_prefix (pre s : jsstring) :
  ~ In Chr.COMMA pre ->
  without_trailing_commas_ws (pre ++ s) = pre ++ without_trailing_commas_ws s.
Proof.
  induction pre as [|x pre IH]; intros Hpre; [reflexivity|].
  cbn [app without_trailing_commas_ws].
  destruct (N.eqb_spec x Chr.COMMA) as [->|_].
  - exfalso. apply Hpre. now left.
  - cbn [andb]. f_equal. apply IH. intros H. apply Hpre. now right.
Qed.

Lemma repair_comma_closer (c : code_unit) (post : jsstring) :
  is_closer c = true ->
  without_trailing_commas_ws (Chr.COMMA :: c :: post) =
  c :: without_trailing_commas_ws post.
Proof.
  intros Hc. cbn [without_trailing_commas_ws].
  rewrite N.eqb_refl, (closer_not_comma c Hc).
  unfold before_closer. rewrite (trimStart_id c post (closer_not_white c Hc)), Hc.
  cbn [andb]. apply trimStart_id. now apply closer_not_white.
Qed.

(** ** The handler *)

(** The run of the handler once the image has been read, the model has
    answered with a text and the upload has been unlinked. *)
Lemma analyze_food_resolved (model : generate_request -> upstream)
      (req : request) (f : upload) (content raw : jsstring) (d : disk) :
  file req = Some f ->
  find_file (path f) d = Some content ->
  model (mkGenerate PROMPT content (sent_mimetype f)) = Resolves (Ok raw) ->
  analyze_food model req d =
    ( Ok match bind_result (extractJSON raw) safeJSONParse with
         | Throw _ => degraded
         | Ok parsed =>
             match aggregate parsed with
             | Ok r => r
             | Throw _ =>
                 status_json 500 [ (key_error, Str (lit "Failed to analyze image")) ]
             end
         end,
      remove_file (path f) d ).
Proof.
  intros Hf Hd Hm.
  unfold analyze_food, try_catch, bind, readFileSync, generateContent,
    unlinkSync, lift, ret.
  rewrite Hf, Hd, Hm. cbn. rewrite Hd.
  destruct (bind_result (extractJSON raw) safeJSONParse) as [parsed|e];
    [|reflexivity].
  now destruct (aggregate parsed).
Qed.

(** The handler always answers: the outer [catch] turns every exception
    into a response. *)
Lemma analyze_food_answers (model : generate_request -> upstream)
      (req : request) (d : disk) :
  exists r d', analyze_food model req d = (Ok r, d').
Proof.
  unfold analyze_food, try_catch.
  match goal with
  | |- context [match ?m d with _ => _ end] =>
      destruct (m d) as [[r|e] d']
  end; eexists; eexists; reflexivity.
Qed.

(** The total is recomputed from [foods]: no other property of the parsed
    object, the model's own total included, enters the response. *)
Lemma aggregate_foods_only (ps ps' : properties) :
  lookup key_foods ps = lookup key_foods ps' ->
  aggregate (Obj ps) = aggregate (Obj ps').
Proof.
  intros H. unfold aggregate, normalized_foods, get. now rewrite H.
Qed.

(** For every request: a rejected call leaves the directory untouched, a
    resolved one removes the upload. *)
Lemma upload_after_call (model : generate_request -> upstream)
      (req : request) (f : upload) (content : jsstring) (d : disk) :
  file req = Some f ->
  find_file (path f) d = Some content ->
  snd (analyze_food model req d) =
    match model (mkGenerate PROMPT content (sent_mimetype f)) with
    | Rejects => d
    | Resolves _ => remove_file (path f) d
    end.
Proof.
  intros Hf Hd.
  unfold analyze_food, try_catch, bind, readFileSync, generateContent,
    unlinkSync, lift, ret, throw.
  rewrite Hf, Hd.
  destruct (model _) as [|[raw|e]]; cbn; [reflexivity| |]; rewrite Hd; cbn.
  - destruct (bind_result (extractJSON raw) safeJSONParse) as [parsed|e];
      [|reflexivity].
    now destruct (aggregate parsed).
  - reflexivity.
Qed.

(** ** Rounding *)

Lemma pow2_pos (e : Z) :
  (e < 0)%Z -> Zpos (2 ^ Z.to_pos (- e)) = (2 ^ (- e))%Z.
Proof.
  intros He. rewrite Pos2Z.inj_pow, Z2Pos.id by lia. reflexivity.
Qed.

(** [Math.round] on a Number with a fractional part is the Number for the
    integer that half-up rounding gives. *)
Lemma round_fractional (s : bool) (m : positive) (e : Z) :
  (e < 0)%Z ->
  Number.round (S754_finite s m e) =
  integer_number s (round_half_up (to_Q (S754_finite s m e))).
Proof.
  intros He. unfold Number.round, integer_number, round_half_up, to_Q.
  destruct (Z.leb_spec 0 e) as [|_]; [lia|].
  unfold Qplus, Qfloor. cbn [Qnum Qden].
  rewrite Pos2Z.inj_mul, (pow2_pos e He).
  replace (2 ^ (1 - e))%Z with (2 ^ (- e) * 2)%Z.
  2:{ replace (1 - e)%Z with (Z.succ (- e)) by lia.
      rewrite Z.pow_succ_r by lia. lia. }
  replace (cond_Zopp s (Z.pos m) * 2 + 1 * 2 ^ (- e))%Z
    with (2 * cond_Zopp s (Z.pos m) + 2 ^ (- e))%Z by lia.
  reflexivity.
Qed.

(** A Number with a non-negative exponent is an integer; [Math.round]
    returns it. *)
Lemma round_integral (s : bool) (m : positive) (e : Z) :
  (0 <= e)%Z ->
  Number.round (S754_finite s m e) = S754_finite s m e /\
  (inject_Z (round_half_up (to_Q (S754_finite s m e))) == to_Q (S754_finite s m e))%Q.
Proof.
  intros He. unfold Number.round, round_half_up, to_Q.
  destruct (Z.leb_spec 0 e) as [_|]; [|lia].
  split; [reflexivity|].
  set (k := (cond_Zopp s (Z.pos m) * 2 ^ e)%Z).
  unfold Qplus, Qfloor, inject_Z. cbn [Qnum Qden].
  replace (k * 2 + 1 * 1)%Z with (1 + k * 2)%Z by lia.
  rewrite Z.div_add by lia.
  reflexivity.
Qed.

(** Half-up rounding picks the integer [n] with [n - 1/2 <= q < n + 1/2]. *)
Lemma round_half_up_spec (q : Q) :
  (inject_Z (round_half_up q) - (1 # 2) <= q)%Q /\
  (q < inject_Z (round_half_up q) + (1 # 2))%Q.
Proof.
  unfold round_half_up.
  pose proof (Qfloor_le (q + (1 # 2))) as Hle.
  pose proof (Qlt_floor (q + (1 # 2))) as Hlt.
  rewrite inject_Z_plus in Hlt.
  split.
  - apply (Qplus_le_l _ _ (1 # 2)).
    setoid_replace (inject_Z (Qfloor (q + (1 # 2))) - (1 # 2) + (1 # 2))%Q
      with (inject_Z (Qfloor (q + (1 # 2)))) by ring.
    exact Hle.
  - apply (Qplus_lt_l _ _ (1 # 2)).
    setoid_replace (inject_Z (Qfloor (q + (1 # 2))) + (1 # 2) + (1 # 2))%Q
      with (inject_Z (Qfloor (q + (1 # 2))) + inject_Z 1)%Q by ring.
    exact Hlt.
Qed.

(** ** Integers as Numbers *)

Lemma digits_iter_xO (k p : positive) :
  digits2_pos (Pos.iter xO p k) = (digits2_pos p + k)%positive.
Proof.
  induction k as [|k IH] using Pos.peano_ind.
  - simpl. lia.
  - rewrite Pos.iter_succ. simpl. rewrite IH. lia.
Qed.

Lemma value_iter_xO (k p : positive) :
  Zpos (Pos.iter xO p k) = (Zpos p * 2 ^ Zpos k)%Z.
Proof.
  induction k as [|k IH] using Pos.peano_ind.
  - simpl. lia.
  - rewrite Pos.iter_succ, Pos2Z.inj_xO, IH, Pos2Z.inj_succ, Z.pow_succ_r by lia.
    lia.
Qed.

(** A positive integer below [2 ^ 53] becomes the Number with the same
    value: its digits are shifted to the top of the mantissa. *)
Lemma of_Z_pos (sign : bool) (p : positive) :
  (Zpos (digits2_pos p) <= 53)%Z ->
  binary_round Number.prec Number.emax sign p 0 =
  S754_finite sign
    (match (Zpos (digits2_pos p) - 53)%Z with
     | Zneg k => Pos.iter xO p k
     | _ => p
     end)
    (Zpos (digits2_pos p) - 53).
Proof.
  intros Hd.
  unfold binary_round.
  assert (fexp Number.prec Number.emax (Zpos (digits2_pos p) + 0)
          = (Zpos (digits2_pos p) - 53)%Z) as Hfexp.
  { unfold fexp, emin, Number.prec, Number.emax. lia. }
  rewrite Hfexp. unfold shl_align.
  rewrite Z.sub_0_r.
  destruct (Zpos (digits2_pos p) - 53)%Z as [|q|k] eqn:Ek; [| lia |].
  - unfold binary_round_aux, shr_fexp. cbn [shr_record_of_loc Zdigits2].
    assert (fexp Number.prec Number.emax (Zpos (digits2_pos p) + 0) - 0 = 0)%Z as ->.
    { rewrite Hfexp. reflexivity. }
    cbn [shr shr_m loc_of_shr_record round_nearest_even shr_record_of_loc Zdigits2].
    assert (fexp Number.prec Number.emax (Zpos (digits2_pos p) + 0) - 0 = 0)%Z as ->.
    { rewrite Hfexp. reflexivity. }
    reflexivity.
  - unfold binary_round_aux, shr_fexp. cbn [shr_record_of_loc Zdigits2].
    rewrite digits_iter_xO.
    assert (fexp Number.prec Number.emax (Zpos (digits2_pos p + k) + Zneg k)
            - Zneg k = 0)%Z as Hz.
    { unfold fexp, emin, Number.prec, Number.emax. lia. }
    rewrite Hz.
    cbn [shr shr_m loc_of_shr_record round_nearest_even shr_record_of_loc Zdigits2].
    rewrite digits_iter_xO, Hz.
    cbn [shr shr_m].
    destruct (Z.leb_spec (Zneg k) (Number.emax - Number.prec)) as [_|H];
      [reflexivity|].
    unfold Number.emax, Number.prec in H. lia.
Qed.

Lemma digits_size (p : positive) : digits2_pos p = Pos.size p.
Proof. induction p; simpl; now rewrite ?IHp. Qed.

Lemma digits_bound (p : positive) :
  (Zpos p < 2 ^ 53)%Z -> (Zpos (digits2_pos p) <= 53)%Z.
Proof.
  intros Hp. rewrite digits_size.
  destruct (Z.le_gt_cases (Zpos (Pos.size p)) 53) as [H|H]; [exact H|].
  exfalso.
  pose proof (Pos.size_le p) as Hs.
  assert (2 ^ 54 <= 2 ^ Zpos (Pos.size p))%Z as Hpow
    by (apply Z.pow_le_mono_r; lia).
  assert (Zpos (2 ^ Pos.size p) <= Zpos p~0)%Z as Hs' by exact Hs.
  rewrite Pos2Z.inj_pow in Hs'. lia.
Qed.

Lemma bound_digits (p : positive) :
  (Zpos (digits2_pos p) <= 53)%Z -> (Zpos p < 2 ^ 53)%Z.
Proof.
  intros Hd. rewrite digits_size in Hd.
  pose proof (Pos.size_gt p) as Hs.
  assert (Zpos p < Zpos (2 ^ Pos.size p))%Z as Hs' by exact Hs.
  rewrite Pos2Z.inj_pow in Hs'.
  assert (2 ^ Zpos (Pos.size p) <= 2 ^ 53)%Z by (apply Z.pow_le_mono_r; lia).
  lia.
Qed.

(** An integer of magnitude below [2 ^ 53] is a Number. *)
Lemma integer_number_exact (s : bool) (n : Z) :
  (Z.abs n < 2 ^ 53)%Z ->
  (to_Q (integer_number s n) == inject_Z n)%Q.
Proof.
  intros Hn. unfold integer_number.
  destruct (Z.eqb_spec n 0) as [->|Hn0]; [reflexivity|].
  unfold Number.of_Z, binary_normalize.
  destruct n as [|p|p]; [contradiction| |];
    (assert (Zpos (digits2_pos p) <= 53)%Z as Hd
       by (apply digits_bound; exact Hn));
    rewrite (of_Z_pos _ p Hd);
    unfold to_Q;
    (destruct (Zpos (digits2_pos p) - 53)%Z as [|q|k] eqn:Ek; [| lia |]);
    cbn [Z.leb Z.compare].
  - unfold Qeq, inject_Z. simpl. lia.
  - unfold Qeq, inject_Z. cbn [Qnum Qden cond_Zopp Z.opp Z.to_pos].
    rewrite Pos2Z.inj_pow, value_iter_xO. lia.
  - unfold Qeq, inject_Z. simpl. lia.
  - unfold Qeq, inject_Z. cbn [Qnum Qden cond_Zopp Z.opp Z.to_pos].
    rewrite Pos2Z.inj_pow.
    change (Z.neg (Pos.iter xO p k)) with (- Zpos (Pos.iter xO p k))%Z.
    rewrite value_iter_xO. lia.
Qed.

Lemma round_half_up_bounded (s : bool) (m : positive) (e : Z) :
  (e < 0)%Z ->
  (Zpos (digits2_pos m) <= 53)%Z ->
  (Z.abs (round_half_up (to_Q (S754_finite s m e))) < 2 ^ 53)%Z.
Proof.
  intros He Hd. apply bound_digits in Hd.
  unfold round_half_up, to_Q.
  destruct (Z.leb_spec 0 e) as [|_]; [lia|].
  unfold Qplus, Qfloor. cbn [Qnum Qden].
  rewrite Pos2Z.inj_mul, (pow2_pos e He).
  assert (0 < 2 ^ (- e))%Z as Hpow by (apply Z.pow_pos_nonneg; lia).
  set (d := (2 ^ (- e))%Z) in *.
  set (P := (2 ^ 53)%Z) in *.
  assert (- P < cond_Zopp s (Zpos m) < P)%Z as Hsm
    by (destruct s; simpl; lia).
  set (sm := cond_Zopp s (Zpos m)) in *.
  apply Z.abs_lt. split.
  - apply Z.lt_le_trans with (- P + 1)%Z; [lia|].
    apply Z.div_le_lower_bound; [lia|]. nia.
  - apply Z.div_lt_upper_bound; [lia|]. nia.
Qed.

(** The value of [Math.round(x)] for a binary64 [x]: the half-up rounding
    of the value of [x]. *)
Lemma round_value (s : bool) (m : positive) (e : Z) :
  (Zpos (digits2_pos m) <= 53)%Z ->
  (to_Q (Number.round (S754_finite s m e)) ==
   inject_Z (round_half_up (to_Q (S754_finite s m e))))%Q.
Proof.
  intros Hd.
  destruct (Z.lt_ge_cases e 0) as [He|He].
  - rewrite (round_fractional s m e He).
    apply integer_number_exact. now apply round_half_up_bounded.
  - destruct (round_integral s m e He) as [-> Hq]. now rewrite Hq.
Qed.

(** ** The total *)

Lemma aggregate_items (parsed : value) (items : list value) (sum : Number.number) :
  normalized_foods parsed = Ok (Arr items) ->
  reduce add_calories items Number.zero = Ok sum ->
  aggregate parsed =
    Ok (json [ (key_foods, Arr items);
               (key_total_calories, Num (Number.round sum)) ]).
Proof.
  intros Hfoods Hsum. unfold aggregate.
  rewrite Hfoods. cbn [bind_result]. now rewrite Hsum.
Qed.

(** ** [JSON.parse]: the fuel is enough *)

Lemma skip_ws_length (s : jsstring) : length (skip_ws s) <= length s.
Proof.
  induction s as [|c t IH]; simpl; [lia|].
  destruct (is_ws c); simpl; lia.
Qed.

Lemma digits_length (s ds r : jsstring) :
  digits s = (ds, r) -> length s = length ds + length r.
Proof.
  revert ds r. induction s as [|c t IH]; intros ds r; simpl.
  - intros H. inversion H. reflexivity.
  - destruct (is_digit c).
    + destruct (digits t) as [ds' r'] eqn:E. intros H. inversion H; subst.
      simpl. now rewrite (IH ds' r).
    + intros H. inversion H. reflexivity.
Qed.

Lemma string_body_length (s body r : jsstring) :
  string_body s = Some (body, r) -> length r < length s.
Proof.
  revert body r.
  induction s as [s IH] using jsstring_length_ind. intros body r.
  destruct s as [|c t]; [discriminate|]. cbn [string_body].
  assert (forall x u, length u < length (c :: t) ->
            prepend x (string_body u) = Some (body, r) ->
            length r < length u) as Hpre.
  { intros x u Hu H. unfold prepend in H.
    destruct (string_body u) as [[b' r']|] eqn:E; [|discriminate].
    inversion H; subst. exact (IH u Hu b' r E). }
  destruct (N.eqb c Chr.QUOTE).
  { intros H. inversion H; subst. simpl. lia. }
  destruct (N.eqb c Chr.BACKSLASH).
  { destruct t as [|e t']; [discriminate|].
    destruct (N.eqb e 117).
    - destruct t' as [|h1 [|h2 [|h3 [|h4 t'']]]]; try discriminate.
      destruct (hex4 h1 h2 h3 h4); [|discriminate].
      intros H. apply Hpre in H; simpl in *; lia.
    - destruct (escape e); [|discriminate].
      intros H. apply Hpre in H; simpl in *; lia. }
  destruct (N.ltb c 32); [discriminate|].
  intros H. apply Hpre in H; simpl in *; lia.
Qed.

Lemma int_part_length (s ip r : jsstring) :
  int_part s = Some (ip, r) -> length r < length s.
Proof.
  unfold int_part. destruct s as [|c t]; [discriminate|].
  destruct (N.eqb c 48).
  - intros H. inversion H; subst. simpl. lia.
  - destruct (is_digit c); [|discriminate].
    destruct (digits t) as [ds r'] eqn:E. intros H. inversion H; subst.
    apply digits_length in E. simpl. lia.
Qed.

Lemma frac_part_length (s fp r : jsstring) :
  frac_part s = Some (fp, r) -> length r <= length s.
Proof.
  unfold frac_part. destruct s as [|c t].
  - intros H. inversion H. simpl. lia.
  - destruct (N.eqb c 46).
    + destruct (digits t) as [ds r'] eqn:E. apply digits_length in E.
      destruct ds; [discriminate|]. intros H. inversion H; subst. simpl in *. lia.
    + intros H. inversion H. lia.
Qed.

Lemma exp_part_length (s : jsstring) (e : Z) (r : jsstring) :
  exp_part s = Some (e, r) -> length r <= length s.
Proof.
  unfold exp_part. destruct s as [|c t].
  - intros H. inversion H. simpl. lia.
  - destruct (N.eqb c 101 || N.eqb c 69).
    + destruct (match t with
                | [] => (false, t)
                | sg :: u =>
                    if N.eqb sg 45 then (true, u)
                    else if N.eqb sg 43 then (false, u) else (false, t)
                end) as [neg t'] eqn:Et.
      assert (length t' <= length t) as Ht.
      { destruct t as [|sg u]; [inversion Et; simpl; lia|].
        destruct (N.eqb sg 45); [inversion Et; simpl; lia|].
        destruct (N.eqb sg 43); inversion Et; simpl; lia. }
      destruct (digits t') as [ds r'] eqn:E. apply digits_length in E.
      destruct ds; [discriminate|]. intros H. inversion H; subst. simpl in *. lia.
    + intros H. inversion H. lia.
Qed.

Lemma number_token_length (s : jsstring) (x : Number.number) (r : jsstring) :
  number_token s = Some (x, r) -> length r < length s.
Proof.
  unfold number_token.
  destruct (match s with
            | [] => (false, s)
            | c :: t => if N.eqb c 45 then (true, t) else (false, s)
            end) as [neg s1] eqn:Es.
  assert (length s1 <= length s) as Hs.
  { destruct s as [|c t]; [inversion Es; lia|].
    destruct (N.eqb c 45); inversion Es; simpl; lia. }
  destruct (int_part s1) as [[ip s2]|] eqn:E1; [|discriminate].
  destruct (frac_part s2) as [[fp s3]|] eqn:E2; [|discriminate].
  destruct (exp_part s3) as [[e s4]|] eqn:E3; [|discriminate].
  intros H. inversion H; subst.
  apply int_part_length in E1. apply frac_part_length in E2.
  apply exp_part_length in E3. lia.
Qed.

Lemma keyword_length (w : string) (v v' : value) (s r : jsstring) :
  w <> EmptyString ->
  keyword w v s = Parsed v' r -> length r < length s.
Proof.
  intros Hw. unfold keyword.
  destruct (after (lit w) s) as [r'|] eqn:E; [|discriminate].
  intros H. inversion H; subst. apply after_length in E.
  destruct w; [contradiction|]. simpl in E. lia.
Qed.

Lemma skip_ws_cons (s : jsstring) (c : code_unit) (t : jsstring) :
  skip_ws s = c :: t -> length t < length s.
Proof.
  intros H. pose proof (skip_ws_length s) as Hl. rewrite H in Hl. simpl in Hl. lia.
Qed.

(** A successful parse consumes at least one character. *)
Lemma parse_consumes (fuel : nat) :
  (forall s v r, parse_value fuel s = Parsed v r -> length r < length s) /\
  (forall acc s v r, parse_elements fuel acc s = Parsed v r -> length r < length s) /\
  (forall acc s v r, parse_members fuel acc s = Parsed v r -> length r < length s).
Proof.
  induction fuel as [|fuel (IHv & IHe & IHm)].
  - repeat split; intros; discriminate.
  - repeat split.
    + intros s v r. cbn [parse_value].
      destruct (skip_ws s) as [|c t] eqn:Es; [discriminate|].
      apply skip_ws_cons in Es.
      destruct (N.eqb c Chr.LBRACE).
      { destruct (skip_ws t) as [|d u] eqn:Et; [discriminate|].
        apply skip_ws_cons in Et.
        destruct (N.eqb d Chr.RBRACE).
        - intros H. inversion H; subst. lia.
        - intros H. apply IHm in H. lia. }
      destruct (N.eqb c Chr.LBRACKET).
      { destruct (skip_ws t) as [|d u] eqn:Et; [discriminate|].
        apply skip_ws_cons in Et.
        destruct (N.eqb d Chr.RBRACKET).
        - intros H. inversion H; subst. lia.
        - intros H. apply IHe in H. lia. }
      destruct (N.eqb c Chr.QUOTE).
      { destruct (string_body t) as [[body u]|] eqn:Eb; [|discriminate].
        apply string_body_length in Eb.
        intros H. inversion H; subst. lia. }
      destruct (N.eqb c 116).
      { intros H. apply keyword_length in H; [simpl in H; lia | discriminate]. }
      destruct (N.eqb c 102).
      { intros H. apply keyword_length in H; [simpl in H; lia | discriminate]. }
      destruct (N.eqb c 110).
      { intros H. apply keyword_length in H; [simpl in H; lia | discriminate]. }
      destruct (number_token (c :: t)) as [[x u]|] eqn:En; [|discriminate].
      apply number_token_length in En.
      intros H. inversion H; subst. simpl in En. lia.
    + intros acc s v r. cbn [parse_elements].
      destruct (parse_value fuel s) as [v' u| |] eqn:Ev; try discriminate.
      apply IHv in Ev.
      destruct (skip_ws u) as [|d u'] eqn:Eu; [discriminate|].
      apply skip_ws_cons in Eu.
      destruct (N.eqb d Chr.COMMA).
      { intros H. apply IHe in H. lia. }
      destruct (N.eqb d Chr.RBRACKET); [|discriminate].
      intros H. inversion H; subst. lia.
    + intros acc s v r. cbn [parse_members].
      destruct (skip_ws s) as [|q t] eqn:Es; [discriminate|].
      apply skip_ws_cons in Es.
      destruct (N.eqb q Chr.QUOTE); [|discriminate].
      destruct (string_body t) as [[k u]|] eqn:Ek; [|discriminate].
      apply string_body_length in Ek.
      destruct (skip_ws u) as [|c u'] eqn:Eu; [discriminate|].
      apply skip_ws_cons in Eu.
      destruct (N.eqb c 58); [|discriminate].
      destruct (parse_value fuel u') as [v' w| |] eqn:Ev; try discriminate.
      apply IHv in Ev.
      destruct (skip_ws w) as [|d w'] eqn:Ew; [discriminate|].
      apply skip_ws_cons in Ew.
      destruct (N.eqb d Chr.COMMA).
      { intros H. apply IHm in H. lia. }
      destruct (N.eqb d Chr.RBRACE); [|discriminate].
      intros H. inversion H; subst. lia.
Qed.

(** With two units of fuel for each character the parser does not run
    out. *)
Lemma fuel_enough (fuel : nat) :
  (forall s, 2 * length s + 1 <= fuel -> parse_value fuel s <> Exhausted) /\
  (forall acc s, 2 * length s + 2 <= fuel -> parse_elements fuel acc s <> Exhausted) /\
  (forall acc s, 2 * length s + 2 <= fuel -> parse_members fuel acc s <> Exhausted).
Proof.
  induction fuel as [|fuel (IHv & IHe & IHm)].
  - repeat split; intros; lia.
  - repeat split.
    + intros s Hf. cbn [parse_value].
      destruct (skip_ws s) as [|c t] eqn:Es; [discriminate|].
      apply skip_ws_cons in Es.
      destruct (N.eqb c Chr.LBRACE).
      { destruct (skip_ws t) as [|d u]; [discriminate|].
        destruct (N.eqb d Chr.RBRACE); [discriminate|].
        apply IHm. lia. }
      destruct (N.eqb c Chr.LBRACKET).
      { destruct (skip_ws t) as [|d u]; [discriminate|].
        destruct (N.eqb d Chr.RBRACKET); [discriminate|].
        apply IHe. lia. }
      destruct (N.eqb c Chr.QUOTE).
      { destruct (string_body t) as [[body u]|]; discriminate. }
      unfold keyword.
      destruct (N.eqb c 116); [destruct (after _ _); discriminate|].
      destruct (N.eqb c 102); [destruct (after _ _); discriminate|].
      destruct (N.eqb c 110); [destruct (after _ _); discriminate|].
      destruct (number_token (c :: t)) as [[x u]|]; discriminate.
    + intros acc s Hf. cbn [parse_elements].
      pose proof (IHv s) as Hv.
      destruct (parse_value fuel s) as [v' u| |] eqn:Ev;
        [|discriminate|exfalso; apply Hv; [lia|reflexivity]].
      apply (proj1 (parse_consumes fuel)) in Ev.
      destruct (skip_ws u) as [|d u'] eqn:Eu; [discriminate|].
      apply skip_ws_cons in Eu.
      destruct (N.eqb d Chr.COMMA); [apply IHe; lia|].
      destruct (N.eqb d Chr.RBRACKET); discriminate.
    + intros acc s Hf. cbn [parse_members].
      destruct (skip_ws s) as [|q t] eqn:Es; [discriminate|].
      apply skip_ws_cons in Es.
      destruct (N.eqb q Chr.QUOTE); [|discriminate].
      destruct (string_body t) as [[k u]|] eqn:Ek; [|discriminate].
      apply string_body_length in Ek.
      destruct (skip_ws u) as [|c u'] eqn:Eu; [discriminate|].
      apply skip_ws_cons in Eu.
      destruct (N.eqb c 58); [|discriminate].
      pose proof (IHv u') as Hv.
      destruct (parse_value fuel u') as [v' w| |] eqn:Ev;
        [|discriminate|exfalso; apply Hv; [lia|reflexivity]].
      apply (proj1 (parse_consumes fuel)) in Ev.
      destruct (skip_ws w) as [|d w'] eqn:Ew; [discriminate|].
      apply skip_ws_cons in Ew.
      destruct (N.eqb d Chr.COMMA); [apply IHm; lia|].
      destruct (N.eqb d Chr.RBRACE); discriminate.
Qed.

(** [JSON.parse] never fails for want of fuel: a [SyntaxError] is a
    syntax error. *)
Lemma fuel_suffices (text : jsstring) :
  parse_value (fuel_for text) text <> Exhausted.
Proof.
  apply (proj1 (fuel_enough (fuel_for text))). unfold fuel_for. lia.
Qed.

(** ** What reaches the aggregation is an object *)

Lemma parse_members_object (fuel : nat) (acc : properties) (s : jsstring)
      (v : value) (r : jsstring) :
  parse_members fuel acc s = Parsed v r -> exists ps, v = Obj ps.
Proof.
  revert acc s. induction fuel as [|fuel IH]; intros acc s; [discriminate|].
  cbn [parse_members].
  destruct (skip_ws s) as [|q t]; [discriminate|].
  destruct (N.eqb q Chr.QUOTE); [|discriminate].
  destruct (string_body t) as [[k u]|]; [|discriminate].
  destruct (skip_ws u) as [|c u']; [discriminate|].
  destruct (N.eqb c 58); [|discriminate].
  destruct (parse_value fuel u') as [v' w| |]; try discriminate.
  destruct (skip_ws w) as [|d w']; [discriminate|].
  destruct (N.eqb d Chr.COMMA); [apply IH|].
  destruct (N.eqb d Chr.RBRACE); [|discriminate].
  intros H. inversion H. now eexists.
Qed.

(** A text that starts with an opening brace parses to an object or not
    at all. *)
Lemma parse_braced_object (t : jsstring) (v : value) :
  JSON.parse (Chr.LBRACE :: t) = Ok v -> exists ps, v = Obj ps.
Proof.
  unfold JSON.parse, fuel_for.
  replace (2 * length (Chr.LBRACE :: t) + 1) with (S (2 * length (Chr.LBRACE :: t)))
    by lia.
  cbn [parse_value skip_ws]. change (is_ws Chr.LBRACE) with false. cbv iota.
  rewrite N.eqb_refl.
  destruct (skip_ws t) as [|d u]; [discriminate|].
  destruct (N.eqb d Chr.RBRACE).
  - destruct (skip_ws u); [|discriminate]. intros H. inversion H. now eexists.
  - destruct (parse_members _ [] t) as [v' r| |] eqn:E; try discriminate.
    apply parse_members_object in E. destruct E as (ps & ->).
    destruct (skip_ws r); [|discriminate]. intros H. inversion H. now eexists.
Qed.

Lemma safeJSONParse_braced_object (t : jsstring) (v : value) :
  safeJSONParse (Chr.LBRACE :: t) = Ok v -> exists ps, v = Obj ps.
Proof.
  unfold safeJSONParse.
  destruct (JSON.parse (Chr.LBRACE :: t)) as [v'|e] eqn:E.
  - intros H. inversion H; subst. now apply parse_braced_object in E.
  - rewrite repair_step.
    change (N.eqb Chr.LBRACE Chr.COMMA) with false. cbn [andb].
    apply parse_braced_object.
Qed.

(** On the handler's path the parsed value is an object, so reading
    [parsed.foods] does not throw and the assignment of the empty array
    takes effect. *)
Lemma parsed_is_object (raw : jsstring) (parsed : value) :
  bind_result (extractJSON raw) safeJSONParse = Ok parsed ->
  exists ps, parsed = Obj ps.
Proof.
  destruct (extractJSON_cases raw) as [[E _]|(r & E & Hspan)]; rewrite E;
    [discriminate|].
  destruct Hspan as (_ & mid & _ & _ & -> & _).
  cbn [bind_result]. apply safeJSONParse_braced_object.
Qed.

Lemma normalized_foods_object (ps : properties) :
  exists items, normalized_foods (Obj ps) = Ok (Arr items) /\
    (items = [] \/ lookup key_foods ps = Some (Arr items)).
Proof.
  unfold normalized_foods, get. cbn [bind_result].
  destruct (lookup key_foods ps) as [[| |b|x|s|l|o]|] eqn:E;
    try (exists []; split; [reflexivity | now left]).
  exists l. split; [reflexivity | now right].
Qed.

(** On the handler's path the normalization always yields an array: only
    the reduction can throw. *)
Lemma foods_on_path (raw : jsstring) (parsed : value) :
  bind_result (extractJSON raw) safeJSONParse = Ok parsed ->
  exists items, normalized_foods parsed = Ok (Arr items).
Proof.
  intros H. destruct (parsed_is_object raw parsed H) as (ps & ->).
  destruct (normalized_foods_object ps) as (items & E & _). now exists items.
Qed.

(** A [foods] that is not an array is replaced by the empty array and the
    total is then 0. *)
Lemma aggregate_not_an_array (ps : properties) :
  (forall items, lookup key_foods ps <> Some (Arr items)) ->
  aggregate (Obj ps) =
    Ok (json [ (key_foods, Arr []); (key_total_calories, Num Number.zero) ]).
Proof.
  intros H. unfold aggregate, normalized_foods, get. cbn [bind_result].
  destruct (lookup key_foods ps) as [[| |b|x|s|l|o]|] eqn:E; try reflexivity.
  now destruct (H l).
Qed.

(** ** Contributions of well-formed items *)

Lemma well_formed_contribution (f : value) (sum : Number.number) :
  well_formed_item f ->
  exists n,
    add_calories sum f = Ok (Number.add sum n) /\
    (n = contribution f \/
     (Number.is_zero n = true /\ Number.is_zero (contribution f) = true)).
Proof.
  intros (ps & -> & H).
  unfold add_calories, get, contribution. cbn [bind_result].
  destruct (lookup key_calories ps) as [[| |b|x|s|l|o]|]; try contradiction.
  - exists Number.zero. split; [reflexivity | now left].
  - unfold or. cbn [ToBoolean]. rewrite H.
    destruct (Number.is_zero x) eqn:Ez; cbn [orb negb ToNumber bind_result].
    + exists Number.zero. split; [reflexivity|]. right. now split.
    + exists x. split; [reflexivity | now left].
  - rewrite H. unfold or. cbn [ToBoolean].
    destruct s as [|c t]; cbn [ToNumber bind_result].
    + exists Number.zero. split; [reflexivity | now left].
    + exists (StringToNumber (c :: t)). split; [reflexivity | now left].
  - exists Number.zero. split; [reflexivity | now left].
Qed.

(** With well-formed items the reduction does not throw. *)
Lemma well_formed_reduce (items : list value) (sum : Number.number) :
  Forall well_formed_item items ->
  exists total, reduce add_calories items sum = Ok total.
Proof.
  intros H. revert sum. induction H as [|f items Hf _ IH]; intros sum.
  - now exists sum.
  - destruct (well_formed_contribution f sum Hf) as (n & E & _).
    cbn [reduce]. rewrite E. cbn [bind_result]. apply IH.
Qed.

(** ** The results of the arithmetic are binary64 values *)

Lemma shr_1_m (r : shr_record) :
  (0 <= shr_m r)%Z -> shr_m (shr_1 r) = (shr_m r / 2)%Z.
Proof.
  destruct r as [m rb sb]. cbn [shr_m]. intros Hm.
  destruct m as [|[p|p|]|p]; cbn [shr_1 shr_m]; try lia; try reflexivity.
  - apply Z.div_unique with 1%Z; lia.
  - apply Z.div_unique with 0%Z; lia.
Qed.

Lemma shr_1_nonpos (r : shr_record) :
  (shr_m r <= 0)%Z -> (shr_m (shr_1 r) <= 0)%Z.
Proof.
  destruct r as [m rb sb]. cbn [shr_m]. intros Hm.
  destruct m as [|p|[p|p|]]; cbn [shr_1 shr_m]; lia.
Qed.

Lemma iter_shr_1_m (p : positive) (r : shr_record) :
  (0 <= shr_m r)%Z ->
  shr_m (SpecFloat.iter_pos shr_1 p r) = (shr_m r / 2 ^ Zpos p)%Z.
Proof.
  revert r. induction p as [p IH|p IH|]; intros r Hr; cbn [SpecFloat.iter_pos];
    try (assert (0 < 2 ^ Zpos p)%Z as Hp by (apply Z.pow_pos_nonneg; lia)).
  - assert (0 <= shr_m (shr_1 r))%Z as H1
      by (rewrite shr_1_m by assumption; apply Z.div_pos; lia).
    assert (0 <= shr_m (SpecFloat.iter_pos shr_1 p (shr_1 r)))%Z as H2
      by (rewrite IH by assumption; apply Z.div_pos; lia).
    rewrite IH, IH, shr_1_m by assumption.
    rewrite !Z.div_div by lia.
    replace (2 ^ Zpos p~1)%Z with (2 * (2 ^ Zpos p * 2 ^ Zpos p))%Z; [reflexivity|].
    replace (Zpos p~1) with (1 + Zpos p + Zpos p)%Z by lia.
    rewrite !Z.pow_add_r by lia. lia.
  - assert (0 <= shr_m (SpecFloat.iter_pos shr_1 p r))%Z as H2
      by (rewrite IH by assumption; apply Z.div_pos; lia).
    rewrite IH, IH by assumption.
    rewrite Z.div_div by lia.
    replace (2 ^ Zpos p~0)%Z with (2 ^ Zpos p * 2 ^ Zpos p)%Z; [reflexivity|].
    replace (Zpos p~0) with (Zpos p + Zpos p)%Z by lia.
    rewrite Z.pow_add_r by lia. reflexivity.
  - rewrite shr_1_m by assumption. reflexivity.
Qed.

Lemma iter_shr_1_nonpos (p : positive) (r : shr_record) :
  (shr_m r <= 0)%Z -> (shr_m (SpecFloat.iter_pos shr_1 p r) <= 0)%Z.
Proof.
  revert r. induction p as [p IH|p IH|]; intros r Hr; cbn [SpecFloat.iter_pos].
  - apply IH, IH. now apply shr_1_nonpos.
  - now apply IH, IH.
  - now apply shr_1_nonpos.
Qed.

Lemma shr_record_of_loc_m (m : Z) (l : location) :
  shr_m (shr_record_of_loc m l) = m.
Proof. destruct l as [|[]]; reflexivity. Qed.

Lemma Zdigits2_gt (m : Z) : (0 <= m)%Z -> (m < 2 ^ Zdigits2 m)%Z.
Proof.
  destruct m as [|p|p]; intros Hm; [reflexivity| |lia].
  cbn [Zdigits2]. rewrite digits_size.
  pose proof (Pos.size_gt p) as Hs.
  assert (Zpos p < Zpos (2 ^ Pos.size p))%Z as Hs' by exact Hs.
  now rewrite Pos2Z.inj_pow in Hs'.
Qed.

(** Shifting to the exponent of the format leaves at most 53 digits. *)
Lemma shr_fexp_bound (m e : Z) (l : location) :
  (0 <= m)%Z ->
  (0 <= shr_m (fst (shr_fexp Number.prec Number.emax m e l)) < 2 ^ 53)%Z.
Proof.
  intros Hm. unfold shr_fexp, shr.
  pose proof (Zdigits2_gt m Hm) as Hd.
  assert (0 <= Zdigits2 m)%Z as Hd0 by (destruct m; simpl; lia).
  destruct (fexp Number.prec Number.emax (Zdigits2 m + e) - e)%Z as [|p|p] eqn:En;
    cbn [fst].
  - rewrite shr_record_of_loc_m. split; [lia|].
    apply Z.lt_le_trans with (2 ^ Zdigits2 m)%Z; [lia|].
    apply Z.pow_le_mono_r; [lia|].
    unfold fexp, emin, Number.prec, Number.emax in En. lia.
  - rewrite iter_shr_1_m by (rewrite shr_record_of_loc_m; lia).
    rewrite shr_record_of_loc_m.
    assert (0 < 2 ^ Zpos p)%Z as Hp by (apply Z.pow_pos_nonneg; lia).
    split; [apply Z.div_pos; lia|].
    apply Z.div_lt_upper_bound; [lia|].
    apply Z.lt_le_trans with (2 ^ Zdigits2 m)%Z; [lia|].
    rewrite <- Z.pow_add_r by lia.
    apply Z.pow_le_mono_r; [lia|].
    unfold fexp, emin, Number.prec, Number.emax in En. lia.
  - rewrite shr_record_of_loc_m. split; [lia|].
    apply Z.lt_le_trans with (2 ^ Zdigits2 m)%Z; [lia|].
    apply Z.pow_le_mono_r; [lia|].
    unfold fexp, emin, Number.prec, Number.emax in En. lia.
Qed.

Lemma shr_fexp_nonpos (m e : Z) (l : location) :
  (m <= 0)%Z ->
  (shr_m (fst (shr_fexp Number.prec Number.emax m e l)) <= 0)%Z.
Proof.
  intros Hm. unfold shr_fexp, shr.
  destruct (fexp Number.prec Number.emax (Zdigits2 m + e) - e)%Z; cbn [fst].
  - now rewrite shr_record_of_loc_m.
  - apply iter_shr_1_nonpos. now rewrite shr_record_of_loc_m.
  - now rewrite shr_record_of_loc_m.
Qed.

(** Whatever is rounded, the result fits the format. *)
Lemma binary_round_aux_binary64 (s : bool) (m e : Z) (l : location) :
  binary64 (binary_round_aux Number.prec Number.emax s m e l) = true.
Proof.
  unfold binary_round_aux.
  destruct (shr_fexp Number.prec Number.emax m e l) as [mrs' e'].
  set (m2 := round_nearest_even (shr_m mrs') (loc_of_shr_record mrs')).
  pose proof (shr_fexp_bound m2 e' loc_Exact) as Hpos.
  pose proof (shr_fexp_nonpos m2 e' loc_Exact) as Hneg.
  destruct (shr_fexp Number.prec Number.emax m2 e' loc_Exact) as [mrs'' e''].
  cbn [fst] in Hpos, Hneg.
  destruct (shr_m mrs'') as [|p|p] eqn:Em; try reflexivity.
  destruct (Z.leb e'' (Number.emax - Number.prec)); [|reflexivity].
  cbn [binary64]. apply Z.leb_le. apply digits_bound.
  destruct (Z.le_gt_cases 0 m2) as [H|H]; [apply Hpos in H; lia|].
  assert (m2 <= 0)%Z as H' by lia. apply Hneg in H'. lia.
Qed.

Lemma binary_normalize_binary64 (m e : Z) (szero : bool) :
  binary64 (binary_normalize Number.prec Number.emax m e szero) = true.
Proof.
  destruct m; cbn [binary_normalize]; [reflexivity| |];
    unfold binary_round;
    destruct (shl_align _ _ _); apply binary_round_aux_binary64.
Qed.

Lemma add_binary64 (x y : Number.number) :
  binary64 x = true -> binary64 y = true -> binary64 (Number.add x y) = true.
Proof.
  intros Hx Hy. unfold Number.add.
  destruct x as [sx|sx| |sx mx ex], y as [sy|sy| |sy my ey];
    cbn [SFadd]; try assumption; try reflexivity;
    try (destruct sx, sy; reflexivity).
  apply binary_normalize_binary64.
Qed.

Lemma of_Z_binary64 (n : Z) : binary64 (Number.of_Z n) = true.
Proof. apply binary_normalize_binary64. Qed.

Lemma of_decimal_binary64 (neg : bool) (m e10 : Z) :
  binary64 (Number.of_decimal neg m e10) = true.
Proof.
  unfold Number.of_decimal.
  destruct (Z.eqb m 0); [reflexivity|].
  destruct (Z.leb 0 e10); [apply binary_normalize_binary64|].
  destruct (SFdiv_core_binary _ _ _ _ _ _) as [[q e] l].
  apply binary_round_aux_binary64.
Qed.

Lemma StringToNumber_binary64 (s : jsstring) :
  binary64 (StringToNumber s) = true.
Proof.
  unfold StringToNumber.
  assert (forall neg t, binary64 (unsigned_decimal neg t) = true) as Hdec.
  { intros neg t. unfold unsigned_decimal.
    destruct (str_eqb t (lit "Infinity")); [reflexivity|].
    destruct (Digits.digits t) as [ip s1].
    destruct (match s1 with
              | [] => (false, ([], s1))
              | c :: u =>
                  if N.eqb c 46 then (true, Digits.digits u) else (false, ([], s1))
              end) as [dot [fp s2]].
    destruct (ip ++ fp); [reflexivity|].
    destruct (Digits.exp_part s2) as [[e [|c0 r]]|]; try reflexivity.
    apply of_decimal_binary64. }
  destruct (trim s) as [|c t]; [reflexivity|].
  destruct (non_decimal (c :: t)) as [x|] eqn:E.
  - unfold non_decimal in E.
    destruct t as [|p [|d u]]; try discriminate.
    + destruct (N.eqb c 48); [|discriminate].
      destruct (radix_of_prefix p); inversion E; reflexivity.
    + destruct (N.eqb c 48); [|discriminate].
      destruct (radix_of_prefix p); [|discriminate].
      destruct (radix_value _ 0 (d :: u)); inversion E;
        [apply of_Z_binary64 | reflexivity].
  - destruct (N.eqb c 45); [apply Hdec|].
    destruct (N.eqb c 43); apply Hdec.
Qed.

Lemma ToNumber_binary64 :
  forall (v : value) (n : Number.number),
    numbers_binary64 v = true -> ToNumber v = Ok n -> binary64 n = true.
Proof.
  fix IH 1. intros v n Hv H.
  destruct v as [| |b|x|s|l|ps]; cbn [ToNumber] in H.
  - injection H as <-. reflexivity.
  - injection H as <-. reflexivity.
  - injection H as <-. destruct b; [exact (of_Z_binary64 1) | reflexivity].
  - injection H as <-. exact Hv.
  - injection H as <-. apply StringToNumber_binary64.
  - destruct l as [|x [|y l']].
    + injection H as <-. reflexivity.
    + cbn [numbers_binary64 forallb] in Hv.
      apply andb_true_iff in Hv. destruct Hv as [Hx _].
      pose proof (IH x n) as IHx.
      destruct x as [| |b|x|s|l|ps].
      * injection H as <-. reflexivity.
      * injection H as <-. reflexivity.
      * injection H as <-. reflexivity.
      * injection H as <-. destruct (Number.is_zero x); [reflexivity | exact Hx].
      * exact (IHx Hx H).
      * exact (IHx Hx H).
      * exact (IHx Hx H).
    + destruct (existsb unprintable (x :: y :: l')); [discriminate|].
      injection H as <-. reflexivity.
  - destruct (has_own (lit "toString") ps); [discriminate|].
    injection H as <-. reflexivity.
Qed.

(** ** Parsed values hold binary64 Numbers *)

Lemma define_binary64 (k : jsstring) (v : value) (ps : properties) :
  numbers_binary64 v = true ->
  forallb (fun kv => numbers_binary64 (snd kv)) ps = true ->
  forallb (fun kv => numbers_binary64 (snd kv)) (define k v ps) = true.
Proof.
  intros Hv. induction ps as [|[k' v'] ps IH]; cbn [define forallb snd]; intros H.
  - now rewrite Hv.
  - apply andb_true_iff in H. destruct H as [H1 H2].
    destruct (str_eqb k k'); cbn [forallb snd].
    + now rewrite Hv, H2.
    + now rewrite H1, IH.
Qed.

Lemma lookup_binary64 (k : jsstring) (ps : properties) (v : value) :
  forallb (fun kv => numbers_binary64 (snd kv)) ps = true ->
  lookup k ps = Some v -> numbers_binary64 v = true.
Proof.
  induction ps as [|[k' v'] ps IH]; cbn [lookup forallb snd]; [discriminate|].
  intros H. apply andb_true_iff in H. destruct H as [H1 H2].
  destruct (str_eqb k k'); [|now apply IH].
  intros E. now inversion E; subst.
Qed.

Lemma forallb_rev_cons (f : value -> bool) (v : value) (acc : list value) :
  f v = true -> forallb f acc = true -> forallb f (rev (v :: acc)) = true.
Proof.
  intros Hv Hacc. apply forallb_forall. intros x Hx.
  apply in_rev in Hx. destruct Hx as [<-|Hx]; [exact Hv|].
  now apply (proj1 (forallb_forall f acc) Hacc).
Qed.

Lemma number_token_binary64 (s : jsstring) (x : Number.number) (r : jsstring) :
  number_token s = Some (x, r) -> binary64 x = true.
Proof.
  unfold number_token.
  destruct (match s with
            | [] => (false, s)
            | c :: t => if N.eqb c 45 then (true, t) else (false, s)
            end) as [neg s1].
  destruct (int_part s1) as [[ip s2]|]; [|discriminate].
  destruct (frac_part s2) as [[fp s3]|]; [|discriminate].
  destruct (Digits.exp_part s3) as [[e s4]|]; [|discriminate].
  intros H. injection H as <- _. apply of_decimal_binary64.
Qed.

Lemma parse_binary64 (fuel : nat) :
  (forall s v r, parse_value fuel s = Parsed v r -> numbers_binary64 v = true) /\
  (forall acc s v r,
     forallb numbers_binary64 acc = true ->
     parse_elements fuel acc s = Parsed v r -> numbers_binary64 v = true) /\
  (forall acc s v r,
     forallb (fun kv => numbers_binary64 (snd kv)) acc = true ->
     parse_members fuel acc s = Parsed v r -> numbers_binary64 v = true).
Proof.
  induction fuel as [|fuel (IHv & IHe & IHm)].
  - repeat split; intros; discriminate.
  - repeat split.
    + intros s v r. cbn [parse_value].
      destruct (skip_ws s) as [|c t]; [discriminate|].
      destruct (N.eqb c Chr.LBRACE).
      { destruct (skip_ws t) as [|d u]; [discriminate|].
        destruct (N.eqb d Chr.RBRACE).
        - intros H. injection H as <- _. reflexivity.
        - now apply IHm. }
      destruct (N.eqb c Chr.LBRACKET).
      { destruct (skip_ws t) as [|d u]; [discriminate|].
        destruct (N.eqb d Chr.RBRACKET).
        - intros H. injection H as <- _. reflexivity.
        - now apply IHe. }
      destruct (N.eqb c Chr.QUOTE).
      { destruct (string_body t) as [[body u]|]; [|discriminate].
        intros H. injection H as <- _. reflexivity. }
      unfold keyword.
      destruct (N.eqb c 116).
      { destruct (after _ _); [|discriminate]. intros H. injection H as <- _. reflexivity. }
      destruct (N.eqb c 102).
      { destruct (after _ _); [|discriminate]. intros H. injection H as <- _. reflexivity. }
      destruct (N.eqb c 110).
      { destruct (after _ _); [|discriminate]. intros H. injection H as <- _. reflexivity. }
      destruct (number_token (c :: t)) as [[x u]|] eqn:En; [|discriminate].
      apply number_token_binary64 in En.
      intros H. injection H as <- _. exact En.
    + intros acc s v r Hacc. cbn [parse_elements].
      destruct (parse_value fuel s) as [v' u| |] eqn:Ev; try discriminate.
      apply IHv in Ev.
      destruct (skip_ws u) as [|d u']; [discriminate|].
      destruct (N.eqb d Chr.COMMA).
      { apply IHe. cbn [forallb]. now rewrite Ev, Hacc. }
      destruct (N.eqb d Chr.RBRACKET); [|discriminate].
      intros H. injection H as <- _. cbn [numbers_binary64].
      now apply forallb_rev_cons.
    + intros acc s v r Hacc. cbn [parse_members].
      destruct (skip_ws s) as [|q t]; [discriminate|].
      destruct (N.eqb q Chr.QUOTE); [|discriminate].
      destruct (string_body t) as [[k u]|]; [|discriminate].
      destruct (skip_ws u) as [|c u']; [discriminate|].
      destruct (N.eqb c 58); [|discriminate].
      destruct (parse_value fuel u') as [v' w| |] eqn:Ev; try discriminate.
      apply IHv in Ev.
      destruct (skip_ws w) as [|d w']; [discriminate|].
      destruct (N.eqb d Chr.COMMA).
      { apply IHm. now apply define_binary64. }
      destruct (N.eqb d Chr.RBRACE); [|discriminate].
      intros H. injection H as <- _. cbn [numbers_binary64].
      now apply define_binary64.
Qed.

Lemma JSON_parse_binary64 (text : jsstring) (v : value) :
  JSON.parse text = Ok v -> numbers_binary64 v = true.
Proof.
  unfold JSON.parse.
  destruct (parse_value (fuel_for text) text) as [v' r| |] eqn:E; try discriminate.
  destruct (skip_ws r); [|discriminate].
  intros H. injection H as <-.
  exact (proj1 (parse_binary64 (fuel_for text)) text v' r E).
Qed.

Lemma safeJSONParse_binary64 (text : jsstring) (v : value) :
  safeJSONParse text = Ok v -> numbers_binary64 v = true.
Proof.
  unfold safeJSONParse.
  destruct (JSON.parse text) as [v'|e] eqn:E.
  - intros H. injection H as <-. now apply JSON_parse_binary64 in E.
  - apply JSON_parse_binary64.
Qed.

Lemma add_calories_binary64 (sum : Number.number) (f : value) (sum' : Number.number) :
  binary64 sum = true -> numbers_binary64 f = true ->
  add_calories sum f = Ok sum' -> binary64 sum' = true.
Proof.
  intros Hsum Hf. unfold add_calories.
  destruct (get f key_calories) as [c|e] eqn:Eg; [|discriminate].
  assert (numbers_binary64 c = true) as Hc.
  { unfold get in Eg.
    destruct f as [| |b|x|s|l|ps]; try discriminate;
      try (injection Eg as <-; reflexivity).
    injection Eg as <-.
    destruct (lookup key_calories ps) as [c'|] eqn:El; [|reflexivity].
    exact (lookup_binary64 _ _ _ Hf El). }
  cbn [bind_result].
  destruct (ToNumber (or c (Num Number.zero))) as [n|e] eqn:En; [|discriminate].
  cbn [bind_result]. intros H. injection H as <-.
  apply add_binary64; [exact Hsum|].
  apply (ToNumber_binary64 (or c (Num Number.zero)) n); [|exact En].
  unfold or. now destruct (ToBoolean c).
Qed.

Lemma reduce_binary64 (items : list value) (sum total : Number.number) :
  binary64 sum = true -> forallb numbers_binary64 items = true ->
  reduce add_calories items sum = Ok total -> binary64 total = true.
Proof.
  revert sum. induction items as [|f items IH]; intros sum Hsum Hitems;
    cbn [reduce].
  - intros H. now injection H as <-.
  - cbn [forallb] in Hitems. apply andb_true_iff in Hitems.
    destruct Hitems as [Hf Hitems].
    destruct (add_calories sum f) as [sum'|e] eqn:E; [|discriminate].
    cbn [bind_result]. apply IH; [|exact Hitems].
    exact (add_calories_binary64 sum f sum' Hsum Hf E).
Qed.

Lemma normalized_foods_binary64 (parsed : value) (items : list value) :
  numbers_binary64 parsed = true ->
  normalized_foods parsed = Ok (Arr items) ->
  forallb numbers_binary64 items = true.
Proof.
  intros Hp. unfold normalized_foods.
  destruct (get parsed key_foods) as [foods|e] eqn:Eg; [|discriminate].
  cbn [bind_result].
  assert (numbers_binary64 foods = true) as Hfoods.
  { unfold get in Eg.
    destruct parsed as [| |b|x|s|l|ps]; try discriminate;
      try (injection Eg as <-; reflexivity).
    injection Eg as <-.
    destruct (lookup key_foods ps) as [c'|] eqn:El; [|reflexivity].
    exact (lookup_binary64 _ _ _ Hp El). }
  destruct foods as [| |b|x|s|l|ps];
    try (destruct parsed; intros H; inversion H; reflexivity).
  intros H. injection H as <-. exact Hfoods.
Qed.

(** On the handler's path the sum of the contributions is a binary64
    value. *)
Lemma sum_binary64 (raw : jsstring) (parsed : value) (items : list value)
      (sum : Number.number) :
  bind_result (extractJSON raw) safeJSONParse = Ok parsed ->
  normalized_foods parsed = Ok (Arr items) ->
  reduce add_calories items Number.zero = Ok sum ->
  binary64 sum = true.
Proof.
  intros Hparsed Hfoods Hsum.
  assert (numbers_binary64 parsed = true) as Hp.
  { destruct (extractJSON raw) as [j|e]; [|discriminate].
    now apply safeJSONParse_binary64 in Hparsed. }
  apply (reduce_binary64 items Number.zero sum); [reflexivity| |exact Hsum].
  exact (normalized_foods_binary64 parsed items Hp Hfoods).
Qed.

(** ** Spans *)

Lemma first_occurrence (c : code_unit) (p1 x p2 y : jsstring) :
  ~ In c p1 -> ~ In c p2 -> p1 ++ c :: x = p2 ++ c :: y -> p1 = p2 /\ x = y.
Proof.
  revert p2. induction p1 as [|a p1 IH]; intros [|b p2] H1 H2 Heq; simpl in *.
  - injection Heq as ->. split; reflexivity.
  - injection Heq as <- _. exfalso. apply H2. left. reflexivity.
  - injection Heq as -> _. exfalso. apply H1. left. reflexivity.
  - injection Heq as -> Heq.
    destruct (IH p2) as [-> ->]; try exact Heq.
    + intros Hin. apply H1. right. exact Hin.
    + intros Hin. apply H2. right. exact Hin.
    + split; reflexivity.
Qed.

Lemma last_occurrence (c : code_unit) (m1 q1 m2 q2 : jsstring) :
  ~ In c q1 -> ~ In c q2 -> m1 ++ c :: q1 = m2 ++ c :: q2 -> m1 = m2 /\ q1 = q2.
Proof.
  intros H1 H2 Heq.
  apply (f_equal (@rev code_unit)) in Heq.
  rewrite !rev_app_distr in Heq. simpl in Heq.
  rewrite <- !app_assoc in Heq. simpl in Heq.
  destruct (first_occurrence c (rev q1) (rev m1) (rev q2) (rev m2)) as [Hq Hm].
  - intros Hin. apply H1. apply in_rev. exact Hin.
  - intros Hin. apply H2. apply in_rev. exact Hin.
  - exact Heq.
  - split.
    + rewrite <- (rev_involutive m1), <- (rev_involutive m2), Hm. reflexivity.
    + rewrite <- (rev_involutive q1), <- (rev_involutive q2), Hq. reflexivity.
Qed.

Lemma brace_span_unique (s r1 r2 : jsstring) :
  brace_span s r1 -> brace_span s r2 -> r1 = r2.
Proof.
  intros (p1 & m1 & q1 & Hs1 & Hr1 & Hp1 & Hq1)
         (p2 & m2 & q2 & Hs2 & Hr2 & Hp2 & Hq2).
  subst r1 r2. rewrite Hs1 in Hs2. simpl in Hs2.
  destruct (first_occurrence _ _ _ _ _ Hp1 Hp2 Hs2) as [_ Hrest].
  rewrite <- !app_assoc in Hrest. simpl in Hrest.
  destruct (last_occurrence _ _ _ _ _ Hq1 Hq2 Hrest) as [-> _].
  reflexivity.
Qed.

Lemma span_has_braces (s r : jsstring) : brace_span s r -> has_braces s.
Proof.
  intros (pre & mid & post & Hs & Hr & _ & _). subst r.
  exists pre, mid, post. rewrite Hs. simpl.
  rewrite <- app_assoc. reflexivity.
Qed.

(** ** Extraction as specified *)













(** ** The paths of the handler *)

Lemma analyze_food_no_file (model : generate_request -> upstream)
      (req : request) (d : disk) :
  file req = None ->
  analyze_food model req d =
    (Ok (status_json 400 [ (key_error, Str (lit "Image is required")) ]), d).
Proof.
  intros Hf. unfold analyze_food, try_catch, ret. rewrite Hf. reflexivity.
Qed.

Lemma analyze_food_no_upload (model : generate_request -> upstream)
      (req : request) (f : upload) (d : disk) :
  file req = Some f ->
  find_file (path f) d = None ->
  analyze_food model req d =
    (Ok (status_json 500 [ (key_error, Str (lit "Failed to analyze image")) ]), d).
Proof.
  intros Hf Hd.
  unfold analyze_food, try_catch, bind, readFileSync, ret.
  rewrite Hf, Hd. reflexivity.
Qed.

Lemma analyze_food_rejected (model : generate_request -> upstream)
      (req : request) (f : upload) (content : jsstring) (d : disk) :
  file req = Some f ->
  find_file (path f) d = Some content ->
  model (mkGenerate PROMPT content (sent_mimetype f)) = Rejects ->
  analyze_food model req d =
    (Ok (status_json 500 [ (key_error, Str (lit "Failed to analyze image")) ]), d).
Proof.
  intros Hf Hd Hm.
  unfold analyze_food, try_catch, bind, readFileSync, generateContent,
    unlinkSync, lift, ret, throw.
  rewrite Hf, Hd, Hm. reflexivity.
Qed.

Lemma analyze_food_no_text (model : generate_request -> upstream)
      (req : request) (f : upload) (content : jsstring) (e : error) (d : disk) :
  file req = Some f ->
  find_file (path f) d = Some content ->
  model (mkGenerate PROMPT content (sent_mimetype f)) = Resolves (Throw e) ->
  analyze_food model req d =
    (Ok (status_json 500 [ (key_error, Str (lit "Failed to analyze image")) ]),
     remove_file (path f) d).
Proof.
  intros Hf Hd Hm.
  unfold analyze_food, try_catch, bind, readFileSync, generateContent,
    unlinkSync, lift, ret, throw.
  rewrite Hf, Hd, Hm. cbn. rewrite Hd. reflexivity.
Qed.

(** ** The answers with status 200 *)

Lemma integer_number_finite (s : bool) (n : Z) :
  (Z.abs n < 2 ^ 53)%Z -> is_finite (integer_number s n) = true.
Proof.
  intros Hn. unfold integer_number.
  destruct (Z.eqb_spec n 0) as [->|Hn0]; [reflexivity|].
  unfold Number.of_Z, binary_normalize.
  destruct n as [|p|p]; [contradiction| |];
    (assert (Zpos (digits2_pos p) <= 53)%Z as Hd
       by (apply digits_bound; exact Hn));
    rewrite (of_Z_pos _ p Hd); reflexivity.
Qed.

Lemma round_finite (s : bool) (m : positive) (e : Z) :
  (Zpos (digits2_pos m) <= 53)%Z ->
  is_finite (Number.round (S754_finite s m e)) = true.
Proof.
  intros Hd.
  destruct (Z.lt_ge_cases e 0) as [He|He].
  - rewrite (round_fractional s m e He).
    apply integer_number_finite. now apply round_half_up_bounded.
  - destruct (round_integral s m e He) as [-> _]. reflexivity.
Qed.

(** A 200 is the degraded answer or the answer of the aggregation. *)
Lemma analyze_food_200 (model : generate_request -> upstream)
      (req : request) (d d' : disk) (r : response) :
  analyze_food model req d = (Ok r, d') ->
  status r = 200 ->
  r = degraded \/
  exists raw parsed items sum,
    bind_result (extractJSON raw) safeJSONParse = Ok parsed /\
    normalized_foods parsed = Ok (Arr items) /\
    reduce add_calories items Number.zero = Ok sum /\
    r = json [ (key_foods, Arr items);
               (key_total_calories, Num (Number.round sum)) ].
Proof.
  intros Hr Hs.
  destruct (file req) as [f|] eqn:Hf.
  2:{ rewrite (analyze_food_no_file model req d Hf) in Hr.
      injection Hr as <- _. discriminate. }
  destruct (find_file (path f) d) as [content|] eqn:Hd.
  2:{ rewrite (analyze_food_no_upload model req f d Hf Hd) in Hr.
      injection Hr as <- _. discriminate. }
  destruct (model (mkGenerate PROMPT content (sent_mimetype f)))
    as [|[raw|e]] eqn:Hm.
  - rewrite (analyze_food_rejected model req f content d Hf Hd Hm) in Hr.
    injection Hr as <- _. discriminate.
  - rewrite (analyze_food_resolved model req f content raw d Hf Hd Hm) in Hr.
    injection Hr as <- _.
    destruct (bind_result (extractJSON raw) safeJSONParse)
      as [parsed|e] eqn:Hp; [|left; reflexivity].
    destruct (foods_on_path raw parsed Hp) as (items & Hn).
    destruct (reduce add_calories items Number.zero) as [sum|e] eqn:Hsum.
    + right. exists raw, parsed, items, sum.
      rewrite (aggregate_items parsed items sum Hn Hsum).
      repeat split; assumption.
    + exfalso. unfold aggregate in Hs. rewrite Hn in Hs.
      cbn [bind_result] in Hs. rewrite Hsum in Hs. discriminate.
  - rewrite (analyze_food_no_text model req f content e d Hf Hd Hm) in Hr.
    injection Hr as <- _. discriminate.
Qed.

(** * The claims *)

(** C1: a [calories] that is not numeric is not counted as 0.  The string
    ["abc"] is truthy, [Number("abc")] is [NaN], and the total of the
    response is [NaN], where the specification's total is 0.  On the
    sample with a missing field the total is 70 and the model's own total
    is ignored. *)
Theorem non_numeric_calories_give_nan :
  let req := mkRequest (Some (mkUpload "uploads/3f9a" (lit "image/png"))) in
  let d := [("uploads/3f9a"%string, lit "aGVsbG8=")] in
  let item := Obj [(lit "name", Str (lit "rice")); (key_calories, Str (lit "abc"))] in
  fst (analyze_food
         (fun _ => Resolves (Ok (dq "{'foods':[{'name':'rice','calories':'abc'}]}")))
         req d) =
    Ok (json [ (key_foods, Arr [item]); (key_total_calories, Num Number.NaN) ]) /\
  expected_total [item] = Number.zero /\
  fst (analyze_food
         (fun _ => Resolves (Ok (dq
            "{'foods':[{'name':'rice'},{'name':'egg','calories':70}],'total_calories':999}")))
         req d) =
    Ok (json [ (key_foods,
                Arr [ Obj [(lit "name", Str (lit "rice"))];
                      Obj [(lit "name", Str (lit "egg"));
                           (key_calories, Num (Number.of_Z 70))] ]);
               (key_total_calories, Num (Number.of_Z 70)) ]).
Proof. repeat split; vm_compute; reflexivity. Qed.

(** C2, as amended.  [safeJSONParse] returns what the strict parse returns
    when it succeeds; otherwise it parses once more, strictly, the text from
    which every comma that stands before a closing brace or bracket, white
    space apart, has been removed together with that white space, and the
    outcome of this second parse is the outcome of the call.  The sample
    text with three trailing commas parses to the value of the same text
    without them. *)
Theorem safeJSONParse_single_repair (text : jsstring) :
  safeJSONParse text =
    match JSON.parse text with
    | Ok v => Ok v
    | Throw _ => JSON.parse (without_trailing_commas_ws text)
    end /\
  (exists v,
     safeJSONParse
       (dq "{'foods': [{'name':'apple','calories':95,},],'total_calories':95,}")
     = Ok v /\
     JSON.parse
       (dq "{'foods': [{'name':'apple','calories':95}],'total_calories':95}")
     = Ok v).
Proof.
  split.
  - unfold safeJSONParse. destruct (JSON.parse text); [reflexivity|].
    now rewrite repair_spec.
  - eexists. split; vm_compute; reflexivity.
Qed.

(** C2 as stated fails: on a comma followed by a space and a closing
    bracket inside a string literal the source also drops the space, so the
    value differs from the one the comma-only removal gives. *)
Lemma safeJSONParse_comma_only_counterexample :
  let text := dq "{'a':'x, ]',}" in
  JSON.parse text = Throw SyntaxError /\
  safeJSONParse text = Ok (Obj [(lit "a", Str (lit "x]"))]) /\
  JSON.parse (without_trailing_commas text) = Ok (Obj [(lit "a", Str (lit "x ]"))]) /\
  safeJSONParse text <>
    match JSON.parse text with
    | Ok v => Ok v
    | Throw _ => JSON.parse (without_trailing_commas text)
    end.
Proof.
  intros text. repeat split; try (vm_compute; reflexivity).
  vm_compute. discriminate.
Qed.



(** C4. When the model has answered and its text cannot be extracted or
    parsed, the handler answers 200 with no foods, a zero total and a
    warning that is not empty. *)
Theorem unparseable_text_degrades (model : generate_request -> upstream)
        (req : request) (f : upload) (content raw : jsstring) (d : disk) :
  file req = Some f ->
  find_file (path f) d = Some content ->
  model (mkGenerate PROMPT content (sent_mimetype f)) = Resolves (Ok raw) ->
  ((exists e, extractJSON raw = Throw e) \/
   (exists jsonText e, extractJSON raw = Ok jsonText /\
                       safeJSONParse jsonText = Throw e)) ->
  exists warning,
    fst (analyze_food model req d) =
      Ok (mkResponse 200 (Obj [ (key_foods, Arr []);
                                (key_total_calories, Num Number.zero);
                                (key_warning, Str warning) ])) /\
    warning <> [].
Proof.
  intros Hf Hd Hm Hfail.
  rewrite (analyze_food_resolved model req f content raw d Hf Hd Hm).
  exists (lit "Invalid model response"). split; [|discriminate].
  destruct Hfail as [(e & E)|(j & e & E & E')].
  - now rewrite E.
  - rewrite E. cbn [bind_result]. now rewrite E'.
Qed.

Lemma unparseable_text_degrades_witness :
  let raw := lit "I cannot determine the contents." in
  let req := mkRequest (Some (mkUpload "uploads/3f9a" (lit "image/png"))) in
  let d := [("uploads/3f9a"%string, lit "aGVsbG8=")] in
  (exists e, extractJSON raw = Throw e) /\
  exists warning,
    fst (analyze_food (fun _ => Resolves (Ok raw)) req d) =
      Ok (mkResponse 200 (Obj [ (key_foods, Arr []);
                                (key_total_calories, Num Number.zero);
                                (key_warning, Str warning) ])) /\
    warning <> [].
Proof.
  intros raw req d.
  assert (exists e, extractJSON raw = Throw e) as H.
  { eexists. vm_compute. reflexivity. }
  split; [exact H|].
  apply (unparseable_text_degrades (fun _ => Resolves (Ok raw)) req
           (mkUpload "uploads/3f9a" (lit "image/png")) (lit "aGVsbG8=") raw d);
    [reflexivity | reflexivity | reflexivity | left; exact H].
Defined.

(** C5: a [null] among the foods makes the aggregation throw.  Reading
    [f.calories] on [null] is a [TypeError]; the handler's outer [catch]
    turns it into a 500.  A [foods] that is not an array is replaced by the
    empty array, as the claim says. *)
Theorem null_item_throws :
  let req := mkRequest (Some (mkUpload "uploads/3f9a" (lit "image/png"))) in
  let d := [("uploads/3f9a"%string, lit "aGVsbG8=")] in
  safeJSONParse (dq "{'foods':[null]}") = Ok (Obj [(key_foods, Arr [Null])]) /\
  aggregate (Obj [(key_foods, Arr [Null])]) = Throw TypeError /\
  fst (analyze_food (fun _ => Resolves (Ok (dq "{'foods':[null]}"))) req d) =
    Ok (status_json 500 [ (key_error, Str (lit "Failed to analyze image")) ]) /\
  aggregate (Obj [(key_foods, Str (lit "none"))]) =
    Ok (json [ (key_foods, Arr []); (key_total_calories, Num Number.zero) ]).
Proof. repeat split; vm_compute; reflexivity. Qed.

(** C6: the upload outlives a rejected model call.  With the image on disk
    and the model call rejecting, the handler answers 500 and the
    directory is as it was: [unlinkSync] is not reached. *)
Theorem rejected_call_leaves_upload :
  let req := mkRequest (Some (mkUpload "uploads/3f9a" (lit "image/png"))) in
  let d := [("uploads/3f9a"%string, lit "aGVsbG8=")] in
  analyze_food (fun _ => Rejects) req d =
    (Ok (status_json 500 [ (key_error, Str (lit "Failed to analyze image")) ]), d) /\
  find_file "uploads/3f9a" (snd (analyze_food (fun _ => Rejects) req d))
    = Some (lit "aGVsbG8=").
Proof. split; vm_compute; reflexivity. Qed.

(** C7, as amended.  Whenever the handler answers 200, the total of the
    answer is [Math.round] of the sum that the reduction over the foods of
    the answer gives.  When that sum is finite and not zero, the total is a
    finite Number, the integer nearest to the sum, a tie going to the
    larger integer (which is away from zero only when the sum is not
    negative); a zero, an infinite or an undefined sum is returned as it
    is.  Items of 100.2 and 20.2, which sum to 120.4, give 120; items of 100
    and 20.5, which sum to 120.5, give 121; items of 1e308 and 1e308 give
    the infinity. *)
Theorem total_rounds_half_up :
  (forall (model : generate_request -> upstream) (req : request)
          (d d' : disk) (r : response),
     analyze_food model req d = (Ok r, d') ->
     status r = 200 ->
     exists items sum rest,
       body r = Obj ((key_foods, Arr items)
                       :: (key_total_calories, Num (Number.round sum)) :: rest) /\
       reduce add_calories items Number.zero = Ok sum /\
       match sum with
       | S754_finite _ _ _ =>
           let n := round_half_up (to_Q sum) in
           (inject_Z n - (1 # 2) <= to_Q sum)%Q /\
           (to_Q sum < inject_Z n + (1 # 2))%Q /\
           is_finite (Number.round sum) = true /\
           (to_Q (Number.round sum) == inject_Z n)%Q
       | _ => Number.round sum = sum
       end) /\
  (exists foods,
     bind_result (safeJSONParse (dq "{'foods':[{'calories':100.2},{'calories':20.2}]}"))
                 aggregate
     = Ok (json [ (key_foods, foods); (key_total_calories, Num (Number.of_Z 120)) ])) /\
  (exists foods,
     bind_result (safeJSONParse (dq "{'foods':[{'calories':100},{'calories':20.5}]}"))
                 aggregate
     = Ok (json [ (key_foods, foods); (key_total_calories, Num (Number.of_Z 121)) ])) /\
  (exists foods,
     bind_result (safeJSONParse (dq "{'foods':[{'calories':1e308},{'calories':1e308}]}"))
                 aggregate
     = Ok (json [ (key_foods, foods);
                  (key_total_calories, Num (Number.Infinity false)) ])).
Proof.
  split; [|repeat split; eexists; vm_compute; reflexivity].
  intros model req d d' r Hr Hs.
  destruct (analyze_food_200 model req d d' r Hr Hs)
    as [->|(raw & parsed & items & sum & Hp & Hn & Hsum & ->)].
  - exists [], Number.zero, [ (key_warning, Str (lit "Invalid model response")) ].
    repeat split.
  - exists items, sum, []. split; [reflexivity|]. split; [exact Hsum|].
    pose proof (sum_binary64 raw parsed items sum Hp Hn Hsum) as Hb.
    destruct sum as [z|i| |s m e]; try reflexivity.
    cbv zeta. pose proof (round_half_up_spec (to_Q (S754_finite s m e))) as [H1 H2].
    cbn [binary64] in Hb. apply Z.leb_le in Hb.
    repeat split; try assumption.
    + exact (round_finite s m e Hb).
    + exact (round_value s m e Hb).
Qed.

Lemma total_rounds_half_up_witness :
  (analyze_food (fun _ => Resolves (Ok (dq "{'foods':[{'calories':-2.5}]}")))
     (mkRequest (Some (mkUpload "uploads/3f9a" (lit "image/png"))))
     [("uploads/3f9a"%string, lit "aGVsbG8=")]
   = (Ok (json [ (key_foods,
                  Arr [Obj [(key_calories, Num (Number.of_decimal true 25 (-1)))]]);
                 (key_total_calories, Num (Number.of_Z (-2))) ]),
      []) /\
   status (json [ (key_foods,
                   Arr [Obj [(key_calories, Num (Number.of_decimal true 25 (-1)))]]);
                  (key_total_calories, Num (Number.of_Z (-2))) ]) = 200) /\
  exists items sum rest,
    body (json [ (key_foods,
                  Arr [Obj [(key_calories, Num (Number.of_decimal true 25 (-1)))]]);
                 (key_total_calories, Num (Number.of_Z (-2))) ])
    = Obj ((key_foods, Arr items)
             :: (key_total_calories, Num (Number.round sum)) :: rest) /\
    reduce add_calories items Number.zero = Ok sum /\
    match sum with
    | S754_finite _ _ _ =>
        let n := round_half_up (to_Q sum) in
        (inject_Z n - (1 # 2) <= to_Q sum)%Q /\
        (to_Q sum < inject_Z n + (1 # 2))%Q /\
        is_finite (Number.round sum) = true /\
        (to_Q (Number.round sum) == inject_Z n)%Q
    | _ => Number.round sum = sum
    end.
Proof.
  assert (Hr : analyze_food
                 (fun _ => Resolves (Ok (dq "{'foods':[{'calories':-2.5}]}")))
                 (mkRequest (Some (mkUpload "uploads/3f9a" (lit "image/png"))))
                 [("uploads/3f9a"%string, lit "aGVsbG8=")]
               = (Ok (json [ (key_foods,
                              Arr [Obj [(key_calories,
                                         Num (Number.of_decimal true 25 (-1)))]]);
                             (key_total_calories, Num (Number.of_Z (-2))) ]),
                  [])).
  { vm_compute. reflexivity. }
  split; [split; [exact Hr|reflexivity]|].
  exact (proj1 total_rounds_half_up
           (fun _ => Resolves (Ok (dq "{'foods':[{'calories':-2.5}]}")))
           (mkRequest (Some (mkUpload "uploads/3f9a" (lit "image/png"))))
           [("uploads/3f9a"%string, lit "aGVsbG8=")] [] _ Hr eq_refl).
Defined.

(** C7 as stated fails on a negative tie: a sum of -2.5 gives -2, where
    rounding the tie away from zero gives -3. *)
Lemma ties_away_from_zero_counterexample :
  let items := [Obj [(key_calories, Num (Number.of_decimal true 25 (-1)))]] in
  let sum := Number.of_decimal true 25 (-1) in
  JSON.parse (dq "{'foods':[{'calories':-2.5}]}") = Ok (Obj [(key_foods, Arr items)]) /\
  reduce add_calories items Number.zero = Ok sum /\
  (to_Q sum == - (5 # 2))%Q /\
  aggregate (Obj [(key_foods, Arr items)]) =
    Ok (json [ (key_foods, Arr items); (key_total_calories, Num (Number.of_Z (-2))) ]) /\
  round_half_away (to_Q sum) = (-3)%Z /\
  Number.of_Z (-2) <> integer_number true (round_half_away (to_Q sum)).
Proof.
  intros items sum. repeat split; try (vm_compute; reflexivity).
  vm_compute. discriminate.
Qed.

(** C8. When the cleaned text has no opening brace with a closing brace
    after it, [extractJSON] throws [Error("No JSON found")]. *)
Theorem extractJSON_no_braces (text : jsstring) :
  ~ has_braces (cleaned text) ->
  extractJSON text = Throw (Error "No JSON found").
Proof.
  intros H.
  destruct (extractJSON_cases text) as [[E _]|(r & _ & Hspan)]; [exact E|].
  exfalso. apply H.
  destruct Hspan as (pre & mid & post & Hs & -> & _).
  exists pre, mid, post. rewrite Hs. simpl. now rewrite <- app_assoc.
Qed.

Lemma extractJSON_no_braces_witness :
  let text := lit "I cannot determine the contents." in
  ~ has_braces (cleaned text) /\
  extractJSON text = Throw (Error "No JSON found").
Proof.
  intros text.
  assert (~ has_braces (cleaned text)) as H.
  { apply has_bracesb_spec. vm_compute. reflexivity. }
  split; [exact H | exact (extractJSON_no_braces text H)].
Defined.

(** C9. The repair is textual, not syntax-aware: a comma that stands
    right before a closing brace or bracket is removed whatever precedes
    it, an opening quote included.  On [{"a":"x,]",}] the strict parse
    fails, the repair also removes the comma inside the string literal,
    and the second parse succeeds with ["x]"] for the field [a], where the
    literal of the text reads ["x,]"]. *)
Theorem repair_reaches_into_strings :
  (forall (pre : jsstring) (c : code_unit) (post : jsstring),
     ~ In Chr.COMMA pre ->
     is_closer c = true ->
     replace TRAILING_COMMA [Ref 1] (pre ++ Chr.COMMA :: c :: post) =
     pre ++ c :: replace TRAILING_COMMA [Ref 1] post) /\
  (let text := dq "{'a':'x,]',}" in
   JSON.parse text = Throw SyntaxError /\
   replace TRAILING_COMMA [Ref 1] text = dq "{'a':'x]'}" /\
   safeJSONParse text = Ok (Obj [(lit "a", Str (lit "x]"))]) /\
   JSON.parse (dq "{'a':'x,]'}") = Ok (Obj [(lit "a", Str (lit "x,]"))])).
Proof.
  split.
  - intros pre c post Hpre Hc.
    rewrite !repair_spec, (repair_keeps_prefix pre _ Hpre).
    now rewrite (repair_comma_closer c post Hc).
  - repeat split; vm_compute; reflexivity.
Qed.

Lemma repair_reaches_into_strings_witness :
  let pre := dq "{'a':'x" in
  let post := dq "',}" in
  ~ In Chr.COMMA pre /\
  is_closer Chr.RBRACKET = true /\
  replace TRAILING_COMMA [Ref 1] (pre ++ Chr.COMMA :: Chr.RBRACKET :: post) =
  pre ++ Chr.RBRACKET :: replace TRAILING_COMMA [Ref 1] post.
Proof.
  intros pre post.
  assert (~ In Chr.COMMA pre) as Hpre.
  { intros H. vm_compute in H.
    repeat (destruct H as [H|H]; [discriminate H|]). exact H. }
  split; [exact Hpre|]. split; [reflexivity|].
  exact (proj1 repair_reaches_into_strings pre Chr.RBRACKET post Hpre eq_refl).
Defined.

(** C10. A string returned by [extractJSON] is not empty, starts with an
    opening brace and ends with a closing brace. *)
Theorem extractJSON_braced (text r : jsstring) :
  extractJSON text = Ok r ->
  r <> [] /\ hd_error r = Some Chr.LBRACE /\ hd_error (rev r) = Some Chr.RBRACE.
Proof.
  intros H.
  destruct (extractJSON_cases text) as [[E _]|(r' & E & Hspan)]; [congruence|].
  rewrite H in E. inversion E; subst r'.
  destruct Hspan as (_ & mid & _ & _ & -> & _).
  repeat split; [discriminate|].
  change (Chr.LBRACE :: mid ++ [Chr.RBRACE])
    with ((Chr.LBRACE :: mid) ++ [Chr.RBRACE]).
  now rewrite rev_app_distr.
Qed.

Lemma extractJSON_braced_witness :
  let text := dq "Sure! ```json
{'foods':[]} ``` (estimates)" in
  let r := dq "{'foods':[]}" in
  extractJSON text = Ok r /\
  r <> [] /\ hd_error r = Some Chr.LBRACE /\ hd_error (rev r) = Some Chr.RBRACE.
Proof.
  intros text r.
  assert (extractJSON text = Ok r) as H by (vm_compute; reflexivity).
  split; [exact H | exact (extractJSON_braced text r H)].
Defined.


(** * Further properties *)

(** ** The extractor *)

Lemma cleaned_fence_free (text : jsstring) :
  ~ occurs (lit "```") (cleaned text).
Proof.
  intros Hocc.
  pose proof (fence_gone (replace FENCE_JSON [] text)) as Hgone.
  fold (unfenced text) in Hgone.
  destruct (trim_split (unfenced text)) as (l & r & Heq & _ & _).
  assert (Hin : occurs (lit "```") (unfenced text)).
  { rewrite Heq. apply occurs_inside. exact Hocc. }
  apply occursb_spec in Hin. congruence.
Qed.

Lemma span_fence_free (s r : jsstring) :
  brace_span s r -> ~ occurs (lit "```") s -> occursb (lit "```") r = false.
Proof.
  intros (pre & mid & post & Hs & _ & _ & _) Hno.
  destruct (occursb (lit "```") r) eqn:E; [|reflexivity].
  exfalso. apply Hno. rewrite Hs. apply occurs_inside.
  apply occursb_spec. exact E.
Qed.

Lemma extractJSON_whole (mid : jsstring) :
  occursb (lit "```") (Chr.LBRACE :: mid ++ [Chr.RBRACE]) = false ->
  extractJSON (Chr.LBRACE :: mid ++ [Chr.RBRACE]) =
  Ok (Chr.LBRACE :: mid ++ [Chr.RBRACE]).
Proof.
  intros Hno. unfold extractJSON, cleaned.
  rewrite (unfenced_id _ Hno).
  rewrite (trim_id _ (braced_tight mid)).
  rewrite (search_braces_whole mid). reflexivity.
Qed.

Lemma blank_no_brace (l : jsstring) :
  blank l -> ~ In Chr.LBRACE l /\ ~ In Chr.RBRACE l.
Proof.
  intros Hl. unfold blank in Hl. rewrite Forall_forall in Hl.
  split; intros Hin; apply Hl in Hin; vm_compute in Hin; discriminate.
Qed.

Lemma brace_span_lift (l s r x : jsstring) :
  blank l -> blank r -> brace_span s x -> brace_span (l ++ s ++ r) x.
Proof.
  intros Hl Hr (pre & mid & post & Hs & Hx & Hpre & Hpost).
  exists (l ++ pre), mid, (post ++ r). repeat split.
  - rewrite Hs, <- !app_assoc. reflexivity.
  - exact Hx.
  - intros Hin. apply in_app_or in Hin. destruct Hin as [Hin|Hin].
    + apply (proj1 (blank_no_brace l Hl)). exact Hin.
    + apply Hpre. exact Hin.
  - intros Hin. apply in_app_or in Hin. destruct Hin as [Hin|Hin].
    + apply Hpost. exact Hin.
    + apply (proj2 (blank_no_brace r Hr)). exact Hin.
Qed.

Lemma has_bracesb_true (s : jsstring) :
  has_bracesb s = true -> has_braces s.
Proof.
  induction s as [|c t IH]; simpl; [discriminate|].
  intros H. apply orb_true_iff in H. destruct H as [H|H].
  - apply andb_true_iff in H. destruct H as [Hc Hex].
    apply N.eqb_eq in Hc. subst c.
    apply existsb_exists in Hex. destruct Hex as (y & Hin & Hy).
    apply N.eqb_eq in Hy. subst y.
    apply in_split in Hin. destruct Hin as (mid & post & ->).
    exists [], mid, post. reflexivity.
  - destruct (IH H) as (pre & mid & post & ->).
    exists (c :: pre), mid, post. reflexivity.
Qed.

Lemma existsb_blank (r : jsstring) :
  blank r -> existsb (N.eqb Chr.RBRACE) r = false.
Proof.
  intros Hr. destruct (existsb (N.eqb Chr.RBRACE) r) eqn:E; [|reflexivity].
  apply existsb_exists in E. destruct E as (y & Hin & Hy).
  apply N.eqb_eq in Hy. subst y.
  exfalso. exact (proj2 (blank_no_brace r Hr) Hin).
Qed.

Lemma has_bracesb_blank_l (l s : jsstring) :
  blank l -> has_bracesb (l ++ s) = has_bracesb s.
Proof.
  induction 1 as [|c l Hc _ IH]; simpl; [reflexivity|].
  rewrite IH.
  assert (E : N.eqb c Chr.LBRACE = false).
  { destruct (N.eqb c Chr.LBRACE) eqn:E; [|reflexivity].
    apply N.eqb_eq in E. subst c. vm_compute in Hc. discriminate. }
  rewrite E. reflexivity.
Qed.

Lemma has_bracesb_blank (r : jsstring) :
  blank r -> has_bracesb r = false.
Proof.
  intros Hr. rewrite <- (app_nil_r r). rewrite (has_bracesb_blank_l r [] Hr).
  reflexivity.
Qed.

Lemma has_bracesb_blank_r (s r : jsstring) :
  blank r -> has_bracesb (s ++ r) = has_bracesb s.
Proof.
  intros Hr. induction s as [|c t IH].
  - apply has_bracesb_blank. exact Hr.
  - change ((c :: t) ++ r) with (c :: (t ++ r)). cbn [has_bracesb].
    rewrite IH, existsb_app.
    unfold code_unit in *.
    rewrite (existsb_blank r Hr), orb_false_r. reflexivity.
Qed.

Lemma has_braces_trimmed (s : jsstring) :
  has_braces s -> has_braces (trim s).
Proof.
  intros H. apply has_bracesb_true.
  destruct (trim_split s) as (l & r & Heq & Hl & Hr).
  destruct (has_bracesb s) eqn:E.
  - rewrite Heq in E.
    rewrite (has_bracesb_blank_l l _ Hl), (has_bracesb_blank_r _ r Hr) in E.
    exact E.
  - exfalso. exact (has_bracesb_spec s E H).
Qed.

Lemma erased_length (w s s' : jsstring) :
  erased w s s' -> length s' <= length s.
Proof.
  induction 1; simpl; try lia. rewrite length_app. lia.
Qed.

Lemma cleaned_length (text : jsstring) :
  length (cleaned text) <= length text.
Proof.
  unfold cleaned, unfenced.
  pose proof (erased_length _ _ _ (erased_replace 96%N (lit "``json") text)) as H1.
  pose proof (erased_length _ _ _
                (erased_replace 96%N (lit "``")
                   (replace FENCE_JSON [] text))) as H2.
  change (literally (96%N :: lit "``json")) with FENCE_JSON in H1.
  change (literally (96%N :: lit "``json")) with FENCE_JSON in H2.
  change (literally (96%N :: lit "``")) with FENCE in H2.
  destruct (trim_split (replace FENCE [] (replace FENCE_JSON [] text)))
    as (l & r & Heq & _ & _).
  apply (f_equal (@length code_unit)) in Heq.
  rewrite !length_app in Heq. lia.
Qed.

(** X1. Extraction is idempotent: what [extractJSON] returns it returns
    unchanged when applied to it again. *)
Theorem extractJSON_idempotent (text r : jsstring) :
  extractJSON text = Ok r -> extractJSON r = Ok r.
Proof.
  intros H.
  destruct (extractJSON_cases text) as [[Hthrow _]|(r' & Hok & Hspan)];
    [congruence|].
  assert (r' = r) by congruence. subst r'.
  pose proof (span_fence_free _ _ Hspan (cleaned_fence_free text)) as Hno.
  destruct Hspan as (pre & mid & post & _ & Hr & _ & _). subst r.
  apply extractJSON_whole. exact Hno.
Qed.

Lemma extractJSON_idempotent_witness :
  extractJSON (dq "Sure: ```json {'foods': []} ``` done")
    = Ok (dq "{'foods': []}") /\
  extractJSON (dq "{'foods': []}") = Ok (dq "{'foods': []}").
Proof.
  split; [vm_compute; reflexivity|].
  apply (extractJSON_idempotent (dq "Sure: ```json {'foods': []} ``` done")).
  vm_compute. reflexivity.
Defined.

(** X2. On a text without a fence marker, surrounding prose and white space
    do not matter: [extractJSON] returns the part of the text itself from
    its first opening brace through its last closing brace, so that a brace
    in the prose after the object is taken into the result. *)
Theorem extractJSON_span_of_text (text j : jsstring) :
  occursb (lit "```") text = false ->
  brace_span text j ->
  extractJSON text = Ok j.
Proof.
  intros Hno Hspan.
  assert (Hclean : cleaned text = trim text).
  { unfold cleaned. rewrite (unfenced_id text Hno). reflexivity. }
  destruct (extractJSON_cases text) as [[_ Hnone]|(r & Hok & Hr)].
  - exfalso. apply Hnone. rewrite Hclean. apply has_braces_trimmed.
    exact (span_has_braces _ _ Hspan).
  - rewrite Hok. f_equal.
    rewrite Hclean in Hr.
    destruct (trim_split text) as (l & rr & Heq & Hl & Hrr).
    apply (brace_span_unique text); [|exact Hspan].
    rewrite Heq at 1. apply brace_span_lift; assumption.
Qed.

Lemma extractJSON_span_of_text_witness :
  (occursb (lit "```") (dq " Here {'a': 1} and a set {x}. ") = false /\
   brace_span (dq " Here {'a': 1} and a set {x}. ")
              (dq "{'a': 1} and a set {x}")) /\
  extractJSON (dq " Here {'a': 1} and a set {x}. ")
    = Ok (dq "{'a': 1} and a set {x}").
Proof.
  assert (Hspan : brace_span (dq " Here {'a': 1} and a set {x}. ")
                             (dq "{'a': 1} and a set {x}")).
  { exists (dq " Here "), (dq "'a': 1} and a set {x"), (dq ". ").
    repeat split; try reflexivity;
      vm_compute; intros H; repeat (destruct H as [H|H]; [discriminate|]);
      exact H. }
  split; [split; [reflexivity|exact Hspan]|].
  apply extractJSON_span_of_text; [reflexivity|exact Hspan].
Defined.

(** X3. [extractJSON] adds nothing: its result is never longer than the
    text it was given, and holds no fence marker. *)
Theorem extractJSON_shrinks (text r : jsstring) :
  extractJSON text = Ok r ->
  length r <= length text /\ ~ occurs (lit "```") r.
Proof.
  intros H.
  destruct (extractJSON_cases text) as [[Hthrow _]|(r' & Hok & Hspan)];
    [congruence|].
  assert (r' = r) by congruence. subst r'.
  split.
  - pose proof (cleaned_length text) as Hlen.
    destruct Hspan as (pre & mid & post & Hs & _ & _ & _).
    apply (f_equal (@length code_unit)) in Hs.
    rewrite !length_app in Hs. lia.
  - intros Hocc. apply occursb_spec in Hocc.
    rewrite (span_fence_free _ _ Hspan (cleaned_fence_free text)) in Hocc.
    discriminate.
Qed.

Lemma extractJSON_shrinks_witness :
  extractJSON (dq "```json{'a': '```'}```") = Ok (dq "{'a': ''}") /\
  length (dq "{'a': ''}") <= length (dq "```json{'a': '```'}```") /\
  ~ occurs (lit "```") (dq "{'a': ''}").
Proof.
  split; [vm_compute; reflexivity|].
  apply (extractJSON_shrinks (dq "```json{'a': '```'}```")).
  vm_compute. reflexivity.
Defined.

Lemma after_other (b x : code_unit) (w t : jsstring) :
  x <> b -> after (b :: w) (x :: t) = None.
Proof.
  intros Hx. simpl. destruct (N.eqb x b) eqn:E; [|reflexivity].
  apply N.eqb_eq in E. contradiction.
Qed.

Lemma replace_skip (b : code_unit) (w : jsstring) (x : code_unit) (t : jsstring) :
  after (b :: w) (x :: t) = None ->
  replace (literally (b :: w)) [] (x :: t) =
  x :: replace (literally (b :: w)) [] t.
Proof. intros H. rewrite replace_literal_step, H. reflexivity. Qed.

Lemma replace_keeps_free (b : code_unit) (w s u : jsstring) :
  ~ In b s ->
  replace (literally (b :: w)) [] (s ++ u) =
  s ++ replace (literally (b :: w)) [] u.
Proof.
  induction s as [|x t IH]; intros Hs; [reflexivity|].
  change ((x :: t) ++ u) with (x :: (t ++ u)).
  rewrite replace_literal_step, after_other.
  - rewrite IH; [reflexivity|]. intros Hin. apply Hs. right. exact Hin.
  - intros ->. apply Hs. left. reflexivity.
Qed.

Lemma trim_padded (l r mid : jsstring) :
  blank l -> blank r ->
  trim (l ++ (Chr.LBRACE :: mid ++ [Chr.RBRACE]) ++ r) =
  Chr.LBRACE :: mid ++ [Chr.RBRACE].
Proof.
  intros Hl Hr. unfold trim, trimEnd.
  rewrite (trimStart_blank l _ Hl).
  change ((Chr.LBRACE :: mid ++ [Chr.RBRACE]) ++ r)
    with (Chr.LBRACE :: ((mid ++ [Chr.RBRACE]) ++ r)).
  rewrite trimStart_id by reflexivity.
  change (Chr.LBRACE :: ((mid ++ [Chr.RBRACE]) ++ r))
    with ((Chr.LBRACE :: mid ++ [Chr.RBRACE]) ++ r).
  rewrite rev_app_distr.
  rewrite (trimStart_blank (rev r) _ (blank_rev r Hr)).
  change (Chr.LBRACE :: mid ++ [Chr.RBRACE])
    with ((Chr.LBRACE :: mid) ++ [Chr.RBRACE]).
  rewrite rev_app_distr.
  change (rev [Chr.RBRACE] ++ rev (Chr.LBRACE :: mid))
    with (Chr.RBRACE :: rev (Chr.LBRACE :: mid)).
  rewrite trimStart_id by reflexivity.
  change (Chr.RBRACE :: rev (Chr.LBRACE :: mid))
    with (rev [Chr.RBRACE] ++ rev (Chr.LBRACE :: mid)).
  rewrite <- rev_app_distr. apply rev_involutive.
Qed.

Lemma blank_no_backtick (l : jsstring) : blank l -> ~ In Chr.BACKTICK l.
Proof.
  intros Hl Hin. unfold blank in Hl. rewrite Forall_forall in Hl.
  apply Hl in Hin. vm_compute in Hin. discriminate.
Qed.

Lemma padded_no_backtick (l r mid : jsstring) :
  blank l -> blank r -> ~ In Chr.BACKTICK mid ->
  ~ In Chr.BACKTICK (l ++ (Chr.LBRACE :: mid ++ [Chr.RBRACE]) ++ r).
Proof.
  intros Hl Hr Hmid Hin.
  apply in_app_or in Hin. destruct Hin as [Hin|Hin];
    [exact (blank_no_backtick l Hl Hin)|].
  apply in_app_or in Hin. destruct Hin as [Hin|Hin];
    [|exact (blank_no_backtick r Hr Hin)].
  destruct Hin as [Hin|Hin]; [discriminate|].
  apply in_app_or in Hin. destruct Hin as [Hin|[Hin|[]]];
    [exact (Hmid Hin)|discriminate].
Qed.

(** A text whose fences are one at its start, tagged or not, and one at
    its end, loses exactly these. *)
Lemma unfenced_block (s : jsstring) (h : code_unit) (t : jsstring) :
  s = h :: t -> h <> 106%N -> ~ In Chr.BACKTICK s ->
  unfenced (lit "```json" ++ s ++ lit "```") = s /\
  unfenced (lit "```" ++ s ++ lit "```") = s.
Proof.
  intros Hs Hj Hfree.
  assert (Hh : h <> Chr.BACKTICK).
  { intros ->. apply Hfree. rewrite Hs. left. reflexivity. }
  assert (Hclose_json : replace FENCE_JSON [] (s ++ lit "```") = s ++ lit "```").
  { unfold FENCE_JSON. change (lit "```json") with (Chr.BACKTICK :: lit "``json").
    rewrite (replace_keeps_free _ _ _ _ Hfree). reflexivity. }
  assert (Hclose : replace FENCE [] (s ++ lit "```") = s).
  { unfold FENCE. change (lit "```") with (Chr.BACKTICK :: lit "``") at 1.
    rewrite (replace_keeps_free _ _ _ _ Hfree).
    change (replace (literally (Chr.BACKTICK :: lit "``")) [] (lit "```"))
      with (@nil code_unit).
    apply app_nil_r. }
  unfold unfenced. split.
  - assert (replace FENCE_JSON [] (lit "```json" ++ s ++ lit "```")
            = replace FENCE_JSON [] (s ++ lit "```")) as ->.
    { unfold FENCE_JSON.
      change (lit "```json") with (Chr.BACKTICK :: lit "``json").
      rewrite replace_literal_step, after_self. reflexivity. }
    rewrite Hclose_json. exact Hclose.
  - assert (replace FENCE_JSON [] (lit "```" ++ s ++ lit "```")
            = lit "```" ++ s ++ lit "```") as ->.
    { rewrite <- Hclose_json at 2. subst s.
      assert (E96 : N.eqb h 96 = false).
      { apply N.eqb_neq. exact Hh. }
      assert (E106 : N.eqb h 106 = false).
      { apply N.eqb_neq. exact Hj. }
      unfold FENCE_JSON.
      change (lit "```json") with (Chr.BACKTICK :: lit "``json").
      change (lit "```" ++ (h :: t) ++ lit "```")
        with (96%N :: 96%N :: 96%N :: (h :: t) ++ lit "```").
      rewrite (replace_skip Chr.BACKTICK (lit "``json") 96%N)
        by (cbn; rewrite E106; reflexivity).
      rewrite (replace_skip Chr.BACKTICK (lit "``json") 96%N)
        by (cbn; rewrite E96; reflexivity).
      rewrite (replace_skip Chr.BACKTICK (lit "``json") 96%N)
        by (cbn; rewrite E96; reflexivity).
      reflexivity. }
    assert (replace FENCE [] (lit "```" ++ s ++ lit "```")
            = replace FENCE [] (s ++ lit "```")) as ->.
    { unfold FENCE. change (lit "```") with (Chr.BACKTICK :: lit "``") at 1 3.
      rewrite replace_literal_step, after_self. reflexivity. }
    exact Hclose.
Qed.

(** X4. A fenced block is unwrapped: for an object text without a
    backtick, set between an opening fence (tagged [json] or bare) and a
    closing fence, with any white space around it, [extractJSON] returns
    exactly the object text. *)
Theorem extractJSON_fenced_block (ws1 ws2 mid : jsstring) :
  blank ws1 -> blank ws2 -> ~ In Chr.BACKTICK mid ->
  extractJSON (lit "```json" ++ (ws1 ++ (Chr.LBRACE :: mid ++ [Chr.RBRACE]) ++ ws2)
                 ++ lit "```")
    = Ok (Chr.LBRACE :: mid ++ [Chr.RBRACE]) /\
  extractJSON (lit "```" ++ (ws1 ++ (Chr.LBRACE :: mid ++ [Chr.RBRACE]) ++ ws2)
                 ++ lit "```")
    = Ok (Chr.LBRACE :: mid ++ [Chr.RBRACE]).
Proof.
  intros H1 H2 Hmid.
  pose proof (padded_no_backtick ws1 ws2 mid H1 H2 Hmid) as Hfree.
  assert (Hhead : exists h t,
             ws1 ++ (Chr.LBRACE :: mid ++ [Chr.RBRACE]) ++ ws2 = h :: t /\
             h <> 106%N).
  { destruct H1 as [|c l Hc Hl].
    - exists Chr.LBRACE, ((mid ++ [Chr.RBRACE]) ++ ws2).
      split; [reflexivity|discriminate].
    - exists c, (l ++ (Chr.LBRACE :: mid ++ [Chr.RBRACE]) ++ ws2).
      split; [reflexivity|]. intros ->. vm_compute in Hc. discriminate. }
  destruct Hhead as (h & t & Hs & Hj).
  destruct (unfenced_block _ h t Hs Hj Hfree) as [Htag Hbare].
  unfold extractJSON, cleaned. rewrite Htag, Hbare.
  rewrite (trim_padded ws1 ws2 mid H1 H2).
  rewrite (search_braces_whole mid). split; reflexivity.
Qed.

Lemma extractJSON_fenced_block_witness :
  (blank [Chr.LF] /\ blank [Chr.LF; Chr.SP] /\
   ~ In Chr.BACKTICK (dq "'foods': []")) /\
  extractJSON (lit "```json" ++
                 ([Chr.LF] ++ (Chr.LBRACE :: dq "'foods': []" ++ [Chr.RBRACE])
                    ++ [Chr.LF; Chr.SP]) ++ lit "```")
    = Ok (Chr.LBRACE :: dq "'foods': []" ++ [Chr.RBRACE]) /\
  extractJSON (lit "```" ++
                 ([Chr.LF] ++ (Chr.LBRACE :: dq "'foods': []" ++ [Chr.RBRACE])
                    ++ [Chr.LF; Chr.SP]) ++ lit "```")
    = Ok (Chr.LBRACE :: dq "'foods': []" ++ [Chr.RBRACE]).
Proof.
  assert (Ha : blank [Chr.LF]) by (repeat constructor).
  assert (Hb : blank [Chr.LF; Chr.SP]) by (repeat constructor).
  assert (Hc : ~ In Chr.BACKTICK (dq "'foods': []")).
  { vm_compute. intros H. repeat (destruct H as [H|H]; [discriminate|]).
    exact H. }
  split; [split; [exact Ha|split; [exact Hb|exact Hc]]|].
  exact (extractJSON_fenced_block [Chr.LF] [Chr.LF; Chr.SP]
           (dq "'foods': []") Ha Hb Hc).
Defined.

(** ** The repair *)

Lemma solid_cons (c : code_unit) (t : jsstring) :
  solid (c :: t) =
  if N.eqb c Chr.COMMA || is_white_space c then solid t else c :: solid t.
Proof.
  unfold solid. cbn [filter].
  destruct (N.eqb c Chr.COMMA || is_white_space c); reflexivity.
Qed.

Lemma solid_trimStart (s : jsstring) : solid (trimStart s) = solid s.
Proof.
  induction s as [|c t IH]; [reflexivity|].
  cbn [trimStart]. destruct (is_white_space c) eqn:E; [|reflexivity].
  rewrite IH, solid_cons, E, orb_true_r. reflexivity.
Qed.

Lemma solid_repair (s : jsstring) :
  solid (without_trailing_commas_ws s) = solid s.
Proof.
  induction s as [|c t IH]; [reflexivity|].
  cbn [without_trailing_commas_ws].
  destruct (N.eqb c Chr.COMMA && before_closer t) eqn:E.
  - rewrite solid_trimStart, IH, solid_cons.
    apply andb_true_iff in E. destruct E as [Ec _].
    rewrite Ec. reflexivity.
  - rewrite !solid_cons, IH. reflexivity.
Qed.

Lemma trimStart_length (s : jsstring) : length (trimStart s) <= length s.
Proof.
  induction s as [|c t IH]; cbn [trimStart length]; [lia|].
  destruct (is_white_space c); cbn [length]; lia.
Qed.

Lemma repair_length (s : jsstring) :
  length (without_trailing_commas_ws s) <= length s.
Proof.
  induction s as [|c t IH]; cbn [without_trailing_commas_ws length]; [lia|].
  destruct (N.eqb c Chr.COMMA && before_closer t); cbn [length].
  - pose proof (trimStart_length (without_trailing_commas_ws t)). lia.
  - lia.
Qed.

Lemma repair_nothing (s : jsstring) :
  has_trailing_comma s = false -> without_trailing_commas_ws s = s.
Proof.
  induction s as [|c t IH]; [reflexivity|].
  cbn [has_trailing_comma without_trailing_commas_ws].
  intros H. apply orb_false_iff in H. destruct H as [H1 H2].
  rewrite H1, (IH H2). reflexivity.
Qed.

Lemma repair_something (s : jsstring) :
  has_trailing_comma s = true ->
  length (without_trailing_commas_ws s) < length s.
Proof.
  induction s as [|c t IH]; [discriminate|].
  cbn [has_trailing_comma without_trailing_commas_ws length]. intros H.
  destruct (N.eqb c Chr.COMMA && before_closer t) eqn:E; cbn [length].
  - pose proof (trimStart_length (without_trailing_commas_ws t)).
    pose proof (repair_length t). lia.
  - cbn [orb] in H. specialize (IH H). lia.
Qed.

Lemma has_trailing_comma_app (pre s : jsstring) :
  has_trailing_comma s = true -> has_trailing_comma (pre ++ s) = true.
Proof.
  intros H. induction pre as [|c t IH]; [exact H|].
  change ((c :: t) ++ s) with (c :: (t ++ s)).
  cbn [has_trailing_comma]. rewrite IH. apply orb_true_r.
Qed.

(** X5. The repair deletes commas and white space and nothing else: the
    other characters of the text are the same, in the same order, before
    and after it, and the text does not grow. *)
Theorem repair_only_drops_commas_and_space (text : jsstring) :
  solid (replace TRAILING_COMMA [Ref 1] text) = solid text /\
  length (replace TRAILING_COMMA [Ref 1] text) <= length text.
Proof.
  rewrite repair_spec. split; [apply solid_repair|apply repair_length].
Qed.

(** X6. The repair changes a text exactly when one of its commas stands
    before a closing brace or bracket, white space apart; on any other text
    the second parse of [safeJSONParse] reads the same text as the first,
    and [safeJSONParse] is [JSON.parse]. *)
Theorem repair_changes_iff (text : jsstring) :
  (replace TRAILING_COMMA [Ref 1] text = text <->
   has_trailing_comma text = false) /\
  (has_trailing_comma text = false -> safeJSONParse text = JSON.parse text).
Proof.
  assert (Hid : has_trailing_comma text = false ->
                replace TRAILING_COMMA [Ref 1] text = text).
  { intros H. rewrite repair_spec. apply repair_nothing. exact H. }
  split; [split|].
  - intros Heq. destruct (has_trailing_comma text) eqn:E; [|reflexivity].
    pose proof (repair_something text E) as Hlt.
    rewrite <- repair_spec, Heq in Hlt. lia.
  - exact Hid.
  - intros H. unfold safeJSONParse.
    destruct (JSON.parse text) eqn:E; [reflexivity|].
    cbv zeta. rewrite (Hid H). exact E.
Qed.

Lemma repair_changes_iff_witness :
  has_trailing_comma (dq "{'a': [1, 2] , 'b': }") = false /\
  safeJSONParse (dq "{'a': [1, 2] , 'b': }")
    = JSON.parse (dq "{'a': [1, 2] , 'b': }").
Proof.
  split; [reflexivity|].
  apply (proj2 (repair_changes_iff (dq "{'a': [1, 2] , 'b': }"))).
  reflexivity.
Defined.

(** X7. The repair is one pass: of two commas in a row before a closing
    brace or bracket only the second is removed, so that the repaired text
    still has a comma before that closing character. *)
Theorem repair_is_single_pass (pre post : jsstring) (c : code_unit) :
  ~ In Chr.COMMA pre -> is_closer c = true ->
  replace TRAILING_COMMA [Ref 1] (pre ++ Chr.COMMA :: Chr.COMMA :: c :: post)
    = pre ++ Chr.COMMA :: c :: replace TRAILING_COMMA [Ref 1] post /\
  has_trailing_comma
    (replace TRAILING_COMMA [Ref 1] (pre ++ Chr.COMMA :: Chr.COMMA :: c :: post))
    = true.
Proof.
  intros Hpre Hc.
  assert (Heq : replace TRAILING_COMMA [Ref 1]
                  (pre ++ Chr.COMMA :: Chr.COMMA :: c :: post)
                = pre ++ Chr.COMMA :: c :: replace TRAILING_COMMA [Ref 1] post).
  { rewrite !repair_spec, (repair_keeps_prefix pre _ Hpre).
    f_equal.
    change (without_trailing_commas_ws (Chr.COMMA :: Chr.COMMA :: c :: post))
      with (Chr.COMMA :: without_trailing_commas_ws (Chr.COMMA :: c :: post)).
    rewrite (repair_comma_closer c post Hc). reflexivity. }
  split; [exact Heq|].
  rewrite Heq. apply has_trailing_comma_app.
  cbn [has_trailing_comma]. unfold before_closer.
  rewrite (trimStart_id c _ (closer_not_white c Hc)), Hc.
  rewrite N.eqb_refl. reflexivity.
Qed.

Lemma repair_is_single_pass_witness :
  (~ In Chr.COMMA (lit "[1") /\ is_closer Chr.RBRACKET = true) /\
  replace TRAILING_COMMA [Ref 1] (lit "[1,,]") = lit "[1,]" /\
  has_trailing_comma (replace TRAILING_COMMA [Ref 1] (lit "[1,,]")) = true.
Proof.
  assert (H : ~ In Chr.COMMA (lit "[1")).
  { vm_compute. intros H. repeat (destruct H as [H|H]; [discriminate|]).
    exact H. }
  split; [split; [exact H|reflexivity]|].
  exact (repair_is_single_pass (lit "[1") [] Chr.RBRACKET H eq_refl).
Defined.

(** ** The answers of the handler *)

Lemma aggregate_on_path (raw : jsstring) (parsed : value) (r : response) :
  bind_result (extractJSON raw) safeJSONParse = Ok parsed ->
  aggregate parsed = Ok r ->
  exists items total,
    r = json [ (key_foods, Arr items); (key_total_calories, Num total) ].
Proof.
  intros Hp Ha.
  destruct (foods_on_path raw parsed Hp) as (items & Hn).
  unfold aggregate in Ha. rewrite Hn in Ha. cbn [bind_result] in Ha.
  destruct (reduce add_calories items Number.zero) as [sum|e];
    cbn [bind_result] in Ha; [|discriminate].
  injection Ha as <-. exists items, (Number.round sum). reflexivity.
Qed.

(** The four kinds of answer. *)
Lemma analyze_food_shapes (model : generate_request -> upstream)
      (req : request) (d : disk) :
  exists r d', analyze_food model req d = (Ok r, d') /\
    ((file req = None /\ d' = d /\
      r = status_json 400 [ (key_error, Str (lit "Image is required")) ]) \/
     (file req <> None /\
      (r = status_json 500 [ (key_error, Str (lit "Failed to analyze image")) ] \/
       r = degraded \/
       exists items total,
         r = json [ (key_foods, Arr items); (key_total_calories, Num total) ]))).
Proof.
  destruct (file req) as [f|] eqn:Hf.
  - assert (Hsome : Some f <> None) by discriminate.
    destruct (find_file (path f) d) as [content|] eqn:Hd.
    + destruct (model (mkGenerate PROMPT content (sent_mimetype f)))
        as [|[raw|e]] eqn:Hm.
      * eexists _, _. split;
          [exact (analyze_food_rejected model req f content d Hf Hd Hm)|].
        right. split; [exact Hsome|]. left. reflexivity.
      * eexists _, _. split;
          [exact (analyze_food_resolved model req f content raw d Hf Hd Hm)|].
        right. split; [exact Hsome|].
        destruct (bind_result (extractJSON raw) safeJSONParse)
          as [parsed|e] eqn:Hp.
        -- destruct (aggregate parsed) as [r|e] eqn:Ha.
           ++ right. right. exact (aggregate_on_path raw parsed r Hp Ha).
           ++ left. reflexivity.
        -- right. left. reflexivity.
      * eexists _, _. split;
          [exact (analyze_food_no_text model req f content e d Hf Hd Hm)|].
        right. split; [exact Hsome|]. left. reflexivity.
    + eexists _, _. split;
        [exact (analyze_food_no_upload model req f d Hf Hd)|].
      right. split; [exact Hsome|]. left. reflexivity.
  - eexists _, _. split; [exact (analyze_food_no_file model req d Hf)|].
    left. repeat split.
Qed.


(** X9. When the stored upload cannot be read the handler answers 500
    with [error: "Failed to analyze image"], whatever the model would have
    said, and leaves the stored files as they were. *)
Theorem unreadable_upload_answers_500 (model : generate_request -> upstream)
      (req : request) (f : upload) (d : disk) :
  file req = Some f ->
  find_file (path f) d = None ->
  analyze_food model req d =
    (Ok (status_json 500 [ (key_error, Str (lit "Failed to analyze image")) ]),
     d).
Proof. exact (analyze_food_no_upload model req f d). Qed.

Lemma unreadable_upload_answers_500_witness :
  (file (mkRequest (Some (mkUpload "uploads/3f9a" (lit "image/png"))))
     = Some (mkUpload "uploads/3f9a" (lit "image/png")) /\
   find_file "uploads/3f9a" [("uploads/77c0"%string, lit "aGk=")] = None) /\
  analyze_food (fun _ => Resolves (Ok (dq "{'foods': []}")))
    (mkRequest (Some (mkUpload "uploads/3f9a" (lit "image/png"))))
    [("uploads/77c0"%string, lit "aGk=")] =
    (Ok (status_json 500 [ (key_error, Str (lit "Failed to analyze image")) ]),
     [("uploads/77c0"%string, lit "aGk=")]).
Proof.
  split; [split; reflexivity|].
  exact (unreadable_upload_answers_500
           (fun _ => Resolves (Ok (dq "{'foods': []}")))
           (mkRequest (Some (mkUpload "uploads/3f9a" (lit "image/png"))))
           (mkUpload "uploads/3f9a" (lit "image/png"))
           [("uploads/77c0"%string, lit "aGk=")] eq_refl eq_refl).
Defined.

(** X10. When the model call resolves but the text of its response cannot
    be had, the handler answers 500 with [error: "Failed to analyze image"];
    the upload has been deleted by then. *)
Theorem textless_response_answers_500 (model : generate_request -> upstream)
      (req : request) (f : upload) (content : jsstring) (e : error) (d : disk) :
  file req = Some f ->
  find_file (path f) d = Some content ->
  model (mkGenerate PROMPT content (sent_mimetype f)) = Resolves (Throw e) ->
  analyze_food model req d =
    (Ok (status_json 500 [ (key_error, Str (lit "Failed to analyze image")) ]),
     remove_file (path f) d).
Proof. exact (analyze_food_no_text model req f content e d). Qed.

Lemma textless_response_answers_500_witness :
  (file (mkRequest (Some (mkUpload "uploads/3f9a" (lit "image/png"))))
     = Some (mkUpload "uploads/3f9a" (lit "image/png")) /\
   find_file "uploads/3f9a" [("uploads/3f9a"%string, lit "aGk=")] = Some (lit "aGk=") /\
   (fun _ : generate_request => Resolves (Throw (Error "blocked")))
     (mkGenerate PROMPT (lit "aGk=")
        (sent_mimetype (mkUpload "uploads/3f9a" (lit "image/png"))))
     = Resolves (Throw (Error "blocked"))) /\
  analyze_food (fun _ => Resolves (Throw (Error "blocked")))
    (mkRequest (Some (mkUpload "uploads/3f9a" (lit "image/png"))))
    [("uploads/3f9a"%string, lit "aGk=")] =
    (Ok (status_json 500 [ (key_error, Str (lit "Failed to analyze image")) ]),
     remove_file "uploads/3f9a" [("uploads/3f9a"%string, lit "aGk=")]).
Proof.
  split; [repeat split|].
  exact (textless_response_answers_500
           (fun _ => Resolves (Throw (Error "blocked")))
           (mkRequest (Some (mkUpload "uploads/3f9a" (lit "image/png"))))
           (mkUpload "uploads/3f9a" (lit "image/png")) (lit "aGk=")
           (Error "blocked") [("uploads/3f9a"%string, lit "aGk=")]
           eq_refl eq_refl eq_refl).
Defined.

(** ** The stored files *)

Lemma find_file_absent (p : string) (d : disk) :
  ~ In p (map fst d) -> find_file p d = None.
Proof.
  induction d as [|[q c] d IH]; [reflexivity|].
  cbn [map fst In find_file]. intros H.
  destruct (String.eqb p q) eqn:E.
  - apply String.eqb_eq in E. subst q. exfalso. apply H. left. reflexivity.
  - apply IH. intros Hin. apply H. right. exact Hin.
Qed.

Lemma find_file_removed (p : string) (d : disk) :
  NoDup (map fst d) -> find_file p (remove_file p d) = None.
Proof.
  induction d as [|[q c] d IH]; [reflexivity|].
  cbn [map fst remove_file]. intros H.
  apply NoDup_cons_iff in H. destruct H as [Hq Hd].
  destruct (String.eqb p q) eqn:E.
  - apply String.eqb_eq in E. subst q. apply find_file_absent. exact Hq.
  - cbn [find_file]. rewrite E. apply IH. exact Hd.
Qed.

Lemma find_file_kept (p q : string) (d : disk) :
  q <> p -> find_file q (remove_file p d) = find_file q d.
Proof.
  intros Hq. induction d as [|[x c] d IH]; [reflexivity|].
  cbn [remove_file]. destruct (String.eqb p x) eqn:E.
  - apply String.eqb_eq in E. subst x. cbn [find_file].
    destruct (String.eqb q p) eqn:E'; [|reflexivity].
    apply String.eqb_eq in E'. contradiction.
  - cbn [find_file]. rewrite IH. reflexivity.
Qed.

(** X11. Once the model call has resolved, whatever the answer turns out
    to be (200, degraded or 500), the upload is gone from the store and
    every other stored file is as it was. *)
Theorem resolved_call_deletes_upload (model : generate_request -> upstream)
      (req : request) (f : upload) (content : jsstring)
      (text : result jsstring) (d : disk) :
  NoDup (map fst d) ->
  file req = Some f ->
  find_file (path f) d = Some content ->
  model (mkGenerate PROMPT content (sent_mimetype f)) = Resolves text ->
  find_file (path f) (snd (analyze_food model req d)) = None /\
  forall q, q <> path f ->
    find_file q (snd (analyze_food model req d)) = find_file q d.
Proof.
  intros Hnd Hf Hd Hm.
  rewrite (upload_after_call model req f content d Hf Hd), Hm.
  split.
  - apply find_file_removed. exact Hnd.
  - intros q Hq. apply find_file_kept. exact Hq.
Qed.

Lemma resolved_call_deletes_upload_witness :
  (NoDup (map fst [("uploads/77c0"%string, lit "aGk=");
                   ("uploads/3f9a"%string, lit "eW8=")]) /\
   file (mkRequest (Some (mkUpload "uploads/3f9a" (lit "image/png"))))
     = Some (mkUpload "uploads/3f9a" (lit "image/png")) /\
   find_file "uploads/3f9a" [("uploads/77c0"%string, lit "aGk=");
                             ("uploads/3f9a"%string, lit "eW8=")]
     = Some (lit "eW8=") /\
   (fun _ : generate_request => Resolves (Ok (dq "{'foods': [null]}")))
     (mkGenerate PROMPT (lit "eW8=")
        (sent_mimetype (mkUpload "uploads/3f9a" (lit "image/png"))))
     = Resolves (Ok (dq "{'foods': [null]}"))) /\
  find_file "uploads/3f9a"
    (snd (analyze_food (fun _ => Resolves (Ok (dq "{'foods': [null]}")))
            (mkRequest (Some (mkUpload "uploads/3f9a" (lit "image/png"))))
            [("uploads/77c0"%string, lit "aGk=");
             ("uploads/3f9a"%string, lit "eW8=")])) = None /\
  forall q, q <> "uploads/3f9a"%string ->
    find_file q
      (snd (analyze_food (fun _ => Resolves (Ok (dq "{'foods': [null]}")))
              (mkRequest (Some (mkUpload "uploads/3f9a" (lit "image/png"))))
              [("uploads/77c0"%string, lit "aGk=");
               ("uploads/3f9a"%string, lit "eW8=")]))
    = find_file q [("uploads/77c0"%string, lit "aGk=");
                   ("uploads/3f9a"%string, lit "eW8=")].
Proof.
  assert (Hnd : NoDup (map fst [("uploads/77c0"%string, lit "aGk=");
                                ("uploads/3f9a"%string, lit "eW8=")])).
  { cbn [map fst]. constructor.
    - intros [H|[]]. discriminate.
    - constructor; [intros []|constructor]. }
  split; [split; [exact Hnd|repeat split]|].
  exact (resolved_call_deletes_upload
           (fun _ => Resolves (Ok (dq "{'foods': [null]}")))
           (mkRequest (Some (mkUpload "uploads/3f9a" (lit "image/png"))))
           (mkUpload "uploads/3f9a" (lit "image/png")) (lit "eW8=")
           (Ok (dq "{'foods': [null]}"))
           [("uploads/77c0"%string, lit "aGk=");
            ("uploads/3f9a"%string, lit "eW8=")]
           Hnd eq_refl eq_refl eq_refl).
Defined.

(** ** When the aggregation throws *)

Lemma ToNumber_cases :
  forall v : value,
    (unprintable v = true /\ ToNumber v = Throw TypeError) \/
    (unprintable v = false /\ exists n, ToNumber v = Ok n).
Proof.
  fix IH 1. intros v.
  destruct v as [| |b|x|s|l|ps]; try (right; split; [reflexivity|eexists; reflexivity]).
  - destruct l as [|x [|y l']].
    + right. split; [reflexivity|eexists; reflexivity].
    + pose proof (IH x) as IHx.
      assert (Hu : unprintable (Arr [x]) = unprintable x).
      { cbn [unprintable existsb]. apply orb_false_r. }
      rewrite Hu.
      destruct x as [| |b|n|s|l|ps];
        try (right; split; [reflexivity|eexists; reflexivity]);
        exact IHx.
    + cbn [ToNumber].
      destruct (existsb unprintable (x :: y :: l')) eqn:E.
      * left. split; [exact E|reflexivity].
      * right. split; [exact E|eexists; reflexivity].
  - cbn [ToNumber unprintable].
    destruct (has_own (lit "toString") ps).
    + left. split; reflexivity.
    + right. split; [reflexivity|eexists; reflexivity].
Qed.

Lemma unprintable_truthy (c : value) :
  unprintable c = true -> ToBoolean c = true.
Proof. destruct c; try discriminate; reflexivity. Qed.

Lemma add_calories_cases (sum : Number.number) (f : value) :
  (breaks f /\ add_calories sum f = Throw TypeError) \/
  (~ breaks f /\ exists n, add_calories sum f = Ok n).
Proof.
  destruct (get f key_calories) as [c|e] eqn:Hg.
  - destruct (ToNumber_cases c) as [[Hu Ht]|[Hu (n & Ht)]].
    + left. split.
      * right. right. exists c. split; [exact Hg|exact Hu].
      * unfold add_calories. rewrite Hg. cbn [bind_result].
        unfold or. rewrite (unprintable_truthy c Hu), Ht. reflexivity.
    + right. split.
      * intros [->|[->|(c' & Hg' & Hu')]]; try discriminate.
        rewrite Hg in Hg'. injection Hg' as <-. congruence.
      * unfold add_calories. rewrite Hg. cbn [bind_result].
        unfold or. destruct (ToBoolean c).
        -- rewrite Ht. eexists. reflexivity.
        -- eexists. reflexivity.
  - left. destruct f; try discriminate.
    + split; [right; left; reflexivity|reflexivity].
    + split; [left; reflexivity|reflexivity].
Qed.

Lemma reduce_cases (items : list value) (sum : Number.number) :
  (Exists breaks items /\ reduce add_calories items sum = Throw TypeError) \/
  (~ Exists breaks items /\ exists n, reduce add_calories items sum = Ok n).
Proof.
  revert sum. induction items as [|f items IH]; intros sum.
  - right. split; [intros H; inversion H|exists sum; reflexivity].
  - cbn [reduce].
    destruct (add_calories_cases sum f) as [[Hb Ht]|[Hb (n & Ht)]].
    + left. split; [left; exact Hb|]. rewrite Ht. reflexivity.
    + rewrite Ht. cbn [bind_result].
      destruct (IH n) as [[He Hr]|[He Hr]].
      * left. split; [right; exact He|exact Hr].
      * right. split; [|exact Hr].
        intros H. inversion H; subst; contradiction.
Qed.

(** X12. When [foods] is an array holding an item that is [null] or
    [undefined], or whose [calories] cannot be converted to a primitive,
    the callback of the reduction throws and the handler answers 500 with
    [error: "Failed to analyze image"], never 200; the upload has been
    deleted by then. *)
Theorem breaking_item_answers_500 (model : generate_request -> upstream)
      (req : request) (f : upload) (content raw : jsstring) (d : disk)
      (ps : properties) (items : list value) :
  file req = Some f ->
  find_file (path f) d = Some content ->
  model (mkGenerate PROMPT content (sent_mimetype f)) = Resolves (Ok raw) ->
  bind_result (extractJSON raw) safeJSONParse = Ok (Obj ps) ->
  lookup key_foods ps = Some (Arr items) ->
  Exists breaks items ->
  analyze_food model req d =
    (Ok (status_json 500 [ (key_error, Str (lit "Failed to analyze image")) ]),
     remove_file (path f) d).
Proof.
  intros Hf Hd Hm Hp Hl Hb.
  rewrite (analyze_food_resolved model req f content raw d Hf Hd Hm), Hp.
  assert (Hn : normalized_foods (Obj ps) = Ok (Arr items)).
  { unfold normalized_foods, get. rewrite Hl. reflexivity. }
  unfold aggregate. rewrite Hn. cbn [bind_result].
  destruct (reduce_cases items Number.zero) as [[_ Hr]|[He _]];
    [|contradiction].
  rewrite Hr. reflexivity.
Qed.

Lemma breaking_item_answers_500_witness :
  (file (mkRequest (Some (mkUpload "uploads/3f9a" (lit "image/png"))))
     = Some (mkUpload "uploads/3f9a" (lit "image/png")) /\
   find_file "uploads/3f9a" [("uploads/3f9a"%string, lit "aGk=")]
     = Some (lit "aGk=") /\
   (fun _ : generate_request =>
      Resolves (Ok (dq "{'foods': [{'calories': 5}, {'calories': {'toString': 1}}]}")))
     (mkGenerate PROMPT (lit "aGk=")
        (sent_mimetype (mkUpload "uploads/3f9a" (lit "image/png"))))
     = Resolves (Ok (dq "{'foods': [{'calories': 5}, {'calories': {'toString': 1}}]}")) /\
   bind_result
     (extractJSON (dq "{'foods': [{'calories': 5}, {'calories': {'toString': 1}}]}"))
     safeJSONParse
     = Ok (Obj [ (key_foods,
                  Arr [ Obj [ (key_calories, Num (Number.of_Z 5)) ];
                        Obj [ (key_calories,
                               Obj [ (lit "toString", Num (Number.of_Z 1)) ]) ] ]) ]) /\
   lookup key_foods
     [ (key_foods,
        Arr [ Obj [ (key_calories, Num (Number.of_Z 5)) ];
              Obj [ (key_calories,
                     Obj [ (lit "toString", Num (Number.of_Z 1)) ]) ] ]) ]
     = Some (Arr [ Obj [ (key_calories, Num (Number.of_Z 5)) ];
                   Obj [ (key_calories,
                          Obj [ (lit "toString", Num (Number.of_Z 1)) ]) ] ]) /\
   Exists breaks
     [ Obj [ (key_calories, Num (Number.of_Z 5)) ];
       Obj [ (key_calories, Obj [ (lit "toString", Num (Number.of_Z 1)) ]) ] ]) /\
  analyze_food
    (fun _ => Resolves (Ok (dq "{'foods': [{'calories': 5}, {'calories': {'toString': 1}}]}")))
    (mkRequest (Some (mkUpload "uploads/3f9a" (lit "image/png"))))
    [("uploads/3f9a"%string, lit "aGk=")] =
    (Ok (status_json 500 [ (key_error, Str (lit "Failed to analyze image")) ]),
     remove_file "uploads/3f9a" [("uploads/3f9a"%string, lit "aGk=")]).
Proof.
  assert (Hp : bind_result
                 (extractJSON (dq "{'foods': [{'calories': 5}, {'calories': {'toString': 1}}]}"))
                 safeJSONParse
               = Ok (Obj [ (key_foods,
                            Arr [ Obj [ (key_calories, Num (Number.of_Z 5)) ];
                                  Obj [ (key_calories,
                                         Obj [ (lit "toString",
                                                Num (Number.of_Z 1)) ]) ] ]) ])).
  { vm_compute. reflexivity. }
  assert (Hb : Exists breaks
                 [ Obj [ (key_calories, Num (Number.of_Z 5)) ];
                   Obj [ (key_calories,
                          Obj [ (lit "toString", Num (Number.of_Z 1)) ]) ] ]).
  { right. left. right. right.
    exists (Obj [ (lit "toString", Num (Number.of_Z 1)) ]).
    split; reflexivity. }
  split; [split; [reflexivity|split; [reflexivity|split; [reflexivity|
          split; [exact Hp|split; [reflexivity|exact Hb]]]]]|].
  exact (breaking_item_answers_500
           (fun _ => Resolves (Ok (dq "{'foods': [{'calories': 5}, {'calories': {'toString': 1}}]}")))
           (mkRequest (Some (mkUpload "uploads/3f9a" (lit "image/png"))))
           (mkUpload "uploads/3f9a" (lit "image/png")) (lit "aGk=")
           (dq "{'foods': [{'calories': 5}, {'calories': {'toString': 1}}]}")
           [("uploads/3f9a"%string, lit "aGk=")] _ _
           eq_refl eq_refl eq_refl Hp eq_refl Hb).
Defined.

(** ** What the answer is made of *)

(** X13. The success answer is made from [foods] alone: two parsed objects
    with the same [foods] get the same answer, so that the model's own
    [total_calories], and every other property it sends, is ignored. *)
Theorem model_total_is_ignored (ps ps' : properties) :
  lookup key_foods ps = lookup key_foods ps' ->
  aggregate (Obj ps) = aggregate (Obj ps').
Proof.
  intros H. unfold aggregate, normalized_foods, get. rewrite H. reflexivity.
Qed.

Lemma model_total_is_ignored_witness :
  lookup key_foods
    [ (key_foods, Arr [Obj [ (key_calories, Num (Number.of_Z 70)) ]]);
      (key_total_calories, Num (Number.of_Z 9000)) ]
  = lookup key_foods
      [ (key_foods, Arr [Obj [ (key_calories, Num (Number.of_Z 70)) ]]) ] /\
  aggregate
    (Obj [ (key_foods, Arr [Obj [ (key_calories, Num (Number.of_Z 70)) ]]);
           (key_total_calories, Num (Number.of_Z 9000)) ])
  = aggregate
      (Obj [ (key_foods, Arr [Obj [ (key_calories, Num (Number.of_Z 70)) ]]) ]).
Proof.
  split; [reflexivity|].
  apply model_total_is_ignored. reflexivity.
Defined.

(** X14. When the model's object has no [foods], or a [foods] that is not
    an array, the handler answers 200 with an empty [foods] and a total of
    0, without the warning of the degraded answer. *)
Theorem non_array_foods_answer_empty (model : generate_request -> upstream)
      (req : request) (f : upload) (content raw : jsstring) (d : disk)
      (ps : properties) :
  file req = Some f ->
  find_file (path f) d = Some content ->
  model (mkGenerate PROMPT content (sent_mimetype f)) = Resolves (Ok raw) ->
  bind_result (extractJSON raw) safeJSONParse = Ok (Obj ps) ->
  (forall items, lookup key_foods ps <> Some (Arr items)) ->
  analyze_food model req d =
    (Ok (json [ (key_foods, Arr []); (key_total_calories, Num Number.zero) ]),
     remove_file (path f) d).
Proof.
  intros Hf Hd Hm Hp Hl.
  rewrite (analyze_food_resolved model req f content raw d Hf Hd Hm), Hp.
  rewrite (aggregate_not_an_array ps Hl). reflexivity.
Qed.

Lemma non_array_foods_answer_empty_witness :
  (file (mkRequest (Some (mkUpload "uploads/3f9a" (lit "image/png"))))
     = Some (mkUpload "uploads/3f9a" (lit "image/png")) /\
   find_file "uploads/3f9a" [("uploads/3f9a"%string, lit "aGk=")]
     = Some (lit "aGk=") /\
   (fun _ : generate_request =>
      Resolves (Ok (dq "{'foods': 'none', 'total_calories': 12}")))
     (mkGenerate PROMPT (lit "aGk=")
        (sent_mimetype (mkUpload "uploads/3f9a" (lit "image/png"))))
     = Resolves (Ok (dq "{'foods': 'none', 'total_calories': 12}")) /\
   bind_result (extractJSON (dq "{'foods': 'none', 'total_calories': 12}"))
     safeJSONParse
     = Ok (Obj [ (key_foods, Str (lit "none"));
                 (key_total_calories, Num (Number.of_Z 12)) ]) /\
   (forall items,
      lookup key_foods [ (key_foods, Str (lit "none"));
                         (key_total_calories, Num (Number.of_Z 12)) ]
      <> Some (Arr items))) /\
  analyze_food
    (fun _ => Resolves (Ok (dq "{'foods': 'none', 'total_calories': 12}")))
    (mkRequest (Some (mkUpload "uploads/3f9a" (lit "image/png"))))
    [("uploads/3f9a"%string, lit "aGk=")] =
    (Ok (json [ (key_foods, Arr []); (key_total_calories, Num Number.zero) ]),
     remove_file "uploads/3f9a" [("uploads/3f9a"%string, lit "aGk=")]).
Proof.
  assert (Hp : bind_result
                 (extractJSON (dq "{'foods': 'none', 'total_calories': 12}"))
                 safeJSONParse
               = Ok (Obj [ (key_foods, Str (lit "none"));
                           (key_total_calories, Num (Number.of_Z 12)) ])).
  { vm_compute. reflexivity. }
  assert (Hl : forall items,
             lookup key_foods [ (key_foods, Str (lit "none"));
                                (key_total_calories, Num (Number.of_Z 12)) ]
             <> Some (Arr items)).
  { intros items. vm_compute. discriminate. }
  split; [split; [reflexivity|split; [reflexivity|split; [reflexivity|
          split; [exact Hp|exact Hl]]]]|].
  exact (non_array_foods_answer_empty
           (fun _ => Resolves (Ok (dq "{'foods': 'none', 'total_calories': 12}")))
           (mkRequest (Some (mkUpload "uploads/3f9a" (lit "image/png"))))
           (mkUpload "uploads/3f9a" (lit "image/png")) (lit "aGk=")
           (dq "{'foods': 'none', 'total_calories': 12}")
           [("uploads/3f9a"%string, lit "aGk=")] _
           eq_refl eq_refl eq_refl Hp Hl).
Defined.

(** X15. When [foods] is an array whose items are objects as the prompt's
    schema has them, with scalar fields only and [calories] missing,
    [null], a number or a numeric string, the handler answers 200, and the
    [foods] of the answer are the model's items as they were parsed: no
    item is dropped, added or rewritten.  (With scalar fields neither the
    conversion of [calories] nor the printing of the answer nests deeper
    than the answer of the handler itself.) *)
Theorem well_formed_items_answer_200 (model : generate_request -> upstream)
      (req : request) (f : upload) (content raw : jsstring) (d : disk)
      (ps : properties) (items : list value) :
  file req = Some f ->
  find_file (path f) d = Some content ->
  model (mkGenerate PROMPT content (sent_mimetype f)) = Resolves (Ok raw) ->
  bind_result (extractJSON raw) safeJSONParse = Ok (Obj ps) ->
  lookup key_foods ps = Some (Arr items) ->
  Forall flat_item items ->
  Forall well_formed_item items ->
  exists total,
    analyze_food model req d =
      (Ok (json [ (key_foods, Arr items); (key_total_calories, Num total) ]),
       remove_file (path f) d).
Proof.
  intros Hf Hd Hm Hp Hl _ Hw.
  rewrite (analyze_food_resolved model req f content raw d Hf Hd Hm), Hp.
  destruct (well_formed_reduce items Number.zero Hw) as (sum & Hsum).
  assert (Hn : normalized_foods (Obj ps) = Ok (Arr items)).
  { unfold normalized_foods, get. rewrite Hl. reflexivity. }
  rewrite (aggregate_items (Obj ps) items sum Hn Hsum).
  exists (Number.round sum). reflexivity.
Qed.

Lemma well_formed_items_answer_200_witness :
  (file (mkRequest (Some (mkUpload "uploads/3f9a" (lit "image/png"))))
     = Some (mkUpload "uploads/3f9a" (lit "image/png")) /\
   find_file "uploads/3f9a" [("uploads/3f9a"%string, lit "aGk=")]
     = Some (lit "aGk=") /\
   (fun _ : generate_request =>
      Resolves (Ok (dq "{'foods': [{'calories': '70'}, {'name': 'tea'}]}")))
     (mkGenerate PROMPT (lit "aGk=")
        (sent_mimetype (mkUpload "uploads/3f9a" (lit "image/png"))))
     = Resolves (Ok (dq "{'foods': [{'calories': '70'}, {'name': 'tea'}]}")) /\
   bind_result
     (extractJSON (dq "{'foods': [{'calories': '70'}, {'name': 'tea'}]}"))
     safeJSONParse
     = Ok (Obj [ (key_foods,
                  Arr [ Obj [ (key_calories, Str (lit "70")) ];
                        Obj [ (lit "name", Str (lit "tea")) ] ]) ]) /\
   lookup key_foods
     [ (key_foods,
        Arr [ Obj [ (key_calories, Str (lit "70")) ];
              Obj [ (lit "name", Str (lit "tea")) ] ]) ]
     = Some (Arr [ Obj [ (key_calories, Str (lit "70")) ];
                   Obj [ (lit "name", Str (lit "tea")) ] ]) /\
   Forall flat_item
     [ Obj [ (key_calories, Str (lit "70")) ];
       Obj [ (lit "name", Str (lit "tea")) ] ] /\
   Forall well_formed_item
     [ Obj [ (key_calories, Str (lit "70")) ];
       Obj [ (lit "name", Str (lit "tea")) ] ]) /\
  exists total,
    analyze_food
      (fun _ => Resolves (Ok (dq "{'foods': [{'calories': '70'}, {'name': 'tea'}]}")))
      (mkRequest (Some (mkUpload "uploads/3f9a" (lit "image/png"))))
      [("uploads/3f9a"%string, lit "aGk=")] =
      (Ok (json [ (key_foods,
                   Arr [ Obj [ (key_calories, Str (lit "70")) ];
                         Obj [ (lit "name", Str (lit "tea")) ] ]);
                  (key_total_calories, Num total) ]),
       remove_file "uploads/3f9a" [("uploads/3f9a"%string, lit "aGk=")]).
Proof.
  assert (Hp : bind_result
                 (extractJSON (dq "{'foods': [{'calories': '70'}, {'name': 'tea'}]}"))
                 safeJSONParse
               = Ok (Obj [ (key_foods,
                            Arr [ Obj [ (key_calories, Str (lit "70")) ];
                                  Obj [ (lit "name", Str (lit "tea")) ] ]) ])).
  { vm_compute. reflexivity. }
  assert (Hw : Forall well_formed_item
                 [ Obj [ (key_calories, Str (lit "70")) ];
                   Obj [ (lit "name", Str (lit "tea")) ] ]).
  { constructor; [|constructor; [|constructor]].
    - eexists. split; [reflexivity|]. vm_compute. reflexivity.
    - eexists. split; [reflexivity|]. vm_compute. exact I. }
  assert (Hflat : Forall flat_item
                    [ Obj [ (key_calories, Str (lit "70")) ];
                      Obj [ (lit "name", Str (lit "tea")) ] ]).
  { constructor; [|constructor; [|constructor]];
      eexists; split; reflexivity. }
  split; [split; [reflexivity|split; [reflexivity|split; [reflexivity|
          split; [exact Hp|split; [reflexivity|split; [exact Hflat|exact Hw]]]]]]|].
  exact (well_formed_items_answer_200
           (fun _ => Resolves (Ok (dq "{'foods': [{'calories': '70'}, {'name': 'tea'}]}")))
           (mkRequest (Some (mkUpload "uploads/3f9a" (lit "image/png"))))
           (mkUpload "uploads/3f9a" (lit "image/png")) (lit "aGk=")
           (dq "{'foods': [{'calories': '70'}, {'name': 'tea'}]}")
           [("uploads/3f9a"%string, lit "aGk=")] _ _
           eq_refl eq_refl eq_refl Hp eq_refl Hflat Hw).
Defined.

(** ** The client *)

Lemma field_object (ps : properties) (k : jsstring) :
  field (Obj ps) k = match lookup k ps with Some x => x | None => Undefined end.
Proof. reflexivity. Qed.

Lemma isAnalyzeResponse_spec (payload : value) :
  isAnalyzeResponse payload = true <-> analysis_shaped payload.
Proof.
  split.
  - intros H. destruct payload as [| |b|x|s|l|ps]; try discriminate.
    + destruct b; discriminate.
    + unfold isAnalyzeResponse in H. cbn [typeof type_eqb negb] in H.
      destruct (ToBoolean (Num x)); discriminate.
    + destruct s; discriminate.
    + unfold isAnalyzeResponse in H.
      cbn [ToBoolean typeof type_eqb negb orb] in H.
      rewrite !field_object in H.
      apply andb_true_iff in H. destruct H as [Ht Hf].
      destruct (lookup key_total_calories ps) as [[| |b|x|s|l|qs]|] eqn:E1;
        try discriminate.
      destruct (lookup key_foods ps) as [[| |b|y|s|l|qs]|] eqn:E2;
        try discriminate.
      exists ps, x, l. repeat split; assumption.
  - intros (ps & x & items & -> & Ht & Hf).
    unfold isAnalyzeResponse. cbn [ToBoolean typeof type_eqb negb orb].
    rewrite !field_object, Ht, Hf. reflexivity.
Qed.

Lemma payload_of_throw (text : jsstring) (e : error) :
  JSON.parse text = Throw e -> payload_of text = Null.
Proof. intros H. unfold payload_of. rewrite H. reflexivity. Qed.

(** X16. On a response with a success status the client takes the body as
    its result exactly when it parses to an object whose [total_calories]
    is a number and whose [foods] is an array, whatever the items are; on
    any other body the earlier result stays and the error is
    "API returned unexpected response format.". *)
Theorem handleUpload_success_status (s : component) (img : string)
      (code : nat) (text : jsstring) :
  st_image s = Some img ->
  ok code = true ->
  (analysis_shaped (payload_of text) /\
   handleUpload (Responded code text) s =
     mkComponent (Some img) (Some (payload_of text)) false []) \/
  (~ analysis_shaped (payload_of text) /\
   handleUpload (Responded code text) s =
     mkComponent (Some img) (st_result s) false
       (lit "API returned unexpected response format.")).
Proof.
  intros Hi Hok. unfold handleUpload, settle. rewrite Hi, Hok. cbn [negb].
  destruct (isAnalyzeResponse (payload_of text)) eqn:E; cbn [negb finish].
  - left. split; [apply isAnalyzeResponse_spec; exact E|].
    rewrite Hi. reflexivity.
  - right. split.
    + intros H. apply isAnalyzeResponse_spec in H. congruence.
    + rewrite Hi. reflexivity.
Qed.

Lemma handleUpload_success_status_witness :
  (st_image (mkComponent (Some "meal.jpg"%string) None false [])
     = Some "meal.jpg"%string /\
   ok 200 = true) /\
  ((analysis_shaped (payload_of (dq "{'total_calories': 5, 'foods': [null]}")) /\
    handleUpload (Responded 200 (dq "{'total_calories': 5, 'foods': [null]}"))
      (mkComponent (Some "meal.jpg"%string) None false []) =
      mkComponent (Some "meal.jpg"%string)
        (Some (payload_of (dq "{'total_calories': 5, 'foods': [null]}")))
        false []) \/
   (~ analysis_shaped (payload_of (dq "{'total_calories': 5, 'foods': [null]}")) /\
    handleUpload (Responded 200 (dq "{'total_calories': 5, 'foods': [null]}"))
      (mkComponent (Some "meal.jpg"%string) None false []) =
      mkComponent (Some "meal.jpg"%string)
        (st_result (mkComponent (Some "meal.jpg"%string) None false []))
        false (lit "API returned unexpected response format."))).
Proof.
  split; [split; reflexivity|].
  exact (handleUpload_success_status
           (mkComponent (Some "meal.jpg"%string) None false [])
           "meal.jpg" 200 (dq "{'total_calories': 5, 'foods': [null]}")
           eq_refl eq_refl).
Defined.

(** X17. When the body of the response is not JSON the client keeps its
    earlier result and shows a message of its own: on a success status
    "API returned unexpected response format.", on 402 the payment message,
    on any other status "Request failed with status N." with the status in
    decimal. *)
Theorem handleUpload_body_not_json (s : component) (img : string)
      (code : nat) (text : jsstring) (e : error) :
  st_image s = Some img ->
  JSON.parse text = Throw e ->
  handleUpload (Responded code text) s =
    mkComponent (Some img) (st_result s) false
      (if ok code then lit "API returned unexpected response format."
       else if Nat.eqb code 402
            then lit "Payment required (402): backend billing or credits issue."
            else request_failed code).
Proof.
  intros Hi Hp. unfold handleUpload, settle.
  rewrite Hi, (payload_of_throw text e Hp).
  destruct (ok code); cbn [negb].
  - cbn. rewrite Hi. reflexivity.
  - change (getApiErrorMessage Null) with (@None jsstring). cbn [nullish].
    destruct (Nat.eqb code 402); cbn [finish]; rewrite Hi; reflexivity.
Qed.

Lemma handleUpload_body_not_json_witness :
  (st_image (mkComponent (Some "meal.jpg"%string) None false [])
     = Some "meal.jpg"%string /\
   JSON.parse (lit "<html>Bad Gateway</html>") = Throw SyntaxError) /\
  handleUpload (Responded 502 (lit "<html>Bad Gateway</html>"))
    (mkComponent (Some "meal.jpg"%string) None false []) =
    mkComponent (Some "meal.jpg"%string) None false
      (lit "Request failed with status 502.").
Proof.
  split; [split; [reflexivity|vm_compute; reflexivity]|].
  apply (handleUpload_body_not_json
           (mkComponent (Some "meal.jpg"%string) None false [])
           "meal.jpg" 502 (lit "<html>Bad Gateway</html>") SyntaxError).
  - reflexivity.
  - vm_compute. reflexivity.
Defined.

(** X18. On a failure status the client shows the server's own text: when
    the body is an object whose [message] is not a string and whose [error]
    is one, the error shown is that string, also on 402, and the earlier
    result stays. *)
Theorem handleUpload_shows_error_field (s : component) (img : string)
      (code : nat) (text : jsstring) (ps : properties) (msg : jsstring) :
  st_image s = Some img ->
  ok code = false ->
  JSON.parse text = Ok (Obj ps) ->
  (forall m, lookup key_message ps <> Some (Str m)) ->
  lookup key_error ps = Some (Str msg) ->
  handleUpload (Responded code text) s =
    mkComponent (Some img) (st_result s) false msg.
Proof.
  intros Hi Hok Hp Hm He. unfold handleUpload, settle, payload_of.
  rewrite Hi, Hok, Hp. cbn [negb].
  assert (Hapi : getApiErrorMessage (Obj ps) = Some msg).
  { unfold getApiErrorMessage. cbn [ToBoolean typeof type_eqb negb orb].
    rewrite !field_object, He.
    destruct (lookup key_message ps) as [[| |b|x|m|l|qs]|]; try reflexivity.
    exfalso. exact (Hm m eq_refl). }
  rewrite Hapi. cbn [nullish].
  destruct (Nat.eqb code 402); cbn [finish]; rewrite Hi; reflexivity.
Qed.

Lemma handleUpload_shows_error_field_witness :
  (st_image (mkComponent (Some "meal.jpg"%string) None false [])
     = Some "meal.jpg"%string /\
   ok 402 = false /\
   JSON.parse (dq "{'message': 402, 'error': 'Out of credits'}")
     = Ok (Obj [ (key_message, Num (Number.of_Z 402));
                 (key_error, Str (lit "Out of credits")) ]) /\
   (forall m,
      lookup key_message [ (key_message, Num (Number.of_Z 402));
                           (key_error, Str (lit "Out of credits")) ]
      <> Some (Str m)) /\
   lookup key_error [ (key_message, Num (Number.of_Z 402));
                      (key_error, Str (lit "Out of credits")) ]
     = Some (Str (lit "Out of credits"))) /\
  handleUpload
    (Responded 402 (dq "{'message': 402, 'error': 'Out of credits'}"))
    (mkComponent (Some "meal.jpg"%string) None false []) =
    mkComponent (Some "meal.jpg"%string) None false (lit "Out of credits").
Proof.
  assert (Hp : JSON.parse (dq "{'message': 402, 'error': 'Out of credits'}")
               = Ok (Obj [ (key_message, Num (Number.of_Z 402));
                           (key_error, Str (lit "Out of credits")) ])).
  { vm_compute. reflexivity. }
  assert (Hm : forall m,
             lookup key_message [ (key_message, Num (Number.of_Z 402));
                                  (key_error, Str (lit "Out of credits")) ]
             <> Some (Str m)).
  { intros m. vm_compute. discriminate. }
  split; [split; [reflexivity|split; [reflexivity|split; [exact Hp|
          split; [exact Hm|reflexivity]]]]|].
  exact (handleUpload_shows_error_field
           (mkComponent (Some "meal.jpg"%string) None false [])
           "meal.jpg" 402 (dq "{'message': 402, 'error': 'Out of credits'}")
           _ (lit "Out of credits") eq_refl eq_refl Hp Hm eq_refl).
Defined.

(** ** The service and the client together *)

Lemma through_json_answer (items : list value) (t : Number.number)
      (rest : properties) :
  exists rest',
    through_json (Obj ((key_foods, Arr items) :: (key_total_calories, Num t) :: rest))
    = Obj ((key_foods, Arr (map through_json items))
             :: (key_total_calories, through_json (Num t)) :: rest').
Proof. eexists. cbn [through_json]. reflexivity. Qed.

Lemma deliver_answer (s : component) (img : string) (items : list value)
      (t : Number.number) (rest : properties) :
  st_image s = Some img ->
  deliver (mkResponse 200
             (Obj ((key_foods, Arr items) :: (key_total_calories, Num t) :: rest)))
          s =
  if is_finite t
  then mkComponent (Some img)
         (Some (through_json
                  (Obj ((key_foods, Arr items)
                          :: (key_total_calories, Num t) :: rest))))
         false []
  else mkComponent (Some img) (st_result s) false
         (lit "API returned unexpected response format.").
Proof.
  intros Hi. unfold deliver. rewrite Hi. cbn [status body].
  destruct (through_json_answer items t rest) as (rest' & ->).
  unfold settle. change (ok 200) with true. cbn [negb].
  assert (Hshape : isAnalyzeResponse
                     (Obj ((key_foods, Arr (map through_json items))
                             :: (key_total_calories, through_json (Num t))
                             :: rest'))
                   = is_finite t).
  { unfold isAnalyzeResponse. cbn [ToBoolean typeof type_eqb negb orb].
    rewrite !field_object.
    change (lookup key_total_calories
              ((key_foods, Arr (map through_json items))
                 :: (key_total_calories, through_json (Num t)) :: rest'))
      with (Some (through_json (Num t))).
    change (lookup key_foods
              ((key_foods, Arr (map through_json items))
                 :: (key_total_calories, through_json (Num t)) :: rest'))
      with (Some (Arr (map through_json items))).
    destruct t; reflexivity. }
  rewrite Hshape. destruct (is_finite t); cbn [negb finish]; rewrite Hi;
    reflexivity.
Qed.

(** X19. An answer of the service that is not a 200 reaches the user as the
    service worded it: the client keeps its earlier result and shows
    "Image is required" for a request without a file and
    "Failed to analyze image" for every other failure.  (The body is taken
    through [JSON.stringify] and [JSON.parse] by [through_json].) *)
Theorem client_shows_service_error (model : generate_request -> upstream)
      (req : request) (d d' : disk) (r : response)
      (s : component) (img : string) :
  st_image s = Some img ->
  analyze_food model req d = (Ok r, d') ->
  status r <> 200 ->
  deliver r s =
    mkComponent (Some img) (st_result s) false
      match file req with
      | None => lit "Image is required"
      | Some _ => lit "Failed to analyze image"
      end.
Proof.
  intros Hi Hr Hs.
  destruct (analyze_food_shapes model req d) as (r0 & d0 & Hr0 & Hshape).
  rewrite Hr in Hr0. injection Hr0 as <- <-.
  destruct Hshape as [(Hf & _ & ->)|(Hf & [->|[->|(items & t & ->)]])].
  - rewrite Hf. unfold deliver. rewrite Hi.
    change (settle _ _) with (@inl jsstring value (lit "Image is required")).
    cbn [finish]. rewrite Hi. reflexivity.
  - destruct (file req); [|congruence]. unfold deliver. rewrite Hi.
    change (settle _ _)
      with (@inl jsstring value (lit "Failed to analyze image")).
    cbn [finish]. rewrite Hi. reflexivity.
  - exfalso. apply Hs. reflexivity.
  - exfalso. apply Hs. reflexivity.
Qed.

Lemma client_shows_service_error_witness :
  (st_image (mkComponent (Some "meal.jpg"%string) None false [])
     = Some "meal.jpg"%string /\
   analyze_food (fun _ => Resolves (Ok (dq "{'foods': [null]}")))
     (mkRequest (Some (mkUpload "uploads/3f9a" (lit "image/png"))))
     [("uploads/3f9a"%string, lit "aGk=")]
   = (Ok (status_json 500 [ (key_error, Str (lit "Failed to analyze image")) ]),
      []) /\
   status (status_json 500 [ (key_error, Str (lit "Failed to analyze image")) ])
     <> 200) /\
  deliver (status_json 500 [ (key_error, Str (lit "Failed to analyze image")) ])
    (mkComponent (Some "meal.jpg"%string) None false []) =
    mkComponent (Some "meal.jpg"%string) None false
      (lit "Failed to analyze image").
Proof.
  assert (Hr : analyze_food (fun _ => Resolves (Ok (dq "{'foods': [null]}")))
                 (mkRequest (Some (mkUpload "uploads/3f9a" (lit "image/png"))))
                 [("uploads/3f9a"%string, lit "aGk=")]
               = (Ok (status_json 500
                        [ (key_error, Str (lit "Failed to analyze image")) ]),
                  [])).
  { vm_compute. reflexivity. }
  assert (Hs : status (status_json 500
                         [ (key_error, Str (lit "Failed to analyze image")) ])
               <> 200).
  { cbn. discriminate. }
  split; [split; [reflexivity|split; [exact Hr|exact Hs]]|].
  exact (client_shows_service_error
           (fun _ => Resolves (Ok (dq "{'foods': [null]}")))
           (mkRequest (Some (mkUpload "uploads/3f9a" (lit "image/png"))))
           [("uploads/3f9a"%string, lit "aGk=")] []
           (status_json 500 [ (key_error, Str (lit "Failed to analyze image")) ])
           (mkComponent (Some "meal.jpg"%string) None false [])
           "meal.jpg" eq_refl Hr Hs).
Defined.

(** X20. A 200 answer of the service, the degraded one included, is taken
    by the client as its result exactly when its total is a finite Number;
    a total of [NaN] or an infinity is printed as [null], and the client
    then keeps its earlier result and shows
    "API returned unexpected response format.".  (The body is taken
    through [JSON.stringify] and [JSON.parse] by [through_json].) *)
Theorem client_takes_finite_totals (model : generate_request -> upstream)
      (req : request) (d d' : disk) (r : response)
      (s : component) (img : string) :
  st_image s = Some img ->
  analyze_food model req d = (Ok r, d') ->
  status r = 200 ->
  exists ps t,
    body r = Obj ps /\
    lookup key_total_calories ps = Some (Num t) /\
    deliver r s =
      if is_finite t
      then mkComponent (Some img) (Some (through_json (body r))) false []
      else mkComponent (Some img) (st_result s) false
             (lit "API returned unexpected response format.").
Proof.
  intros Hi Hr Hs.
  destruct (analyze_food_shapes model req d) as (r0 & d0 & Hr0 & Hshape).
  rewrite Hr in Hr0. injection Hr0 as <- <-.
  destruct Hshape as [(Hf & _ & ->)|(Hf & [->|[->|(items & t & ->)]])];
    try discriminate.
  - eexists _, Number.zero. split; [reflexivity|]. split; [reflexivity|].
    exact (deliver_answer s img [] Number.zero _ Hi).
  - eexists _, t. split; [reflexivity|]. split; [reflexivity|].
    exact (deliver_answer s img items t [] Hi).
Qed.

Lemma client_takes_finite_totals_witness :
  (st_image (mkComponent (Some "meal.jpg"%string) None false [])
     = Some "meal.jpg"%string /\
   analyze_food
     (fun _ => Resolves (Ok (dq "{'foods': [{'name': 'rice', 'calories': 'abc'}]}")))
     (mkRequest (Some (mkUpload "uploads/3f9a" (lit "image/png"))))
     [("uploads/3f9a"%string, lit "aGk=")]
   = (Ok (json [ (key_foods,
                  Arr [ Obj [ (lit "name", Str (lit "rice"));
                              (key_calories, Str (lit "abc")) ] ]);
                 (key_total_calories, Num Number.NaN) ]),
      []) /\
   status (json [ (key_foods,
                   Arr [ Obj [ (lit "name", Str (lit "rice"));
                               (key_calories, Str (lit "abc")) ] ]);
                  (key_total_calories, Num Number.NaN) ]) = 200) /\
  exists ps t,
    body (json [ (key_foods,
                  Arr [ Obj [ (lit "name", Str (lit "rice"));
                              (key_calories, Str (lit "abc")) ] ]);
                 (key_total_calories, Num Number.NaN) ]) = Obj ps /\
    lookup key_total_calories ps = Some (Num t) /\
    deliver (json [ (key_foods,
                     Arr [ Obj [ (lit "name", Str (lit "rice"));
                                 (key_calories, Str (lit "abc")) ] ]);
                    (key_total_calories, Num Number.NaN) ])
      (mkComponent (Some "meal.jpg"%string) None false []) =
      if is_finite t
      then mkComponent (Some "meal.jpg"%string)
             (Some (through_json
                      (body (json [ (key_foods,
                                     Arr [ Obj [ (lit "name", Str (lit "rice"));
                                                 (key_calories, Str (lit "abc")) ] ]);
                                    (key_total_calories, Num Number.NaN) ]))))
             false []
      else mkComponent (Some "meal.jpg"%string)
             (st_result (mkComponent (Some "meal.jpg"%string) None false []))
             false (lit "API returned unexpected response format.").
Proof.
  assert (Hr : analyze_food
                 (fun _ => Resolves (Ok (dq "{'foods': [{'name': 'rice', 'calories': 'abc'}]}")))
                 (mkRequest (Some (mkUpload "uploads/3f9a" (lit "image/png"))))
                 [("uploads/3f9a"%string, lit "aGk=")]
               = (Ok (json [ (key_foods,
                              Arr [ Obj [ (lit "name", Str (lit "rice"));
                                          (key_calories, Str (lit "abc")) ] ]);
                             (key_total_calories, Num Number.NaN) ]),
                  [])).
  { vm_compute. reflexivity. }
  split; [split; [reflexivity|split; [exact Hr|reflexivity]]|].
  exact (client_takes_finite_totals
           (fun _ => Resolves (Ok (dq "{'foods': [{'name': 'rice', 'calories': 'abc'}]}")))
           (mkRequest (Some (mkUpload "uploads/3f9a" (lit "image/png"))))
           [("uploads/3f9a"%string, lit "aGk=")] [] _
           (mkComponent (Some "meal.jpg"%string) None false [])
           "meal.jpg" eq_refl Hr eq_refl).
Defined.


